(** * The entity tree form of tk-multi-workfiles2

    A shallow embedding of
    [python/tk_multi_workfiles/entity_tree/entity_tree_form.py]: the widget
    that shows a Shotgun entity model in a tree view behind a filter proxy
    and keeps track of the expanded nodes, of the selection and of the
    breadcrumb trail of the selection.

    The widget is a set of slots over Qt objects.  The Qt objects it talks to
    (source model, proxy model, selection model, tree view) are part of the
    state, each reduced to what the slots read and write; every slot is a
    function on that state. *)

From Stdlib Require Import String Ascii ZArith List Bool Lia.
From stdpp Require Import base decidable option list gmap sets.
Import ListNotations.

Set Warnings "-register-all,-clear-no-such-hyp".
Local Open Scope string_scope.

(** ** Python values *)

(** A Shotgun entity dictionary.  The widget reads the keys "type" and "id"
    by subscript, and "name", "content", "entity" and "step" through
    [dict.get]; a linked entity is an entity dictionary again. *)
Inductive Entity : Type := mkEntity {
  sg_type : string;
  sg_id : Z;
  sg_name : option string;
  sg_content : option string;
  sg_entity : option Entity;
  sg_step : option Entity }.

(** Identity of an entity: its type and id. *)
Definition entity_identity (e : Entity) : string * Z := (sg_type e, sg_id e).

(** ["%s" % v] for the value of [dict.get(key)]. *)
Definition py_str (v : option string) : string :=
  match v with Some s => s | None => "None" end.

(** The exceptions the embedded code can raise. *)
Inductive PyExn : Type :=
  | TypeError        (* subscript of None *)
  | AttributeError   (* attribute of None *)
  | RecursionError.  (* the stack is used up *)

Inductive Result (A : Type) : Type :=
  | Ok (a : A)
  | Raise (e : PyExn).
Arguments Ok {A} a.
Arguments Raise {A} e.

#[global] Instance Result_bind : MBind Result :=
  fun A B (k : A -> Result B) (r : Result A) =>
    match r with Ok a => k a | Raise e => Raise e end.

#[global] Instance Result_ret : MRet Result := fun A a => Ok a.

(** ** The source model *)

(** A [QStandardItem] of the Shotgun model.  [item_ref] stands for the
    identity of the Python object: it is what [id(item)] and
    [weakref.ref(item)] compare. *)
Inductive Item : Type := mkItem {
  item_ref : nat;
  item_text : string;
  item_entity : option Entity;
  item_rows : list Item }.

(** A [ShotgunEntityModel]: its top-level rows and the entity type that it
    was built for. *)
Record ShotgunEntityModel : Type := mkModel {
  model_rows : list Item;
  model_entity_type : string }.

(** ** Model indexes

    A [QModelIndex] knows the model it belongs to and its position: its own
    row, then the row of its parent, and so on up to a top-level row.  The
    index without rows is the invalid index, which also stands for the
    root. *)
Inductive ModelTag : Type := OfSource | OfFilter.

Record QModelIndex : Type := mkIndex {
  idx_model : ModelTag;
  idx_rows : list nat }.

Definition ModelTag_eqb (a b : ModelTag) : bool :=
  match a, b with
  | OfSource, OfSource | OfFilter, OfFilter => true
  | _, _ => false
  end.

Definition rows_eqb (a b : list nat) : bool := bool_decide (a = b).

Definition index_eqb (a b : QModelIndex) : bool :=
  ModelTag_eqb (idx_model a) (idx_model b) && rows_eqb (idx_rows a) (idx_rows b).

Definition isValid (idx : QModelIndex) : bool :=
  match idx_rows idx with [] => false | _ :: _ => true end.

Definition invalid_index : QModelIndex := mkIndex OfSource [].

(** [idx.parent()] *)
Definition parent (idx : QModelIndex) : QModelIndex :=
  mkIndex (idx_model idx) (tail (idx_rows idx)).

(** An item as a Python object in hand: the node together with the place
    where it sits in the source model, so that [item.index()] can be
    answered. *)
Record QStandardItem : Type := mkHandle {
  handle_rows : list nat;
  handle_item : Item }.

(** [item.index()] *)
Definition index_of (h : QStandardItem) : QModelIndex :=
  mkIndex OfSource (handle_rows h).

(** [src_model.invisibleRootItem()] *)
Definition invisibleRootItem (m : ShotgunEntityModel) : QStandardItem :=
  mkHandle [] (mkItem 0 "" None (model_rows m)).

(** [item.rowCount()] and [item.child(row)] *)
Definition item_rowCount (h : QStandardItem) : nat :=
  length (item_rows (handle_item h)).

Definition item_child (h : QStandardItem) (row : nat) : option QStandardItem :=
  match item_rows (handle_item h) !! row with
  | Some c => Some (mkHandle (row :: handle_rows h) c)
  | None => None
  end.

(** The item at a position of the source model; the empty position is the
    invisible root. *)
Fixpoint source_item (m : ShotgunEntityModel) (rows : list nat)
  : option QStandardItem :=
  match rows with
  | [] => Some (invisibleRootItem m)
  | row :: up =>
      match source_item m up with
      | Some h => item_child h row
      | None => None
      end
  end.

(** [src_model.itemFromIndex(idx)]: None for an invalid index and for an
    index of another model. *)
Definition itemFromIndex (m : ShotgunEntityModel) (idx : QModelIndex)
  : option QStandardItem :=
  match idx_model idx, idx_rows idx with
  | OfSource, _ :: _ => source_item m (idx_rows idx)
  | _, _ => None
  end.

(** [src_model.get_entity(item)] of the Shotgun framework, taken to answer
    None when there is no item. *)
Definition get_entity (o : option QStandardItem) : option Entity :=
  match o with
  | Some h => item_entity (handle_item h)
  | None => None
  end.

(** Modelled from the spec: [util.get_model_str] is outside the sources at
    hand.  A breadcrumb of a node without entity carries the label of the
    node, so the helper is taken to give the display text of the item, and
    the empty text when there is none. *)
Definition get_model_str (o : option QStandardItem) : string :=
  match o with
  | Some h => item_text (handle_item h)
  | None => ""
  end.

(** The first item, in document order, that satisfies [p]. *)
Fixpoint find_item (p : Item -> bool) (rows : list nat) (it : Item)
  : option QStandardItem :=
  if p it then Some (mkHandle rows it)
  else
    (fix among (cs : list Item) (row : nat) : option QStandardItem :=
       match cs with
       | [] => None
       | c :: rest =>
           match find_item p (row :: rows) c with
           | Some h => Some h
           | None => among rest (S row)
           end
       end) (item_rows it) 0.

Fixpoint find_among (p : Item -> bool) (rows : list nat) (cs : list Item)
  (row : nat) : option QStandardItem :=
  match cs with
  | [] => None
  | c :: rest =>
      match find_item p (row :: rows) c with
      | Some h => Some h
      | None => find_among p rows rest (S row)
      end
  end.

Definition has_identity (ty : string) (id : Z) (it : Item) : bool :=
  match item_entity it with
  | Some e => String.eqb (sg_type e) ty && Z.eqb (sg_id e) id
  | None => false
  end.

(** [src_model.get_entity_type()] *)
Definition get_entity_type (m : ShotgunEntityModel) : string :=
  model_entity_type m.

(** [src_model.item_from_entity(type, id)] of the Shotgun framework: the
    item that represents the entity, None when the model is for another
    entity type or has no such item. *)
Definition item_from_entity (m : ShotgunEntityModel) (ty : string) (id : Z)
  : option QStandardItem :=
  if String.eqb ty (get_entity_type m)
  then find_among (has_identity ty id) [] (model_rows m) 0
  else None.

(** A weak reference to an item answers the item as long as the model
    holds it. *)
Definition deref (m : ShotgunEntityModel) (ref : nat) : option QStandardItem :=
  find_among (fun it => Nat.eqb (item_ref it) ref) [] (model_rows m) 0.

(** ** The filter proxy model *)

Inductive CaseSensitivity : Type := CaseInsensitive | CaseSensitive.

(** [QRegExp.PatternSyntax], the two syntaxes that matter for the widget. *)
Inductive PatternSyntax : Type :=
  | RegExp        (* the pattern is a regular expression *)
  | FixedString.  (* the pattern is a fixed string: no character is special *)

Record QRegExp : Type := mkRegExp {
  pattern : string;
  caseSensitivity : CaseSensitivity;
  patternSyntax : PatternSyntax }.

(** Qt matches without regard to case by folding the case of the pattern
    and of the text, character by character ([QChar::toCaseFolded]), before
    it compares them.  The folding covers the letters of every script; its
    table belongs to Qt and is outside of the sources, so the matching below
    takes the folding as a parameter, and what is proved of it holds for
    Qt's table whatever letters it folds. *)
Definition CaseFolding : Type := string -> string.

(** The folding of the texts whose letters are all ASCII: A to Z go to a to
    z and every other character stays.  It serves the examples, whose texts
    are ASCII. *)
Definition ascii_to_lower (c : ascii) : ascii :=
  let n := nat_of_ascii c in
  if (65 <=? n)%nat && (n <=? 90)%nat then ascii_of_nat (n + 32) else c.

Fixpoint fold_ascii (s : string) : string :=
  match s with
  | EmptyString => EmptyString
  | String c s' => String (ascii_to_lower c) (fold_ascii s')
  end.

Fixpoint starts_with (p s : string) : bool :=
  match p, s with
  | EmptyString, _ => true
  | String a p', String b s' => Ascii.eqb a b && starts_with p' s'
  | String _ _, EmptyString => false
  end.

(** [p] occurs somewhere in [s]. *)
Fixpoint occurs_in (p s : string) : bool :=
  starts_with p s ||
  match s with
  | EmptyString => false
  | String _ s' => occurs_in p s'
  end.

(** A regular expression of literals, [.] and postfix [*], matched at the
    start of the text. *)
Fixpoint matchhere (re text : string) {struct re} : bool :=
  match re with
  | EmptyString => true
  | String c re' =>
      let one (t : ascii) := Ascii.eqb c "."%char || Ascii.eqb c t in
      match re' with
      | String "*"%char re'' =>
          (fix star (text : string) : bool :=
             matchhere re'' text ||
             match text with
             | String t text' => one t && star text'
             | EmptyString => false
             end) text
      | _ =>
          match text with
          | String t text' => one t && matchhere re' text'
          | EmptyString => false
          end
      end
  end.

Fixpoint regexp_occurs_in (re text : string) : bool :=
  matchhere re text ||
  match text with
  | EmptyString => false
  | String _ text' => regexp_occurs_in re text'
  end.

(** [reg_exp.indexIn(text) != -1]: the expression matches somewhere in the
    text.  [toCaseFolded] is the case folding that Qt applies when the
    expression is case insensitive. *)
Definition regexp_matches (toCaseFolded : CaseFolding) (re : QRegExp)
  (text : string) : bool :=
  let fold (s : string) :=
    match caseSensitivity re with
    | CaseInsensitive => toCaseFolded s
    | CaseSensitive => s
    end in
  match patternSyntax re with
  | FixedString => occurs_in (fold (pattern re)) (fold text)
  | RegExp => regexp_occurs_in (fold (pattern re)) (fold text)
  end.

(** The [EntityTreeProxyModel] between the source model and the view.  Which
    source rows it lets through is decided by its [filterAcceptsRow], which
    sees the filter expression, the my-tasks-only flag, the source model and
    the position of the source row. *)
Record EntityTreeProxyModel : Type := mkProxy {
  sourceModel : ShotgunEntityModel;
  filterRegExp : QRegExp;
  only_show_my_tasks : bool;
  filterAcceptsRow :
    QRegExp -> bool -> ShotgunEntityModel -> list nat -> bool }.

Definition setFilterRegExp (fm : EntityTreeProxyModel) (re : QRegExp)
  : EntityTreeProxyModel :=
  mkProxy (sourceModel fm) re (only_show_my_tasks fm) (filterAcceptsRow fm).

Definition set_only_show_my_tasks (fm : EntityTreeProxyModel) (checked : bool)
  : EntityTreeProxyModel :=
  mkProxy (sourceModel fm) (filterRegExp fm) checked (filterAcceptsRow fm).

Definition accepts (fm : EntityTreeProxyModel) (rows : list nat) : bool :=
  filterAcceptsRow fm (filterRegExp fm) (only_show_my_tasks fm)
    (sourceModel fm) rows.

(** The children that pass [acc], each with its source row; [row] is the
    source row of the first of [cs]. *)
Fixpoint shown_from (acc : nat -> bool) (row : nat) (cs : list Item)
  : list (nat * Item) :=
  match cs with
  | [] => []
  | c :: rest =>
      if acc row then (row, c) :: shown_from acc (S row) rest
      else shown_from acc (S row) rest
  end.

(** The rows that the proxy shows below a source item. *)
Definition shown_rows (fm : EntityTreeProxyModel) (h : QStandardItem)
  : list (nat * Item) :=
  shown_from (fun s => accepts fm (s :: handle_rows h)) 0
    (item_rows (handle_item h)).

(** The source item shown at a position of the proxy. *)
Fixpoint filter_item (fm : EntityTreeProxyModel) (rows : list nat)
  : option QStandardItem :=
  match rows with
  | [] => Some (invisibleRootItem (sourceModel fm))
  | row :: up =>
      match filter_item fm up with
      | Some h =>
          match shown_rows fm h !! row with
          | Some (s, c) => Some (mkHandle (s :: handle_rows h) c)
          | None => None
          end
      | None => None
      end
  end.

(** The proxy row of the source row [s] below [h]. *)
Definition row_in_filter (fm : EntityTreeProxyModel) (h : QStandardItem)
  (s : nat) : nat :=
  length (shown_from (fun s => accepts fm (s :: handle_rows h)) 0
            (take s (item_rows (handle_item h)))).

(** The position in the proxy of a position of the source model, if the
    row and all rows above it are shown. *)
Fixpoint filter_position (fm : EntityTreeProxyModel) (rows : list nat)
  : option (list nat) :=
  match rows with
  | [] => Some []
  | s :: up =>
      match filter_position fm up, source_item (sourceModel fm) up with
      | Some pup, Some h =>
          match item_child h s with
          | Some _ =>
              if accepts fm (s :: handle_rows h)
              then Some (row_in_filter fm h s :: pup)
              else None
          | None => None
          end
      | _, _ => None
      end
  end.

(** [filter_model.mapToSource(idx)]: invalid for an invalid index, for an
    index of another model and for a position that the proxy does not
    have. *)
Definition mapToSource (fm : EntityTreeProxyModel) (idx : QModelIndex)
  : QModelIndex :=
  match idx_model idx, idx_rows idx with
  | OfFilter, _ :: _ =>
      match filter_item fm (idx_rows idx) with
      | Some h => index_of h
      | None => invalid_index
      end
  | _, _ => invalid_index
  end.

(** [filter_model.mapFromSource(idx)] *)
Definition mapFromSource (fm : EntityTreeProxyModel) (idx : QModelIndex)
  : QModelIndex :=
  match idx_model idx, idx_rows idx with
  | OfSource, _ :: _ =>
      match filter_position fm (idx_rows idx) with
      | Some p => mkIndex OfFilter p
      | None => invalid_index
      end
  | _, _ => invalid_index
  end.

(** [filter_model.rowCount(idx)]; the invalid index counts the top-level
    rows. *)
Definition rowCount (fm : EntityTreeProxyModel) (idx : QModelIndex) : nat :=
  match idx_model idx, idx_rows idx with
  | OfSource, _ :: _ => 0
  | _, _ =>
      match filter_item fm (idx_rows idx) with
      | Some h => length (shown_rows fm h)
      | None => 0
      end
  end.

(** [filter_model.index(row, 0, parent_idx)] *)
Definition index (fm : EntityTreeProxyModel) (row : nat)
  (parent_idx : QModelIndex) : QModelIndex :=
  if (row <? rowCount fm parent_idx)%nat
  then mkIndex OfFilter (row :: idx_rows parent_idx)
  else invalid_index.

(** [idx.child(row, 0)]: the invalid index has no model to ask. *)
Definition child (fm : EntityTreeProxyModel) (idx : QModelIndex) (row : nat)
  : QModelIndex :=
  match idx_model idx, idx_rows idx with
  | _, [] => invalid_index
  | OfFilter, _ :: _ => index fm row idx
  | OfSource, _ :: _ =>
      match source_item (sourceModel fm) (row :: idx_rows idx) with
      | Some _ => mkIndex OfSource (row :: idx_rows idx)
      | None => invalid_index
      end
  end.

(** ** What the widget hands out *)

(** A [Breadcrumb] carries a label; an [_EntityBreadcrumb] carries the
    entity as well. *)
Inductive BreadcrumbObj : Type :=
  | Breadcrumb (label : string)
  | _EntityBreadcrumb (label : string) (entity : Entity).

Definition crumb_label (crumb : BreadcrumbObj) : string :=
  match crumb with
  | Breadcrumb label => label
  | _EntityBreadcrumb label _ => label
  end.

(** The result of [_build_breadcrumb_trail]: the empty dictionary when
    there is not exactly one selected index, a list of breadcrumbs
    otherwise. *)
Inductive Trail : Type :=
  | TrailEmptyDict
  | TrailList (breadcrumbs : list BreadcrumbObj).

(** [{"label": label, "entity": entity}] *)
Record ChildDetails : Type := mkChild {
  child_label : string;
  child_entity : option Entity }.

(** The result of [_get_entity_details]: the empty dictionary, or
    [{"label": label, "entity": entity, "children": children}]. *)
Inductive Details : Type :=
  | EmptyDict
  | DetailsDict (label : string) (entity : option Entity)
      (children : list ChildDetails).

Inductive Signal : Type :=
  | entity_selected (selection_details : option Details) (breadcrumbs : Trail)
  | create_new_task (entity : Entity) (step : option Entity).

(** ** The widget *)

Record EntityTreeForm : Type := mkForm {
  (* attributes of the widget *)
  _collapse_steps_with_tasks : bool;
  _entity_to_select : option (string * Z);
  _current_item_ref : option nat;
  _expanded_items : gset nat;
  _auto_expanded_root_items : gset nat;
  _filter_model : EntityTreeProxyModel;
  (* _ui.entity_tree.selectionModel(): the selected indexes *)
  selectedIndexes : list QModelIndex;
  (* _ui.entity_tree: the items whose rows are expanded in the view *)
  tree_expanded : gset nat;
  updatesEnabled : bool;
  (* _ui.new_task_btn *)
  new_task_btn_enabled : bool;
  (* QObject.signalsBlocked() of the widget and the signals it has sent *)
  signalsBlocked : bool;
  emitted : list Signal }.

Definition set_entity_to_select (st : EntityTreeForm) (v : option (string * Z)) :=
  mkForm (_collapse_steps_with_tasks st) v (_current_item_ref st)
    (_expanded_items st) (_auto_expanded_root_items st) (_filter_model st)
    (selectedIndexes st) (tree_expanded st) (updatesEnabled st)
    (new_task_btn_enabled st) (signalsBlocked st) (emitted st).

Definition set_current_item_ref (st : EntityTreeForm) (v : option nat) :=
  mkForm (_collapse_steps_with_tasks st) (_entity_to_select st) v
    (_expanded_items st) (_auto_expanded_root_items st) (_filter_model st)
    (selectedIndexes st) (tree_expanded st) (updatesEnabled st)
    (new_task_btn_enabled st) (signalsBlocked st) (emitted st).

Definition set_expanded_items (st : EntityTreeForm) (v : gset nat) :=
  mkForm (_collapse_steps_with_tasks st) (_entity_to_select st)
    (_current_item_ref st) v (_auto_expanded_root_items st) (_filter_model st)
    (selectedIndexes st) (tree_expanded st) (updatesEnabled st)
    (new_task_btn_enabled st) (signalsBlocked st) (emitted st).

Definition set_auto_expanded_root_items (st : EntityTreeForm) (v : gset nat) :=
  mkForm (_collapse_steps_with_tasks st) (_entity_to_select st)
    (_current_item_ref st) (_expanded_items st) v (_filter_model st)
    (selectedIndexes st) (tree_expanded st) (updatesEnabled st)
    (new_task_btn_enabled st) (signalsBlocked st) (emitted st).

Definition set_filter_model (st : EntityTreeForm) (v : EntityTreeProxyModel) :=
  mkForm (_collapse_steps_with_tasks st) (_entity_to_select st)
    (_current_item_ref st) (_expanded_items st) (_auto_expanded_root_items st)
    v (selectedIndexes st) (tree_expanded st) (updatesEnabled st)
    (new_task_btn_enabled st) (signalsBlocked st) (emitted st).

Definition set_selectedIndexes (st : EntityTreeForm) (v : list QModelIndex) :=
  mkForm (_collapse_steps_with_tasks st) (_entity_to_select st)
    (_current_item_ref st) (_expanded_items st) (_auto_expanded_root_items st)
    (_filter_model st) v (tree_expanded st) (updatesEnabled st)
    (new_task_btn_enabled st) (signalsBlocked st) (emitted st).

Definition set_tree_expanded (st : EntityTreeForm) (v : gset nat) :=
  mkForm (_collapse_steps_with_tasks st) (_entity_to_select st)
    (_current_item_ref st) (_expanded_items st) (_auto_expanded_root_items st)
    (_filter_model st) (selectedIndexes st) v (updatesEnabled st)
    (new_task_btn_enabled st) (signalsBlocked st) (emitted st).

(** [_ui.entity_tree.setUpdatesEnabled(enable)] *)
Definition setUpdatesEnabled (st : EntityTreeForm) (v : bool) :=
  mkForm (_collapse_steps_with_tasks st) (_entity_to_select st)
    (_current_item_ref st) (_expanded_items st) (_auto_expanded_root_items st)
    (_filter_model st) (selectedIndexes st) (tree_expanded st) v
    (new_task_btn_enabled st) (signalsBlocked st) (emitted st).

(** [_ui.new_task_btn.setEnabled(enable)] *)
Definition new_task_btn_setEnabled (st : EntityTreeForm) (v : bool) :=
  mkForm (_collapse_steps_with_tasks st) (_entity_to_select st)
    (_current_item_ref st) (_expanded_items st) (_auto_expanded_root_items st)
    (_filter_model st) (selectedIndexes st) (tree_expanded st)
    (updatesEnabled st) v (signalsBlocked st) (emitted st).

(** [self.blockSignals(block)]; the caller reads the former value off the
    state before. *)
Definition blockSignals (st : EntityTreeForm) (v : bool) :=
  mkForm (_collapse_steps_with_tasks st) (_entity_to_select st)
    (_current_item_ref st) (_expanded_items st) (_auto_expanded_root_items st)
    (_filter_model st) (selectedIndexes st) (tree_expanded st)
    (updatesEnabled st) (new_task_btn_enabled st) v (emitted st).

(** [signal.emit(...)]: nothing goes out while the widget blocks its
    signals. *)
Definition emit (st : EntityTreeForm) (s : Signal) :=
  if signalsBlocked st then st
  else
    mkForm (_collapse_steps_with_tasks st) (_entity_to_select st)
      (_current_item_ref st) (_expanded_items st)
      (_auto_expanded_root_items st) (_filter_model st) (selectedIndexes st)
      (tree_expanded st) (updatesEnabled st) (new_task_btn_enabled st)
      (signalsBlocked st) (emitted st ++ [s]).

(** [weakref.ref(item)] *)
Definition weakref (h : QStandardItem) : nat := item_ref (handle_item h).

Definition src_model (st : EntityTreeForm) : ShotgunEntityModel :=
  sourceModel (_filter_model st).

(** *** Helpers of the widget *)

Definition _item_from_index (st : EntityTreeForm) (idx : QModelIndex)
  : option QStandardItem :=
  let src_idx := mapToSource (_filter_model st) idx in
  itemFromIndex (src_model st) src_idx.

Definition _get_selected_item (st : EntityTreeForm) : option QStandardItem :=
  match selectedIndexes st with
  | [idx] => _item_from_index st idx
  | _ => None
  end.

Definition _update_ui (st : EntityTreeForm) : EntityTreeForm :=
  let enable_new_tasks :=
    match selectedIndexes st with
    | [idx] =>
        let item := _item_from_index st idx in
        match get_entity item with
        | Some entity =>
            if negb (String.eqb (sg_type entity) "Step") then
              if String.eqb (sg_type entity) "Task" then
                match sg_entity entity with
                | Some _ => true
                | None => false
                end
              else true
            else false
        | None => false
        end
    | _ => false
    end in
  new_task_btn_setEnabled st enable_new_tasks.

(** [selectionModel().reset()] empties the selection and sends nothing. *)
Definition _reset_selection (st : EntityTreeForm)
  : option QStandardItem * EntityTreeForm :=
  let prev_selected_item := _get_selected_item st in
  let st := set_selectedIndexes st [] in
  let st := _update_ui st in
  (prev_selected_item, st).

(** The loop over the grandchildren in [_get_entity_details]. *)
Definition collapse_grandchild (st : EntityTreeForm) (child_label : string)
  (child_idx : QModelIndex) (collapsed_children : list ChildDetails)
  (child_row : nat) : list ChildDetails :=
  let grandchild_idx := index (_filter_model st) child_row child_idx in
  match _item_from_index st grandchild_idx with
  | None => collapsed_children
  | Some grandchild_item =>
      let grandchild_label := item_text (handle_item grandchild_item) in
      match get_entity (Some grandchild_item) with
      | Some grandchild_entity =>
          if String.eqb (sg_type grandchild_entity) "Task" then
            collapsed_children ++
              [mkChild (child_label ++ " - " ++ grandchild_label)
                 (Some grandchild_entity)]
          else collapsed_children
      | None => collapsed_children
      end
  end.

(** The loop over the children in [_get_entity_details]; the state of the
    loop is the pair of [children] and [collapsed_children]. *)
Definition details_of_child (st : EntityTreeForm) (idx : QModelIndex)
  (acc : list ChildDetails * list ChildDetails) (row : nat)
  : list ChildDetails * list ChildDetails :=
  let '(children, collapsed_children) := acc in
  let child_idx := index (_filter_model st) row idx in
  match _item_from_index st child_idx with
  | None => (children, collapsed_children)
  | Some child_item =>
      let child_label := item_text (handle_item child_item) in
      let child_entity := get_entity (Some child_item) in
      let children := (children ++ [mkChild child_label child_entity])%list in
      let is_step :=
        match child_entity with
        | Some e => String.eqb (sg_type e) "Step"
        | None => false
        end in
      if _collapse_steps_with_tasks st && is_step then
        (children,
         foldl (collapse_grandchild st child_label child_idx)
           collapsed_children
           (seq 0 (rowCount (_filter_model st) child_idx)))
      else (children, collapsed_children)
  end.

(** The loop over the children of a Step in [_get_entity_details]. *)
Definition collapse_child (label : string)
  (collapsed_children : list ChildDetails) (child : ChildDetails)
  : list ChildDetails :=
  match child_entity child with
  | Some e =>
      if String.eqb (sg_type e) "Task" then
        collapsed_children ++
          [mkChild (label ++ " - " ++ child_label child) (Some e)]
      else collapsed_children
  | None => collapsed_children
  end.

Definition nonempty {A} (l : list A) : bool :=
  match l with [] => false | _ :: _ => true end.

Definition _get_entity_details (st : EntityTreeForm) (idx : QModelIndex)
  : Details :=
  if negb (isValid idx) then EmptyDict
  else
    match _item_from_index st idx with
    | None => EmptyDict
    | Some item =>
        let label := item_text (handle_item item) in
        let entity := get_entity (Some item) in
        let '(children, collapsed_children) :=
          foldl (details_of_child st idx) ([], [])
            (seq 0 (rowCount (_filter_model st) idx)) in
        let is_step :=
          match entity with
          | Some e => String.eqb (sg_type e) "Step"
          | None => false
          end in
        if nonempty collapsed_children then
          DetailsDict label entity collapsed_children
        else if _collapse_steps_with_tasks st && is_step then
          let collapsed_children :=
            foldl (collapse_child label) collapsed_children children in
          if nonempty collapsed_children then
            DetailsDict label None collapsed_children
          else DetailsDict label entity children
        else DetailsDict label entity children
    end.

(** The breadcrumb of one node in [_build_breadcrumb_trail]. *)
Definition breadcrumb_at (m : ShotgunEntityModel) (idx : QModelIndex)
  : BreadcrumbObj :=
  match get_entity (itemFromIndex m idx) with
  | Some entity =>
      let name_token :=
        if String.eqb (sg_type entity) "Task" then sg_content entity
        else sg_name entity in
      let label := "<b>" ++ sg_type entity ++ "</b> " ++ py_str name_token in
      _EntityBreadcrumb label entity
  | None =>
      let label := get_model_str (itemFromIndex m idx) in
      Breadcrumb label
  end.

(** The loop [while idx.isValid(): ...; idx = idx.parent()]. *)
Fixpoint walk_up (m : ShotgunEntityModel) (tag : ModelTag) (rows : list nat)
  (breadcrumbs : list BreadcrumbObj) : list BreadcrumbObj :=
  match rows with
  | [] => breadcrumbs
  | _ :: up =>
      walk_up m tag up (breadcrumbs ++ [breadcrumb_at m (mkIndex tag rows)])
  end.

Definition _build_breadcrumb_trail (st : EntityTreeForm) : Trail :=
  match selectedIndexes st with
  | [selected] =>
      let idx := mapToSource (_filter_model st) selected in
      let breadcrumbs := walk_up (src_model st) (idx_model idx) (idx_rows idx) [] in
      TrailList (rev breadcrumbs)
  | _ => TrailEmptyDict
  end.

Definition _emit_entity_selected (st : EntityTreeForm)
  (entity_details : option Details) : EntityTreeForm :=
  let breadcrumbs := _build_breadcrumb_trail st in
  emit st (entity_selected entity_details breadcrumbs).

(** *** Expansion *)

Definition _on_item_expanded (st : EntityTreeForm) (idx : QModelIndex)
  : EntityTreeForm :=
  match _item_from_index st idx with
  | None => st
  | Some item => set_expanded_items st ({[weakref item]} ∪ _expanded_items st)
  end.

Definition _on_item_collapsed (st : EntityTreeForm) (idx : QModelIndex)
  : EntityTreeForm :=
  match _item_from_index st idx with
  | None => st
  | Some item => set_expanded_items st (_expanded_items st ∖ {[weakref item]})
  end.

(** [_ui.entity_tree.expand(idx)]: a row that is not yet expanded becomes
    expanded and the view sends [expanded], which is connected to
    [_on_item_expanded]. *)
Definition expand (st : EntityTreeForm) (idx : QModelIndex) : EntityTreeForm :=
  match _item_from_index st idx with
  | None => st
  | Some item =>
      if bool_decide (weakref item ∈ tree_expanded st) then st
      else
        _on_item_expanded
          (set_tree_expanded st ({[weakref item]} ∪ tree_expanded st)) idx
  end.

(** [_ui.entity_tree.collapse(idx)], with [collapsed] connected to
    [_on_item_collapsed]. *)
Definition collapse (st : EntityTreeForm) (idx : QModelIndex) : EntityTreeForm :=
  match _item_from_index st idx with
  | None => st
  | Some item =>
      if bool_decide (weakref item ∈ tree_expanded st) then
        _on_item_collapsed
          (set_tree_expanded st (tree_expanded st ∖ {[weakref item]})) idx
      else st
  end.

(** [_ui.entity_tree.scrollTo(idx)] expands the rows above [idx]. *)
Fixpoint expand_up (st : EntityTreeForm) (tag : ModelTag) (rows : list nat)
  : EntityTreeForm :=
  match rows with
  | [] => st
  | _ :: up => expand_up (expand st (mkIndex tag rows)) tag up
  end.

Definition scrollTo (st : EntityTreeForm) (idx : QModelIndex) : EntityTreeForm :=
  expand_up st (idx_model idx) (tail (idx_rows idx)).

(** How a slot ends: it returns, or an exception leaves it; either way the
    widget is left in a state. *)
Inductive Outcome : Type :=
  | Returns (st : EntityTreeForm)
  | Raises (e : PyExn) (st : EntityTreeForm).

Definition state_after (o : Outcome) : EntityTreeForm :=
  match o with Returns st => st | Raises _ st => st end.

Definition and_then (o : Outcome) (k : EntityTreeForm -> Outcome) : Outcome :=
  match o with
  | Returns st => k st
  | Raises e st => Raises e st
  end.

(** [try: ... finally: k] *)
Definition finally (o : Outcome) (k : EntityTreeForm -> EntityTreeForm)
  : Outcome :=
  match o with
  | Returns st => Returns (k st)
  | Raises e st => Raises e (k st)
  end.

(** The first half of [_fix_expanded_state_r]: the expanded state of the
    item at [idx] itself. *)
Definition fix_item_state (st : EntityTreeForm) (idx : QModelIndex)
  : EntityTreeForm :=
  match _item_from_index st idx with
  | Some item =>
      let ref := weakref item in
      let st :=
        if negb (isValid (parent idx)) then
          (* this is a root item *)
          if negb (bool_decide (ref ∈ _auto_expanded_root_items st)) then
            let st :=
              set_auto_expanded_root_items st
                ({[ref]} ∪ _auto_expanded_root_items st) in
            set_expanded_items st ({[ref]} ∪ _expanded_items st)
          else st
        else st in
      if bool_decide (ref ∈ _expanded_items st) then expand st idx
      else st
  | None => st
  end.

(** The second half: the loop over the children, with [recurse] for the
    call of [_fix_expanded_state_r] on a child. *)
Definition fix_children_state
  (recurse : EntityTreeForm -> QModelIndex -> Outcome)
  (st : EntityTreeForm) (idx : QModelIndex) : Outcome :=
  foldl
    (fun o row =>
       and_then o (fun st =>
         let child_idx := child (_filter_model st) idx row in
         recurse st child_idx))
    (Returns st) (seq 0 (rowCount (_filter_model st) idx)).

(** [depth] is the room left on the Python stack. *)
Fixpoint _fix_expanded_state_r (depth : nat) (st : EntityTreeForm)
  (idx : QModelIndex) : Outcome :=
  match depth with
  | 0 => Raises RecursionError st
  | S depth =>
      let st := fix_item_state st idx in
      fix_children_state (_fix_expanded_state_r depth) st idx
  end.

(** The first half of [_on_filter_model_rows_inserted]: the expanded state
    of the parent of the new rows. *)
Definition fix_parent_state (st : EntityTreeForm) (parent_idx : QModelIndex)
  : EntityTreeForm :=
  if isValid parent_idx then
    match _item_from_index st parent_idx with
    | Some item =>
        if bool_decide (weakref item ∈ _expanded_items st)
        then expand st parent_idx
        else st
    | None => st
    end
  else st.

Definition _on_filter_model_rows_inserted (depth : nat) (st : EntityTreeForm)
  (parent_idx : QModelIndex) (first last : nat) : Outcome :=
  let st := setUpdatesEnabled st false in
  finally
    (let st := fix_parent_state st parent_idx in
     foldl
       (fun o row =>
          and_then o (fun st =>
            let idx := index (_filter_model st) row parent_idx in
            _fix_expanded_state_r depth st idx))
       (Returns st) (seq first (S last - first)))
    (fun st => setUpdatesEnabled st true).

(** The body of the loop of [_expand_root_rows]. *)
Definition expand_root_row (st : EntityTreeForm) (row : nat) : EntityTreeForm :=
  let idx := index (_filter_model st) row invalid_index in
  match _item_from_index st idx with
  | None => st
  | Some item =>
      let ref := weakref item in
      if bool_decide (ref ∈ _auto_expanded_root_items st) then st
      else
        let st := expand st idx in
        set_auto_expanded_root_items st ({[ref]} ∪ _auto_expanded_root_items st)
  end.

Definition _expand_root_rows (st : EntityTreeForm) : EntityTreeForm :=
  let st := setUpdatesEnabled st false in
  let st :=
    foldl expand_root_row st
      (seq 0 (rowCount (_filter_model st) invalid_index)) in
  setUpdatesEnabled st true.

(** *** Selection *)

Definition _on_selection_changed (st : EntityTreeForm)
  (selected deselected : list QModelIndex) : EntityTreeForm :=
  let '(selection_details, item) :=
    match selected with
    | [idx] => (_get_entity_details st idx, _item_from_index st idx)
    | _ => (EmptyDict, None)
    end in
  let st := _update_ui st in
  let st :=
    set_current_item_ref st
      (match item with Some item => Some (weakref item) | None => None end) in
  let st :=
    match _current_item_ref st with
    | Some _ => set_entity_to_select st None
    | None => st
    end in
  _emit_entity_selected st (Some selection_details).

Definition index_in (idx : QModelIndex) (l : list QModelIndex) : bool :=
  existsb (index_eqb idx) l.

(** The selection model takes a new selection.  When that changes the
    selection, it sends [selectionChanged] with the indexes that came and
    those that went, which is connected to [_on_selection_changed]. *)
Definition change_selection (st : EntityTreeForm) (new : list QModelIndex)
  : EntityTreeForm :=
  let old := selectedIndexes st in
  let selected := List.filter (fun i => negb (index_in i old)) new in
  let deselected := List.filter (fun i => negb (index_in i new)) old in
  let st := set_selectedIndexes st new in
  match selected, deselected with
  | [], [] => st
  | _, _ => _on_selection_changed st selected deselected
  end.

(** [selectionModel().setCurrentIndex(idx, SelectCurrent)]: the selection
    becomes [idx] alone, or nothing for an invalid index.  [SelectCurrent]
    is Select with Current, and with Current the selection model replaces
    its selection in progress by the index; the selection of this tree is
    always the selection in progress, since the clicks of a single-selection
    view arrive as ClearAndSelect and the widget itself clears with
    [reset()]. *)
Definition setCurrentIndex (st : EntityTreeForm) (idx : QModelIndex)
  : EntityTreeForm :=
  change_selection st (if isValid idx then [idx] else []).

(** [id(a) != id(b)] on two optional items *)
Definition other_object (a b : option QStandardItem) : bool :=
  match a, b with
  | Some a, Some b => negb (Nat.eqb (weakref a) (weakref b))
  | None, None => false
  | _, _ => true
  end.

(** The item that [_update_selection] looks for. *)
Definition item_to_select (st : EntityTreeForm) : option QStandardItem :=
  match _entity_to_select st with
  | Some (type, id) =>
      let src_model := src_model st in
      if String.eqb (get_entity_type src_model) type
      then item_from_entity src_model type id
      else None
  | None =>
      match _current_item_ref st with
      | Some ref => deref (src_model st) ref
      | None => None
      end
  end.

Definition _update_selection (st : EntityTreeForm)
  (prev_selected_item : option QStandardItem) : EntityTreeForm :=
  let signals_blocked := signalsBlocked st in
  let st := blockSignals st true in
  let st :=
    match item_to_select st with
    | Some item =>
        let idx := mapFromSource (_filter_model st) (index_of item) in
        if isValid idx then
          let st := scrollTo st idx in
          setCurrentIndex st idx
        else st
    | None => st
    end in
  let st := blockSignals st signals_blocked in
  let selected_item := _get_selected_item st in
  if other_object selected_item prev_selected_item then
    let selection_details :=
      match selected_item with
      | Some selected_item =>
          Some (_get_entity_details st (index_of selected_item))
      | None => None
      end in
    _emit_entity_selected st selection_details
  else st.

Definition select_entity (st : EntityTreeForm) (entity_type : string)
  (entity_id : Z) : EntityTreeForm :=
  let st := set_entity_to_select st (Some (entity_type, entity_id)) in
  let '(prev_selected_item, st) := _reset_selection st in
  let st := set_current_item_ref st None in
  let st := _update_ui st in
  _update_selection st prev_selected_item.

Definition get_selection (st : EntityTreeForm) : Details * Trail :=
  match selectedIndexes st with
  | [idx] => (_get_entity_details st idx, _build_breadcrumb_trail st)
  | _ => (EmptyDict, TrailList [])
  end.

(** *** Filtering *)

Definition _update_filter (st : EntityTreeForm) (search_text : string)
  : EntityTreeForm :=
  let filter_reg_exp := mkRegExp search_text CaseInsensitive FixedString in
  set_filter_model st (setFilterRegExp (_filter_model st) filter_reg_exp).

Definition _on_search_changed (st : EntityTreeForm) (search_text : string)
  : EntityTreeForm :=
  let '(prev_selected_item, st) := _reset_selection st in
  let st := _update_filter st search_text in
  _update_selection st prev_selected_item.

Definition _on_my_tasks_only_toggled (st : EntityTreeForm) (checked : bool)
  : EntityTreeForm :=
  let '(prev_selected_item, st) := _reset_selection st in
  let st :=
    set_filter_model st (set_only_show_my_tasks (_filter_model st) checked) in
  _update_selection st prev_selected_item.

(** *** Navigation *)

(** The search for the child that represents the entity of a breadcrumb;
    [rows] are the rows still to look at. *)
Fixpoint find_entity_child (current_item : QStandardItem) (entity : Entity)
  (rows : list nat) : Result (option QStandardItem) :=
  match rows with
  | [] => Ok None
  | row :: rest =>
      let child_item := item_child current_item row in
      match get_entity child_item with
      | None => Raise TypeError
      | Some sg_entity =>
          if String.eqb (sg_type sg_entity) (sg_type entity)
             && Z.eqb (sg_id sg_entity) (sg_id entity)
          then Ok child_item
          else find_entity_child current_item entity rest
      end
  end.

(** The search for the child that has the label of a breadcrumb. *)
Fixpoint find_label_child (current_item : QStandardItem) (label : string)
  (rows : list nat) : option QStandardItem :=
  match rows with
  | [] => None
  | row :: rest =>
      let child_item := item_child current_item row in
      if String.eqb (get_model_str child_item) label then child_item
      else find_label_child current_item label rest
  end.

(** The loop over the breadcrumbs; it ends with the item to select. *)
Fixpoint navigate_loop (fm : EntityTreeProxyModel)
  (current_item : QStandardItem) (breadcrumb_trail : list BreadcrumbObj)
  : Result QStandardItem :=
  match breadcrumb_trail with
  | [] => Ok current_item
  | crumb :: rest =>
      found_item ←
        match crumb with
        | _EntityBreadcrumb _ entity =>
            find_entity_child current_item entity
              (seq 0 (item_rowCount current_item))
        | Breadcrumb label =>
            Ok (find_label_child current_item label
                  (seq 0 (item_rowCount current_item)))
        end;
      match found_item with
      | None => Ok current_item
      | Some found_item =>
          let filtered_idx := mapFromSource fm (index_of found_item) in
          if negb (isValid filtered_idx) then Ok current_item
          else navigate_loop fm found_item rest
      end
  end.

Definition navigate_to (st : EntityTreeForm)
  (breadcrumb_trail : list BreadcrumbObj) : Outcome :=
  let src_model := src_model st in
  match navigate_loop (_filter_model st) (invisibleRootItem src_model)
          breadcrumb_trail with
  | Raise e => Raises e st
  | Ok current_item =>
      let idx_to_select :=
        mapFromSource (_filter_model st) (index_of current_item) in
      Returns (setCurrentIndex st idx_to_select)
  end.

(** *** New tasks *)

(** The filter model is created with the widget, so the slot never leaves
    through its first test. *)
Definition _on_new_task (st : EntityTreeForm) : Outcome :=
  match selectedIndexes st with
  | [selected] =>
      let selected_index := mapToSource (_filter_model st) selected in
      if negb (isValid selected_index) then
        (* [selected_index.model()] is None *)
        Raises AttributeError st
      else
        let entity_item := itemFromIndex (src_model st) selected_index in
        match get_entity entity_item with
        | None => Returns st
        | Some entity =>
            if String.eqb (sg_type entity) "Step" then Returns st
            else if String.eqb (sg_type entity) "Task" then
              let step := sg_step entity in
              match sg_entity entity with
              | None => Returns st
              | Some entity => Returns (emit st (create_new_task entity step))
              end
            else Returns (emit st (create_new_task entity None))
        end
  | _ => Returns st
  end.

(** *** Construction *)

Definition __init__ (entity_model : ShotgunEntityModel)
  (accepts_row : QRegExp -> bool -> ShotgunEntityModel -> list nat -> bool)
  : EntityTreeForm :=
  let _filter_model :=
    mkProxy entity_model (mkRegExp "" CaseSensitive RegExp) false accepts_row in
  _expand_root_rows
    (mkForm true None None ∅ ∅ _filter_model [] ∅ true false false []).

(** ** The life of the widget

    What happens to the widget after its construction: the hosting
    application calls a public method, the user acts on a control and Qt
    calls the slot connected to it, or the model changes in the
    background.  The my-tasks-only box and the new task button are taken to
    be connected whatever the entity type of the model. *)
Inductive Event : Type :=
  | CallSelectEntity (entity_type : string) (entity_id : Z)
  | CallNavigateTo (breadcrumb_trail : list BreadcrumbObj)
  | SearchEdited (search_text : string)
  | MyTasksOnlyToggled (checked : bool)
  | SelectionMade (new : list QModelIndex)
  | RowsInserted (depth : nat) (parent_idx : QModelIndex) (first last : nat)
  | RowExpanded (idx : QModelIndex)
  | RowCollapsed (idx : QModelIndex)
  | NewTaskClicked
  (* the framework fills the source model, and Qt moves the selection and
     the expanded rows of the view along; the slots that Qt calls on the
     way are events of their own *)
  | ModelChanged (rows : list Item) (selection : list QModelIndex)
      (expanded_rows : gset nat).

Definition handle (st : EntityTreeForm) (ev : Event) : EntityTreeForm :=
  match ev with
  | CallSelectEntity entity_type entity_id =>
      select_entity st entity_type entity_id
  | CallNavigateTo breadcrumb_trail =>
      state_after (navigate_to st breadcrumb_trail)
  | SearchEdited search_text => _on_search_changed st search_text
  | MyTasksOnlyToggled checked => _on_my_tasks_only_toggled st checked
  | SelectionMade new => change_selection st new
  | RowsInserted depth parent_idx first last =>
      state_after (_on_filter_model_rows_inserted depth st parent_idx first last)
  | RowExpanded idx => expand st idx
  | RowCollapsed idx => collapse st idx
  | NewTaskClicked => state_after (_on_new_task st)
  | ModelChanged rows selection expanded_rows =>
      let fm := _filter_model st in
      let fm :=
        mkProxy (mkModel rows (model_entity_type (sourceModel fm)))
          (filterRegExp fm) (only_show_my_tasks fm) (filterAcceptsRow fm) in
      set_tree_expanded
        (set_selectedIndexes (set_filter_model st fm) selection) expanded_rows
  end.

(** The states that the widget can be in. *)
Inductive reachable : EntityTreeForm -> Prop :=
  | reachable_init entity_model accepts_row :
      reachable (__init__ entity_model accepts_row)
  | reachable_handle st ev :
      reachable st -> reachable (handle st ev).

(** A change of the filter: the search text is edited or the my-tasks-only
    box is toggled. *)
Inductive FilterChange : Type :=
  | SearchText (search_text : string)
  | MyTasksOnly (checked : bool).

Definition on_filter_change (st : EntityTreeForm) (c : FilterChange)
  : EntityTreeForm :=
  match c with
  | SearchText search_text => _on_search_changed st search_text
  | MyTasksOnly checked => _on_my_tasks_only_toggled st checked
  end.

(** The proxy model once the change is made. *)
Definition filter_after (st : EntityTreeForm) (c : FilterChange)
  : EntityTreeProxyModel :=
  match c with
  | SearchText search_text =>
      setFilterRegExp (_filter_model st)
        (mkRegExp search_text CaseInsensitive FixedString)
  | MyTasksOnly checked => set_only_show_my_tasks (_filter_model st) checked
  end.

(** ** Notions used in the statements *)

(** An item that sits at [rows] in the source model. *)
Definition sits_at (m : ShotgunEntityModel) (rows : list nat) (it : Item) : Prop :=
  source_item m rows = Some (mkHandle rows it).

(** The height of an item: one more than the height of its highest
    child. *)
Fixpoint height (it : Item) : nat :=
  match it with
  | mkItem _ _ _ cs =>
      S ((fix highest (cs : list Item) : nat :=
            match cs with
            | [] => 0
            | c :: rest => Nat.max (height c) (highest rest)
            end) cs)
  end.

(** The number of levels of the source model, the invisible root
    included. *)
Definition model_depth (m : ShotgunEntityModel) : nat :=
  height (handle_item (invisibleRootItem m)).

(** The part of the state that the expansion bookkeeping never writes. *)
Definition selection_part (st : EntityTreeForm) :=
  (_entity_to_select st, _current_item_ref st, selectedIndexes st,
   _filter_model st, signalsBlocked st, emitted st, new_task_btn_enabled st,
   _collapse_steps_with_tasks st).

(** The part of the state that the selection logic never writes. *)
Definition expansion_part (st : EntityTreeForm) :=
  (_expanded_items st, _auto_expanded_root_items st, tree_expanded st,
   _filter_model st, signalsBlocked st, _collapse_steps_with_tasks st).

(** The pending target and the last current node are not both set. *)
Definition exclusive (st : EntityTreeForm) : Prop :=
  _entity_to_select st = None \/ _current_item_ref st = None.

(** The breadcrumb that stands for an item. *)
Definition breadcrumb_of (it : Item) : BreadcrumbObj :=
  match item_entity it with
  | Some entity =>
      _EntityBreadcrumb
        ("<b>" ++ sg_type entity ++ "</b> "
         ++ py_str (if String.eqb (sg_type entity) "Task"
                    then sg_content entity else sg_name entity))
        entity
  | None => Breadcrumb (item_text it)
  end.

(** The items on the way from a top-level row down to the item at
    [rows]. *)
Fixpoint path_items (m : ShotgunEntityModel) (rows : list nat) : list Item :=
  match rows with
  | [] => []
  | _ :: up =>
      path_items m up ++
      match source_item m rows with
      | Some h => [handle_item h]
      | None => []
      end
  end.

(** A trail in which a Step is never followed by a Task of its own: the
    pair has become one breadcrumb. *)
Fixpoint step_task_collapsed (trail : list BreadcrumbObj) : bool :=
  match trail with
  | _EntityBreadcrumb _ e1 :: ((_EntityBreadcrumb _ e2 :: _) as rest) =>
      negb (String.eqb (sg_type e1) "Step" && String.eqb (sg_type e2) "Task")
      && step_task_collapsed rest
  | _ :: rest => step_task_collapsed rest
  | [] => true
  end.

(** On the way down to [rows], every node is the first child of its parent
    that its breadcrumb can stand for: the children before a node with an
    entity have entities of another identity, the children before a node
    without entity have another label. *)
Fixpoint first_match (m : ShotgunEntityModel) (rows : list nat) : Prop :=
  match rows with
  | [] => True
  | row :: up =>
      first_match m up /\
      match source_item m up, source_item m rows with
      | Some above, Some h =>
          forall j c, j < row -> item_rows (handle_item above) !! j = Some c ->
            match item_entity (handle_item h) with
            | Some e =>
                exists e', item_entity c = Some e'
                           /\ entity_identity e' <> entity_identity e
            | None => item_text c <> item_text (handle_item h)
            end
      | _, _ => True
      end
  end.

(** From [st] to [st'] the filter is the same and nothing has left the
    sets of expanded items. *)
Definition grows (st st' : EntityTreeForm) : Prop :=
  _filter_model st' = _filter_model st
  /\ _expanded_items st ⊆ _expanded_items st'
  /\ tree_expanded st ⊆ tree_expanded st'
  /\ _auto_expanded_root_items st ⊆ _auto_expanded_root_items st'.

(** A root item that has had its automatic expansion and is collapsed
    now, in the view and in the set of expanded items. *)
Definition expanded_once_and_collapsed (r : nat) (st : EntityTreeForm) : Prop :=
  (r ∈ _auto_expanded_root_items st)
  /\ (r ∉ _expanded_items st)
  /\ (r ∉ tree_expanded st).

(** ** A small production

    Two shots with an animation step and a task each, in a model of tasks
    grouped by entity and step.  The proxy of the example shows everything
    until my-tasks-only is on; then it shows the branch of the second shot
    alone, where the tasks of the user are. *)
Definition shot_a : Entity := mkEntity "Shot" 1 (Some "A") None None None.
Definition shot_b : Entity := mkEntity "Shot" 2 (Some "B") None None None.
Definition step_anim : Entity := mkEntity "Step" 5 (Some "Anim") None None None.
Definition task_a : Entity :=
  mkEntity "Task" 10 None (Some "animate") (Some shot_a) (Some step_anim).
Definition task_b : Entity :=
  mkEntity "Task" 11 None (Some "animate") (Some shot_b) (Some step_anim).

Definition task_a_item : Item := mkItem 3 "animate" (Some task_a) [].
Definition task_b_item : Item := mkItem 6 "animate" (Some task_b) [].
Definition step_a_item : Item := mkItem 2 "Anim" (Some step_anim) [task_a_item].
Definition step_b_item : Item := mkItem 5 "Anim" (Some step_anim) [task_b_item].
Definition shot_a_item : Item := mkItem 1 "Shot A" (Some shot_a) [step_a_item].
Definition shot_b_item : Item := mkItem 4 "Shot B" (Some shot_b) [step_b_item].

Definition example_model : ShotgunEntityModel :=
  mkModel [shot_a_item; shot_b_item] "Task".

Definition example_accepts (re : QRegExp) (mine : bool)
  (m : ShotgunEntityModel) (rows : list nat) : bool :=
  negb mine || negb (bool_decide (last rows = Some 0)).

Definition example_form : EntityTreeForm := __init__ example_model example_accepts.

(** The user clicks on the step of the first shot, or on its task. *)
Definition step_a_selected : EntityTreeForm :=
  handle example_form (SelectionMade [mkIndex OfFilter [0; 0]]).
Definition task_a_selected : EntityTreeForm :=
  handle example_form (SelectionMade [mkIndex OfFilter [0; 0; 0]]).

(** The task of the first shot is asked for while my-tasks-only hides
    it. *)
Definition task_a_pending : EntityTreeForm :=
  handle (handle example_form (MyTasksOnlyToggled true))
    (CallSelectEntity "Task" 10).

(** The view has lost its expanded rows, as it does when the rows leave the
    proxy. *)
Definition example_form_folded : EntityTreeForm :=
  handle example_form (ModelChanged (model_rows example_model) [] ∅).

(** The user collapses the first shot. *)
Definition shot_a_collapsed : EntityTreeForm :=
  handle example_form (RowCollapsed (mkIndex OfFilter [0])).

(** A model with two top-level rows of the same label. *)
Definition twins_model : ShotgunEntityModel :=
  mkModel [mkItem 1 "A" None []; mkItem 2 "A" None []] "Task".
Definition show_all (re : QRegExp) (mine : bool) (m : ShotgunEntityModel)
  (rows : list nat) : bool := true.
Definition second_twin_selected : EntityTreeForm :=
  handle (__init__ twins_model show_all) (SelectionMade [mkIndex OfFilter [1]]).

(** A model of tasks grouped by entity in which some task has no entity:
    the first top-level row is a node without entity. *)
Definition unlinked_model : ShotgunEntityModel :=
  mkModel [mkItem 1 "Unlinked" None [mkItem 2 "review" (Some
             (mkEntity "Task" 12 None (Some "review") None None)) []];
           shot_b_item] "Task".
Definition unlinked_form : EntityTreeForm := __init__ unlinked_model show_all.

(** ** Further notions *)

(** Every row that is expanded in the view has its reference in
    [_expanded_items]. *)
Definition view_tracked (st : EntityTreeForm) : Prop :=
  tree_expanded st ⊆ _expanded_items st.

(** The references that have come into [_auto_expanded_root_items] since
    [st0] are expanded in the view and in [_expanded_items]. *)
Definition new_roots_expanded (st0 st : EntityTreeForm) : Prop :=
  forall x, x ∈ _auto_expanded_root_items st ->
            x ∉ _auto_expanded_root_items st0 ->
            x ∈ tree_expanded st /\ x ∈ _expanded_items st.

(** A breadcrumb without entity. *)
Definition is_plain (crumb : BreadcrumbObj) : bool :=
  match crumb with
  | Breadcrumb _ => true
  | _EntityBreadcrumb _ _ => false
  end.

(** The items that the proxy shows below an item, in the shown order. *)
Definition shown_children (fm : EntityTreeProxyModel) (h : QStandardItem)
  : list QStandardItem :=
  map (fun p => mkHandle (fst p :: handle_rows h) (snd p)) (shown_rows fm h).

(** The entry of the details that pictures one item as it is. *)
Definition plain_child (h : QStandardItem) : ChildDetails :=
  mkChild (item_text (handle_item h)) (get_entity (Some h)).

Definition entity_is (ty : string) (e : option Entity) : bool :=
  match e with
  | Some e => String.eqb (sg_type e) ty
  | None => false
  end.

(** The collapsed entry that a child gives below [label]: one entry for a
    Task, none for anything else. *)
Definition task_entry (label : string) (c : ChildDetails)
  : list ChildDetails :=
  match child_entity c with
  | Some e =>
      if String.eqb (sg_type e) "Task" then
        [mkChild (label ++ " - " ++ child_label c) (Some e)]
      else []
  | None => []
  end.

(** The collapsed entries of the Tasks shown below an item. *)
Definition tasks_below (fm : EntityTreeProxyModel) (h : QStandardItem)
  : list ChildDetails :=
  flat_map (task_entry (item_text (handle_item h)))
    (map plain_child (shown_children fm h)).

(** The collapsed entries of the Tasks shown below the Steps among the
    items. *)
Definition tasks_below_steps (fm : EntityTreeProxyModel)
  (kids : list QStandardItem) : list ChildDetails :=
  flat_map (fun c => if entity_is "Step" (get_entity (Some c))
                     then tasks_below fm c else []) kids.

(** *** The walk along a trail, in the words of the spec

    The spec describes [navigate_to] as a walk from the root that matches
    entity breadcrumbs by the type and id of the entity and the other
    breadcrumbs by label, stops at the first breadcrumb with no matching
    child or whose matching child is filtered out, and selects the deepest
    item reached.  The definitions below say that, with lists for the
    children; they are compared with the loops of the code. *)

(** A child matches a breadcrumb. *)
Definition crumb_matches (crumb : BreadcrumbObj) (c : Item) : bool :=
  match crumb with
  | _EntityBreadcrumb _ entity =>
      match item_entity c with
      | Some e =>
          String.eqb (sg_type e) (sg_type entity)
          && Z.eqb (sg_id e) (sg_id entity)
      | None => false
      end
  | Breadcrumb label => String.eqb (item_text c) label
  end.

(** The first of the children [cs] that satisfies [p], with its row;
    [row] is the row of the first of [cs]. *)
Fixpoint first_among (p : Item -> bool) (row : nat) (cs : list Item)
  : option (nat * Item) :=
  match cs with
  | [] => None
  | c :: rest => if p c then Some (row, c) else first_among p (S row) rest
  end.

Definition first_matching_child (cur : QStandardItem) (crumb : BreadcrumbObj)
  : option QStandardItem :=
  match first_among (crumb_matches crumb) 0 (item_rows (handle_item cur)) with
  | Some (row, c) => Some (mkHandle (row :: handle_rows cur) c)
  | None => None
  end.

(** The deepest item that the walk reaches from [cur]. *)
Fixpoint deepest_reached (fm : EntityTreeProxyModel) (cur : QStandardItem)
  (trail : list BreadcrumbObj) : QStandardItem :=
  match trail with
  | [] => cur
  | crumb :: rest =>
      match first_matching_child cur crumb with
      | None => cur
      | Some found =>
          if isValid (mapFromSource fm (index_of found))
          then deepest_reached fm found rest
          else cur
      end
  end.

(** Every item below [it] has an entity. *)
Fixpoint entities_below (it : Item) : bool :=
  match it with
  | mkItem _ _ _ cs =>
      (fix all (cs : list Item) : bool :=
         match cs with
         | [] => true
         | c :: rest =>
             match item_entity c with Some _ => true | None => false end
             && entities_below c && all rest
         end) cs
  end.

(** * Properties *)

(** ** The two models and their positions *)

Section ItemInduction.
Variable P : Item -> Prop.
Hypothesis step : forall r t e cs, Forall P cs -> P (mkItem r t e cs).

Fixpoint Item_nested_ind (it : Item) : P it :=
  match it with
  | mkItem r t e cs =>
      step r t e cs
        ((fix all (cs : list Item) : Forall P cs :=
            match cs with
            | [] => @List.Forall_nil _ P
            | c :: rest => @List.Forall_cons _ P c rest (Item_nested_ind c) (all rest)
            end) cs)
  end.
End ItemInduction.

Lemma source_item_rows m rows h :
  source_item m rows = Some h -> handle_rows h = rows.
Proof.
  revert h. induction rows as [|row up IH]; intros h; simpl.
  - intros [= <-]. reflexivity.
  - destruct (source_item m up) as [h0|]; [|discriminate].
    unfold item_child. destruct (item_rows (handle_item h0) !! row); [|discriminate].
    intros [= <-]. simpl. f_equal. apply IH. reflexivity.
Qed.

Lemma shown_from_of_source acc cs : forall k s c,
  cs !! s = Some c -> acc (k + s) = true ->
  shown_from acc k cs !! length (shown_from acc k (take s cs)) = Some (k + s, c).
Proof.
  induction cs as [|c0 rest IH]; intros k s c Hs Hacc.
  - destruct s; discriminate.
  - destruct s as [|s]; simpl in *.
    + injection Hs as ->. rewrite Nat.add_0_r in Hacc. rewrite Hacc. simpl.
      rewrite Nat.add_0_r. reflexivity.
    + replace (k + S s) with (S k + s) in * by lia.
      destruct (acc k); simpl; apply IH; assumption.
Qed.

Lemma shown_from_to_source acc cs : forall k r s' c,
  shown_from acc k cs !! r = Some (s', c) ->
  exists s, s' = k + s /\ cs !! s = Some c /\ acc s' = true
            /\ length (shown_from acc k (take s cs)) = r.
Proof.
  induction cs as [|c0 rest IH]; intros k r s' c Hr; simpl in Hr.
  - destruct r; discriminate.
  - destruct (acc k) eqn:Hk.
    + destruct r as [|r]; simpl in Hr.
      * injection Hr as <- <-. exists 0. rewrite Nat.add_0_r. auto.
      * destruct (IH _ _ _ _ Hr) as (s & -> & Hs & Ha & Hl).
        exists (S s). repeat split; [lia | exact Hs | | ].
        -- replace (k + S s) with (S k + s) by lia. exact Ha.
        -- simpl. rewrite Hk. simpl. f_equal. exact Hl.
    + destruct (IH _ _ _ _ Hr) as (s & -> & Hs & Ha & Hl).
      exists (S s). repeat split; [lia | exact Hs | | ].
      * replace (k + S s) with (S k + s) by lia. exact Ha.
      * simpl. rewrite Hk. exact Hl.
Qed.

(** A source position that the proxy shows is shown at the position that
    [filter_position] computes. *)
Lemma filter_item_of_position fm : forall rows p h,
  filter_position fm rows = Some p ->
  source_item (sourceModel fm) rows = Some h ->
  filter_item fm p = Some h.
Proof.
  induction rows as [|s up IH]; intros p h; simpl.
  - intros [= <-] [= <-]. reflexivity.
  - destruct (filter_position fm up) as [pup|]; [|discriminate].
    destruct (source_item (sourceModel fm) up) as [h0|]; [|discriminate].
    specialize (IH pup h0 eq_refl eq_refl).
    unfold item_child.
    destruct (item_rows (handle_item h0) !! s) as [c|] eqn:Hc; [|discriminate].
    destruct (accepts fm (s :: handle_rows h0)) eqn:Hacc; [|discriminate].
    intros [= <-] [= <-]. simpl. rewrite IH.
    unfold shown_rows, row_in_filter.
    rewrite (shown_from_of_source _ _ 0 s c Hc Hacc). reflexivity.
Qed.

(** What the proxy shows at a position sits in the source model, at the
    source position that maps back to the position in the proxy. *)
Lemma filter_item_in_source fm : forall p h,
  filter_item fm p = Some h ->
  source_item (sourceModel fm) (handle_rows h) = Some h
  /\ filter_position fm (handle_rows h) = Some p.
Proof.
  induction p as [|r pup IH]; intros h; simpl.
  - intros [= <-]. simpl. auto.
  - destruct (filter_item fm pup) as [h0|]; [|discriminate].
    destruct (IH h0 eq_refl) as [Hsrc Hpos].
    destruct (shown_rows fm h0 !! r) as [[s c]|] eqn:Hr; [|discriminate].
    intros [= <-]. simpl.
    apply shown_from_to_source in Hr as (s0 & Hs & Hc & Hacc & Hlen).
    simpl in Hs. subst s0.
    rewrite Hsrc, Hpos. unfold item_child. rewrite Hc.
    rewrite Hacc. unfold row_in_filter. rewrite Hlen. auto.
Qed.

Lemma find_item_unfold p rows it :
  find_item p rows it =
  if p it then Some (mkHandle rows it) else find_among p rows (item_rows it) 0.
Proof.
  destruct it as [r t e cs]. simpl. destruct (p _); [reflexivity|].
  generalize 0. induction cs as [|c rest IH]; intros k; simpl; [reflexivity|].
  destruct (find_item p (k :: rows) c); [reflexivity|]. apply IH.
Qed.

Lemma sits_at_child m rows it i c :
  sits_at m rows it -> item_rows it !! i = Some c -> sits_at m (i :: rows) c.
Proof.
  unfold sits_at. intros H Hc. simpl. rewrite H. unfold item_child. simpl.
  rewrite Hc. reflexivity.
Qed.

Lemma find_item_found m p : forall it rows h,
  sits_at m rows it -> find_item p rows it = Some h ->
  source_item m (handle_rows h) = Some h /\ p (handle_item h) = true.
Proof.
  induction it as [r t e cs IH] using Item_nested_ind.
  intros rows h Hat. rewrite find_item_unfold.
  destruct (p _) eqn:Hp.
  - intros [= <-]. simpl. auto.
  - simpl. assert (Hcs : forall i c, cs !! i = Some c -> sits_at m ((0 + i) :: rows) c).
    { intros i c Hc. eapply sits_at_child; eauto. }
    clear Hat Hp. revert Hcs. generalize 0.
    induction IH as [|c rest Hc Hrest IHrest]; intros k Hcs; simpl; [discriminate|].
    destruct (find_item p (k :: rows) c) as [h'|] eqn:Hf.
    + intros [= <-]. apply (Hc (k :: rows)); [|exact Hf].
      specialize (Hcs 0 c eq_refl). rewrite Nat.add_0_r in Hcs. exact Hcs.
    + apply IHrest. intros i c' Hc'. specialize (Hcs (S i) c' Hc').
      replace (S k + i) with (k + S i) by lia. exact Hcs.
Qed.

Lemma find_among_found m p h :
  find_among p [] (model_rows m) 0 = Some h ->
  source_item m (handle_rows h) = Some h /\ p (handle_item h) = true.
Proof.
  intros H.
  assert (Hcs : forall i c, model_rows m !! i = Some c -> sits_at m [0 + i] c).
  { intros i c Hc. unfold sits_at. simpl. unfold item_child. simpl.
    rewrite Hc. reflexivity. }
  revert H Hcs. generalize 0. generalize (model_rows m).
  induction l as [|c rest IH]; intros k; simpl; [discriminate|].
  destruct (find_item p [k] c) as [h'|] eqn:Hf.
  - intros [= <-] Hcs. eapply find_item_found; [|exact Hf].
    specialize (Hcs 0 c eq_refl). rewrite Nat.add_0_r in Hcs. exact Hcs.
  - intros H Hcs. apply (IH (S k)); [exact H|].
    intros i c' Hc'. specialize (Hcs (S i) c' Hc').
    replace (S k + i) with (k + S i) by lia. exact Hcs.
Qed.

(** ** What the slots leave alone *)

Lemma item_from_index_same st st' idx :
  _filter_model st' = _filter_model st ->
  _item_from_index st' idx = _item_from_index st idx.
Proof. unfold _item_from_index, src_model. intros ->. reflexivity. Qed.

(** A valid index of the proxy stands for the item that the proxy shows
    there. *)
Lemma item_from_index_filter_item st idx :
  idx_model idx = OfFilter -> isValid idx = true ->
  _item_from_index st idx = filter_item (_filter_model st) (idx_rows idx).
Proof.
  unfold _item_from_index, mapToSource, isValid, src_model.
  destruct idx as [tag rows]. simpl. intros -> Hv.
  destruct rows as [|r up]; [discriminate|].
  destruct (filter_item (_filter_model st) (r :: up)) as [h|] eqn:Hh;
    [|reflexivity].
  destruct (filter_item_in_source _ _ _ Hh) as [Hsrc _].
  unfold itemFromIndex, index_of. simpl.
  destruct (handle_rows h) as [|s sup] eqn:Hrows.
  - simpl in Hh. destruct (filter_item (_filter_model st) up); [|discriminate].
    destruct (shown_rows _ _ !! r) as [[? ?]|]; [|discriminate].
    injection Hh as <-. discriminate.
  - exact Hsrc.
Qed.

Lemma item_from_index_invalid st idx :
  isValid idx = false -> _item_from_index st idx = None.
Proof.
  unfold _item_from_index, mapToSource, isValid.
  destruct idx as [tag rows]. simpl. destruct rows; [|discriminate].
  intros _. destruct tag; reflexivity.
Qed.

Lemma item_from_index_of_source st idx :
  idx_model idx = OfSource -> _item_from_index st idx = None.
Proof.
  unfold _item_from_index, mapToSource. intros ->. reflexivity.
Qed.

(** An item of the source model that the proxy shows is the item at the
    index that [mapFromSource] gives. *)
Lemma item_from_index_mapFromSource st h :
  source_item (src_model st) (handle_rows h) = Some h ->
  isValid (mapFromSource (_filter_model st) (index_of h)) = true ->
  idx_model (mapFromSource (_filter_model st) (index_of h)) = OfFilter
  /\ _item_from_index st (mapFromSource (_filter_model st) (index_of h)) = Some h.
Proof.
  intros Hsrc Hv. unfold mapFromSource, index_of in *. simpl in *.
  destruct (handle_rows h) as [|s up] eqn:Hrows; [discriminate|].
  destruct (filter_position (_filter_model st) (s :: up)) as [p|] eqn:Hp;
    [|discriminate].
  split; [reflexivity|].
  rewrite item_from_index_filter_item; [|reflexivity|exact Hv]. simpl.
  eapply filter_item_of_position; eauto.
Qed.

Lemma selection_part_filter_model st st' :
  selection_part st' = selection_part st -> _filter_model st' = _filter_model st.
Proof. unfold selection_part. congruence. Qed.

Lemma selection_part_fields st st' :
  selection_part st' = selection_part st ->
  _entity_to_select st' = _entity_to_select st
  /\ _current_item_ref st' = _current_item_ref st
  /\ selectedIndexes st' = selectedIndexes st
  /\ _filter_model st' = _filter_model st
  /\ signalsBlocked st' = signalsBlocked st
  /\ emitted st' = emitted st.
Proof. unfold selection_part. intros H. repeat split; congruence. Qed.

Lemma on_item_expanded_selection_part st idx :
  selection_part (_on_item_expanded st idx) = selection_part st.
Proof. unfold _on_item_expanded. destruct (_item_from_index st idx); reflexivity. Qed.

Lemma on_item_collapsed_selection_part st idx :
  selection_part (_on_item_collapsed st idx) = selection_part st.
Proof. unfold _on_item_collapsed. destruct (_item_from_index st idx); reflexivity. Qed.

Lemma expand_selection_part st idx :
  selection_part (expand st idx) = selection_part st.
Proof.
  unfold expand. destruct (_item_from_index st idx); [|reflexivity].
  case_bool_decide; [reflexivity|].
  rewrite on_item_expanded_selection_part. reflexivity.
Qed.

Lemma collapse_selection_part st idx :
  selection_part (collapse st idx) = selection_part st.
Proof.
  unfold collapse. destruct (_item_from_index st idx); [|reflexivity].
  case_bool_decide; [|reflexivity].
  rewrite on_item_collapsed_selection_part. reflexivity.
Qed.

Lemma expand_up_selection_part tag rows : forall st,
  selection_part (expand_up st tag rows) = selection_part st.
Proof.
  induction rows as [|r up IH]; intros st; simpl; [reflexivity|].
  rewrite IH. apply expand_selection_part.
Qed.

Lemma scrollTo_selection_part st idx :
  selection_part (scrollTo st idx) = selection_part st.
Proof. apply expand_up_selection_part. Qed.

Lemma fix_item_state_selection_part st idx :
  selection_part (fix_item_state st idx) = selection_part st.
Proof.
  unfold fix_item_state. destruct (_item_from_index st idx); [|reflexivity].
  destruct (negb (isValid (parent idx)));
    repeat case_bool_decide; simpl;
    rewrite ?expand_selection_part; reflexivity.
Qed.

Lemma fold_outcome_selection_part (f : EntityTreeForm -> nat -> Outcome) rows :
  (forall st r, selection_part (state_after (f st r)) = selection_part st) ->
  forall o,
    selection_part
      (state_after (foldl (fun o row => and_then o (fun st => f st row)) o rows))
    = selection_part (state_after o).
Proof.
  intros Hf. induction rows as [|r rest IH]; intros o; simpl; [reflexivity|].
  rewrite IH. destruct o as [s|e s]; simpl; [apply Hf|reflexivity].
Qed.

Lemma fix_expanded_state_selection_part depth : forall st idx,
  selection_part (state_after (_fix_expanded_state_r depth st idx))
  = selection_part st.
Proof.
  induction depth as [|depth IH]; intros st idx; simpl; [reflexivity|].
  unfold fix_children_state.
  etrans;
    [apply (fold_outcome_selection_part
              (fun st0 row =>
                 _fix_expanded_state_r depth st0
                   (child (_filter_model st0) idx row)))|].
  - intros st0 r. apply IH.
  - simpl. apply fix_item_state_selection_part.
Qed.

Lemma state_after_finally o k : state_after (finally o k) = k (state_after o).
Proof. destruct o; reflexivity. Qed.

Lemma fix_parent_state_selection_part st parent_idx :
  selection_part (fix_parent_state st parent_idx) = selection_part st.
Proof.
  unfold fix_parent_state. destruct (isValid parent_idx); [|reflexivity].
  destruct (_item_from_index st parent_idx); [|reflexivity].
  case_bool_decide; [apply expand_selection_part|reflexivity].
Qed.

Lemma rows_inserted_selection_part depth st parent_idx first last :
  selection_part
    (state_after (_on_filter_model_rows_inserted depth st parent_idx first last))
  = selection_part st.
Proof.
  unfold _on_filter_model_rows_inserted. rewrite state_after_finally.
  etrans; [|apply (fix_parent_state_selection_part
                     (setUpdatesEnabled st false) parent_idx)].
  etrans; [|apply (fold_outcome_selection_part
              (fun st0 row =>
                 _fix_expanded_state_r depth st0
                   (index (_filter_model st0) row parent_idx))
              (seq first (S last - first))
              (fun st0 r => fix_expanded_state_selection_part _ _ _)
              (Returns (fix_parent_state (setUpdatesEnabled st false) parent_idx)))].
  reflexivity.
Qed.

Lemma expand_root_row_selection_part st row :
  selection_part (expand_root_row st row) = selection_part st.
Proof.
  unfold expand_root_row. destruct (_item_from_index st _); [|reflexivity].
  case_bool_decide; [reflexivity|].
  etrans; [|apply (expand_selection_part st)]. reflexivity.
Qed.

Lemma foldl_expand_root_row_selection_part l : forall st,
  selection_part (foldl expand_root_row st l) = selection_part st.
Proof.
  induction l as [|r rest IH]; intros st; simpl; [reflexivity|].
  rewrite IH. apply expand_root_row_selection_part.
Qed.

Lemma expand_root_rows_selection_part st :
  selection_part (_expand_root_rows st) = selection_part st.
Proof.
  unfold _expand_root_rows.
  etrans; [|apply (foldl_expand_root_row_selection_part
                     (seq 0 (rowCount (_filter_model st) invalid_index))
                     (setUpdatesEnabled st false))].
  reflexivity.
Qed.

(** ** The selection *)

Lemma emit_entity_selected_fields st details :
  let st' := _emit_entity_selected st details in
  expansion_part st' = expansion_part st
  /\ _entity_to_select st' = _entity_to_select st
  /\ _current_item_ref st' = _current_item_ref st
  /\ selectedIndexes st' = selectedIndexes st.
Proof.
  unfold _emit_entity_selected, emit. cbv zeta.
  destruct (signalsBlocked st) eqn:Hb; unfold expansion_part; simpl;
    rewrite ?Hb; auto.
Qed.

Lemma on_selection_changed_fields st selected deselected :
  let item :=
    match selected with [idx] => _item_from_index st idx | _ => None end in
  let st' := _on_selection_changed st selected deselected in
  _current_item_ref st' = option_map weakref item
  /\ _entity_to_select st'
     = match item with Some _ => None | None => _entity_to_select st end
  /\ selectedIndexes st' = selectedIndexes st
  /\ expansion_part st' = expansion_part st.
Proof.
  unfold _on_selection_changed.
  set (item := match selected with [idx] => _item_from_index st idx | _ => None end).
  assert (Hpair : exists d,
    match selected with
    | [idx] => (_get_entity_details st idx, _item_from_index st idx)
    | _ => (EmptyDict, None)
    end = (d, item)).
  { subst item. destruct selected as [|idx [|]]; eauto. }
  destruct Hpair as [d ->]. cbv zeta.
  match goal with
  | |- context [_emit_entity_selected ?s ?x] =>
      destruct (emit_entity_selected_fields s x) as (He & Ht & Hr & Hs)
  end.
  rewrite Hr, Ht, Hs, He. clear He Ht Hr Hs.
  destruct item; simpl; auto.
Qed.

Lemma on_selection_changed_exclusive st selected deselected :
  exclusive (_on_selection_changed st selected deselected).
Proof.
  destruct (on_selection_changed_fields st selected deselected)
    as (Hr & Ht & _).
  unfold exclusive. rewrite Hr, Ht.
  destruct (match selected with [idx] => _item_from_index st idx | _ => None end);
    simpl; auto.
Qed.

Lemma setCurrentIndex_exclusive st idx :
  exclusive st -> exclusive (setCurrentIndex st idx).
Proof.
  intros Hex. unfold setCurrentIndex, change_selection.
  destruct (List.filter _ (if isValid idx then [idx] else []));
    [destruct (List.filter _ (selectedIndexes st))|];
    try apply on_selection_changed_exclusive.
  exact Hex.
Qed.

Lemma setCurrentIndex_expansion_part st idx :
  expansion_part (setCurrentIndex st idx) = expansion_part st.
Proof.
  unfold setCurrentIndex, change_selection.
  destruct (List.filter _ (if isValid idx then [idx] else []));
    [destruct (List.filter _ (selectedIndexes st))|];
    try reflexivity;
    match goal with
    | |- context [_on_selection_changed ?s ?a ?b] =>
        destruct (on_selection_changed_fields s a b) as (_ & _ & _ & ->)
    end; reflexivity.
Qed.

(** Selecting a shown row while nothing is selected. *)
Lemma setCurrentIndex_from_empty st idx h :
  selectedIndexes st = [] -> isValid idx = true ->
  _item_from_index st idx = Some h ->
  let st' := setCurrentIndex st idx in
  selectedIndexes st' = [idx]
  /\ _current_item_ref st' = Some (weakref h)
  /\ _entity_to_select st' = None
  /\ expansion_part st' = expansion_part st.
Proof.
  intros Hsel Hv Hitem. unfold setCurrentIndex, change_selection.
  rewrite Hsel, Hv. simpl.
  match goal with
  | |- context [_on_selection_changed ?s ?a ?b] =>
      destruct (on_selection_changed_fields s a b) as (Hr & Ht & Hs & He)
  end.
  simpl in Hr, Ht.
  rewrite (item_from_index_same st) in Hr, Ht by reflexivity.
  rewrite Hitem in Hr, Ht. simpl in *. auto.
Qed.

Lemma item_to_select_in_source st h :
  item_to_select st = Some h ->
  source_item (src_model st) (handle_rows h) = Some h.
Proof.
  unfold item_to_select, item_from_entity, deref.
  destruct (_entity_to_select st) as [[ty id]|].
  - destruct (String.eqb _ ty); [|discriminate].
    destruct (String.eqb ty _); [|discriminate].
    intros H. apply (find_among_found _ _ _ H).
  - destruct (_current_item_ref st); [|discriminate].
    intros H. apply (find_among_found _ _ _ H).
Qed.

Lemma item_to_select_same st st' :
  _entity_to_select st' = _entity_to_select st ->
  _current_item_ref st' = _current_item_ref st ->
  _filter_model st' = _filter_model st ->
  item_to_select st' = item_to_select st.
Proof.
  unfold item_to_select, src_model. intros -> -> ->. reflexivity.
Qed.

Lemma get_selected_item_same st st' :
  selectedIndexes st' = selectedIndexes st ->
  _filter_model st' = _filter_model st ->
  _get_selected_item st' = _get_selected_item st.
Proof.
  unfold _get_selected_item. intros -> Hfm.
  destruct (selectedIndexes st) as [|i [|]]; try reflexivity.
  apply item_from_index_same. exact Hfm.
Qed.

(** The end of [_update_selection]: the signal that may go out changes
    nothing else. *)
Lemma update_selection_tail st prev :
  let st' :=
    if other_object (_get_selected_item st) prev then
      _emit_entity_selected st
        match _get_selected_item st with
        | Some selected_item =>
            Some (_get_entity_details st (index_of selected_item))
        | None => None
        end
    else st in
  expansion_part st' = expansion_part st
  /\ _entity_to_select st' = _entity_to_select st
  /\ _current_item_ref st' = _current_item_ref st
  /\ selectedIndexes st' = selectedIndexes st.
Proof.
  cbv zeta. destruct (other_object _ prev); [|auto].
  apply emit_entity_selected_fields.
Qed.

Lemma expansion_part_filter_model st st' :
  expansion_part st' = expansion_part st -> _filter_model st' = _filter_model st.
Proof. unfold expansion_part. congruence. Qed.

(** The reconciliation step selects the item it looks for when the proxy
    shows it, and then the item is the current node and no target is
    pending. *)
Lemma update_selection_selects st prev h :
  selectedIndexes st = [] ->
  item_to_select st = Some h ->
  isValid (mapFromSource (_filter_model st) (index_of h)) = true ->
  let st' := _update_selection st prev in
  selectedIndexes st' = [mapFromSource (_filter_model st) (index_of h)]
  /\ _get_selected_item st' = Some h
  /\ _current_item_ref st' = Some (weakref h)
  /\ _entity_to_select st' = None
  /\ _filter_model st' = _filter_model st.
Proof.
  intros Hsel Hitem Hv.
  pose proof (item_to_select_in_source _ _ Hitem) as Hsrc.
  destruct (item_from_index_mapFromSource st h Hsrc Hv) as [Htag Hfrom].
  unfold _update_selection.
  rewrite (item_to_select_same st (blockSignals st true)) by reflexivity.
  rewrite Hitem. cbn [_filter_model blockSignals]. rewrite Hv.
  set (idx := mapFromSource (_filter_model st) (index_of h)) in *.
  set (st1 := blockSignals st true).
  pose proof (scrollTo_selection_part st1 idx) as Hscroll.
  set (st2 := scrollTo st1 idx) in *.
  assert (Hfm2 : _filter_model st2 = _filter_model st).
  { apply (selection_part_filter_model st1 st2 Hscroll). }
  assert (Hsel2 : selectedIndexes st2 = []).
  { transitivity (selectedIndexes st1); [|exact Hsel].
    unfold selection_part in Hscroll. congruence. }
  assert (Hitem2 : _item_from_index st2 idx = Some h).
  { rewrite (item_from_index_same st st2) by exact Hfm2. exact Hfrom. }
  destruct (setCurrentIndex_from_empty st2 idx h Hsel2 Hv Hitem2)
    as (Hs3 & Hr3 & Ht3 & He3).
  set (st3 := setCurrentIndex st2 idx) in *.
  set (st4 := blockSignals st3 (signalsBlocked st)).
  destruct (update_selection_tail st4 prev) as (He & Ht & Hr & Hs).
  cbv zeta in He, Ht, Hr, Hs. cbv zeta.
  assert (Hfm : _filter_model st4 = _filter_model st).
  { cbn [st4 _filter_model blockSignals].
    rewrite (expansion_part_filter_model _ _ He3). exact Hfm2. }
  repeat split.
  - rewrite Hs. exact Hs3.
  - erewrite get_selected_item_same;
      [|exact Hs|exact (expansion_part_filter_model _ _ He)].
    unfold _get_selected_item. cbn [st4 selectedIndexes blockSignals].
    rewrite Hs3. rewrite (item_from_index_same st) by exact Hfm. exact Hfrom.
  - rewrite Hr. exact Hr3.
  - rewrite Ht. exact Ht3.
  - rewrite (expansion_part_filter_model _ _ He). exact Hfm.
Qed.

(** When the item is missing or hidden, the reconciliation step selects
    nothing and keeps what it was looking for. *)
Lemma update_selection_leaves st prev :
  selectedIndexes st = [] ->
  match item_to_select st with
  | Some h => isValid (mapFromSource (_filter_model st) (index_of h)) = false
  | None => True
  end ->
  let st' := _update_selection st prev in
  selectedIndexes st' = []
  /\ _current_item_ref st' = _current_item_ref st
  /\ _entity_to_select st' = _entity_to_select st
  /\ _filter_model st' = _filter_model st.
Proof.
  intros Hsel Hitem. unfold _update_selection.
  rewrite (item_to_select_same st (blockSignals st true)) by reflexivity.
  match goal with
  | |- context [blockSignals ?s (signalsBlocked st)] =>
      assert (Hsame : s = blockSignals st true)
  end.
  { destruct (item_to_select st) as [h|]; [|reflexivity].
    cbn [_filter_model blockSignals]. rewrite Hitem. reflexivity. }
  rewrite Hsame. clear Hsame.
  set (st4 := blockSignals (blockSignals st true) (signalsBlocked st)).
  destruct (update_selection_tail st4 prev) as (He & Ht & Hr & Hs).
  cbv zeta in *. rewrite Hs, Hr, Ht, (expansion_part_filter_model _ _ He).
  auto.
Qed.

Lemma update_selection_exclusive st prev :
  exclusive st -> exclusive (_update_selection st prev).
Proof.
  intros Hex. unfold _update_selection.
  match goal with
  | |- context [blockSignals ?s (signalsBlocked st)] =>
      assert (Hmid : exclusive s)
  end.
  { destruct (item_to_select _) as [h|]; [|exact Hex].
    destruct (isValid _); [|exact Hex].
    apply setCurrentIndex_exclusive.
    pose proof (scrollTo_selection_part (blockSignals st true)
                  (mapFromSource (_filter_model (blockSignals st true))
                     (index_of h))) as Hscroll.
    destruct (selection_part_fields _ _ Hscroll) as (Ht & Hr & _).
    unfold exclusive. rewrite Ht, Hr. exact Hex. }
  match goal with
  | |- context [blockSignals ?s (signalsBlocked st)] =>
      set (st4 := blockSignals s (signalsBlocked st)) in *;
      destruct (update_selection_tail st4 prev) as (_ & Ht & Hr & _)
  end.
  cbv zeta in *. unfold exclusive. rewrite Ht, Hr. exact Hmid.
Qed.

Lemma change_selection_exclusive st new :
  exclusive st -> exclusive (change_selection st new).
Proof.
  intros Hex. unfold change_selection.
  destruct (List.filter _ new);
    [destruct (List.filter _ (selectedIndexes st))|];
    try apply on_selection_changed_exclusive.
  exact Hex.
Qed.

Lemma reset_selection_fields st :
  let st' := snd (_reset_selection st) in
  selectedIndexes st' = []
  /\ _entity_to_select st' = _entity_to_select st
  /\ _current_item_ref st' = _current_item_ref st
  /\ _filter_model st' = _filter_model st.
Proof. unfold _reset_selection, _update_ui. simpl. auto. Qed.

Lemma select_entity_exclusive st entity_type entity_id :
  exclusive (select_entity st entity_type entity_id).
Proof.
  unfold select_entity, _reset_selection.
  apply update_selection_exclusive. right. reflexivity.
Qed.

Lemma on_search_changed_exclusive st search_text :
  exclusive st -> exclusive (_on_search_changed st search_text).
Proof.
  intros Hex. unfold _on_search_changed, _reset_selection.
  apply update_selection_exclusive. exact Hex.
Qed.

Lemma on_my_tasks_only_toggled_exclusive st checked :
  exclusive st -> exclusive (_on_my_tasks_only_toggled st checked).
Proof.
  intros Hex. unfold _on_my_tasks_only_toggled, _reset_selection.
  apply update_selection_exclusive. exact Hex.
Qed.

Lemma navigate_to_exclusive st breadcrumb_trail :
  exclusive st -> exclusive (state_after (navigate_to st breadcrumb_trail)).
Proof.
  intros Hex. unfold navigate_to.
  destruct (navigate_loop _ _ _); simpl; [|exact Hex].
  apply setCurrentIndex_exclusive. exact Hex.
Qed.

Lemma exclusive_selection_part st st' :
  selection_part st' = selection_part st -> exclusive st -> exclusive st'.
Proof.
  intros H. destruct (selection_part_fields _ _ H) as (Ht & Hr & _).
  unfold exclusive. rewrite Ht, Hr. auto.
Qed.

Lemma emit_fields st sig :
  let st' := emit st sig in
  _entity_to_select st' = _entity_to_select st
  /\ _current_item_ref st' = _current_item_ref st
  /\ selectedIndexes st' = selectedIndexes st
  /\ expansion_part st' = expansion_part st.
Proof.
  unfold emit, expansion_part. cbv zeta.
  destruct (signalsBlocked st) eqn:Hb; simpl; rewrite ?Hb; auto.
Qed.

Lemma on_new_task_fields st :
  let st' := state_after (_on_new_task st) in
  _entity_to_select st' = _entity_to_select st
  /\ _current_item_ref st' = _current_item_ref st
  /\ selectedIndexes st' = selectedIndexes st
  /\ expansion_part st' = expansion_part st.
Proof.
  unfold _on_new_task. cbv zeta.
  destruct (selectedIndexes st) as [|sel [|]] eqn:Hsel; simpl; auto.
  destruct (negb (isValid _)); simpl; auto.
  destruct (get_entity _) as [e|]; simpl; auto.
  destruct (String.eqb (sg_type e) "Step"); simpl; auto.
  destruct (String.eqb (sg_type e) "Task"); simpl;
    [destruct (sg_entity e); simpl; auto|];
    rewrite <- Hsel; apply emit_fields.
Qed.

Lemma handle_exclusive st ev : exclusive st -> exclusive (handle st ev).
Proof.
  intros Hex. destruct ev; simpl.
  - apply select_entity_exclusive.
  - apply navigate_to_exclusive, Hex.
  - apply on_search_changed_exclusive, Hex.
  - apply on_my_tasks_only_toggled_exclusive, Hex.
  - apply change_selection_exclusive, Hex.
  - eapply exclusive_selection_part; [apply rows_inserted_selection_part|exact Hex].
  - eapply exclusive_selection_part; [apply expand_selection_part|exact Hex].
  - eapply exclusive_selection_part; [apply collapse_selection_part|exact Hex].
  - destruct (on_new_task_fields st) as (Ht & Hr & _). cbv zeta in *.
    unfold exclusive. rewrite Ht, Hr. exact Hex.
  - exact Hex.
Qed.


(** The three places that run the reconciliation step all empty the
    selection first. *)
Lemma on_filter_change_unfold st c :
  on_filter_change st c
  = _update_selection
      (set_filter_model (_update_ui (set_selectedIndexes st []))
         (filter_after st c))
      (_get_selected_item st).
Proof. destruct c; reflexivity. Qed.

Lemma select_entity_unfold st entity_type entity_id :
  select_entity st entity_type entity_id
  = _update_selection
      (_update_ui
         (set_current_item_ref
            (_update_ui
               (set_selectedIndexes
                  (set_entity_to_select st (Some (entity_type, entity_id)))
                  []))
            None))
      (_get_selected_item st).
Proof. reflexivity. Qed.

Lemma item_from_entity_type m ty id h :
  item_from_entity m ty id = Some h ->
  String.eqb (get_entity_type m) ty = true
  /\ has_identity ty id (handle_item h) = true.
Proof.
  unfold item_from_entity. destruct (String.eqb ty _) eqn:E; [|discriminate].
  intros H. split.
  - rewrite String.eqb_sym. exact E.
  - apply (find_among_found m _ _ H).
Qed.

Lemma item_to_select_pending st m ty id h :
  _entity_to_select st = Some (ty, id) ->
  src_model st = m ->
  item_from_entity m ty id = Some h ->
  item_to_select st = Some h.
Proof.
  intros Ht <- Hitem. unfold item_to_select. rewrite Ht.
  destruct (item_from_entity_type _ _ _ _ Hitem) as [-> _]. exact Hitem.
Qed.

(** C2: in every state that the widget can reach, the pending selection
    target [_entity_to_select] and the last known current node
    [_current_item_ref] are not both set, and whichever was set most
    recently wins.  [select_entity] sets the target and forgets the current
    node: it ends with the target pending and no current node, unless the
    proxy shows the item of the entity, which is then selected at once and
    is the current node, with no target left.  A selection by the user that
    yields a current node sets the reference to that node and clears the
    target. *)
Theorem selection_target_and_current_item_exclusive st :
  reachable st ->
  ~ (is_Some (_entity_to_select st) /\ is_Some (_current_item_ref st))
  /\ (forall entity_type entity_id,
        let st' := select_entity st entity_type entity_id in
        match item_from_entity (src_model st) entity_type entity_id with
        | Some h =>
            if isValid (mapFromSource (_filter_model st) (index_of h))
            then _entity_to_select st' = None
                 /\ _current_item_ref st' = Some (weakref h)
            else _entity_to_select st' = Some (entity_type, entity_id)
                 /\ _current_item_ref st' = None
        | None =>
            _entity_to_select st' = Some (entity_type, entity_id)
            /\ _current_item_ref st' = None
        end)
  /\ (forall new idx item,
        List.filter (fun i => negb (index_in i (selectedIndexes st))) new
        = [idx] ->
        _item_from_index st idx = Some item ->
        let st' := change_selection st new in
        _current_item_ref st' = Some (weakref item)
        /\ _entity_to_select st' = None).
Proof.
  intros Hreach. split; [|split].
  - assert (Hex : exclusive st).
    { induction Hreach as [m acc|st ev _ IH].
      - eapply exclusive_selection_part;
          [apply expand_root_rows_selection_part|]. left. reflexivity.
      - apply handle_exclusive, IH. }
    intros [[t Ht] [r Hr]]. destruct Hex as [H|H]; congruence.
  - intros entity_type entity_id. cbv zeta. rewrite select_entity_unfold.
    destruct (item_from_entity (src_model st) entity_type entity_id)
      as [h|] eqn:Hitem.
    + destruct (isValid (mapFromSource (_filter_model st) (index_of h)))
        eqn:Hv.
      * match goal with
        | |- context [_update_selection ?s ?p] =>
            destruct (update_selection_selects s p h) as (_ & _ & Hr & Ht & _)
        end; auto.
        eapply item_to_select_pending; [reflexivity|reflexivity|exact Hitem].
      * match goal with
        | |- context [_update_selection ?s ?p] =>
            destruct (update_selection_leaves s p) as (_ & Hr & Ht & _)
        end; [reflexivity| |cbv zeta in *; rewrite Hr, Ht; auto].
        assert (Hmissing :
                  match item_from_entity (src_model st) entity_type entity_id
                  with
                  | Some h =>
                      isValid (mapFromSource (_filter_model st) (index_of h))
                      = false
                  | None => True
                  end) by (rewrite Hitem; exact Hv).
        unfold item_to_select. cbn.
        destruct (String.eqb _ entity_type); [exact Hmissing|exact I].
    + match goal with
      | |- context [_update_selection ?s ?p] =>
          destruct (update_selection_leaves s p) as (_ & Hr & Ht & _)
      end; [reflexivity| |cbv zeta in *; rewrite Hr, Ht; auto].
      assert (Hmissing :
                match item_from_entity (src_model st) entity_type entity_id
                with
                | Some h =>
                    isValid (mapFromSource (_filter_model st) (index_of h))
                    = false
                | None => True
                end) by (rewrite Hitem; exact I).
      unfold item_to_select. cbn.
      destruct (String.eqb _ entity_type); [exact Hmissing|exact I].
  - intros new idx item Hnew Hitem. cbv zeta.
    unfold change_selection. rewrite Hnew.
    match goal with
    | |- context [_on_selection_changed ?s ?a ?b] =>
        destruct (on_selection_changed_fields s a b) as (Hr & Ht & _)
    end.
    cbv zeta in Hr, Ht.
    rewrite (item_from_index_same st) in Hr, Ht by reflexivity.
    rewrite Hitem in Hr, Ht. simpl in Hr, Ht. auto.
Qed.

(** C3: a pending target recorded by [select_entity(type, id)] is consumed
    by the reconciliation step that selects its item.  When the model has
    an item for the entity and the proxy shows it, [select_entity] itself
    selects the item and leaves no target pending; when the target is still
    pending at a change of the filter and the item is then in the model and
    shown, the change selects the item and clears the target.  Either way
    the item becomes the current node, which is what later reconciliation
    steps look for. *)
Theorem pending_target_consumed_when_selected st entity_type entity_id h :
  item_from_entity (src_model st) entity_type entity_id = Some h ->
  (isValid (mapFromSource (_filter_model st) (index_of h)) = true ->
   let st' := select_entity st entity_type entity_id in
   has_identity entity_type entity_id (handle_item h) = true
   /\ _get_selected_item st' = Some h
   /\ _entity_to_select st' = None
   /\ _current_item_ref st' = Some (weakref h))
  /\ (forall c,
        _entity_to_select st = Some (entity_type, entity_id) ->
        isValid (mapFromSource (filter_after st c) (index_of h)) = true ->
        let st' := on_filter_change st c in
        has_identity entity_type entity_id (handle_item h) = true
        /\ _get_selected_item st' = Some h
        /\ _entity_to_select st' = None
        /\ _current_item_ref st' = Some (weakref h)).
Proof.
  intros Hitem.
  destruct (item_from_entity_type _ _ _ _ Hitem) as [Hty Hid].
  split.
  - intros Hv. cbv zeta. rewrite select_entity_unfold.
    match goal with
    | |- context [_update_selection ?s ?p] =>
        destruct (update_selection_selects s p h) as (_ & Hs & Hr & Ht & _)
    end; auto.
    eapply item_to_select_pending; [reflexivity|reflexivity|exact Hitem].
  - intros c Hpending Hv. cbv zeta. rewrite on_filter_change_unfold.
    match goal with
    | |- context [_update_selection ?s ?p] =>
        destruct (update_selection_selects s p h) as (_ & Hs & Hr & Ht & _)
    end; auto.
    eapply item_to_select_pending; [exact Hpending| |exact Hitem].
    destruct c; reflexivity.
Qed.

(** C1, as the code has it: at every change of the filter the widget
    empties the selection and then looks for the node to select.  With no
    target pending this is the last current node, found through its weak
    reference, that is by the identity of the node.  If the proxy shows the
    node after the change, the node is selected again; if the node is
    hidden, or gone from the model, nothing is selected and the reference is
    kept for the next change of the filter. *)
Theorem filter_change_restores_current_node st c ref :
  _entity_to_select st = None ->
  _current_item_ref st = Some ref ->
  let st' := on_filter_change st c in
  _current_item_ref st' = Some ref
  /\ _entity_to_select st' = None
  /\ match deref (src_model st) ref with
     | Some h =>
         if isValid (mapFromSource (filter_after st c) (index_of h))
         then weakref h = ref
              /\ _get_selected_item st' = Some h
              /\ selectedIndexes st'
                 = [mapFromSource (filter_after st c) (index_of h)]
         else selectedIndexes st' = []
     | None => selectedIndexes st' = []
     end.
Proof.
  intros Htarget Href. cbv zeta. rewrite on_filter_change_unfold.
  set (st1 := set_filter_model (_update_ui (set_selectedIndexes st []))
                (filter_after st c)).
  assert (Hm : src_model st1 = src_model st) by (destruct c; reflexivity).
  assert (Hlook : item_to_select st1 = deref (src_model st) ref).
  { unfold item_to_select.
    cbn [st1 _entity_to_select _current_item_ref set_filter_model _update_ui
      new_task_btn_setEnabled set_selectedIndexes].
    rewrite Htarget, Href. fold st1. rewrite Hm. reflexivity. }
  destruct (deref (src_model st) ref) as [h|] eqn:Hderef.
  - destruct (isValid (mapFromSource (filter_after st c) (index_of h))) eqn:Hv.
    + destruct (update_selection_selects st1 (_get_selected_item st) h)
        as (Hs & Hg & Hr & Ht & _); auto.
      assert (Hw : weakref h = ref).
      { apply (find_among_found (src_model st)) in Hderef as [_ Hp].
        apply Nat.eqb_eq in Hp. exact Hp. }
      cbv zeta in *. rewrite Hr, Ht, Hw. auto.
    + destruct (update_selection_leaves st1 (_get_selected_item st))
        as (Hs & Hr & Ht & _); auto.
      { rewrite Hlook. exact Hv. }
      cbv zeta in *. rewrite Hr, Ht. auto.
  - destruct (update_selection_leaves st1 (_get_selected_item st))
      as (Hs & Hr & Ht & _); auto.
    { rewrite Hlook. exact I. }
    cbv zeta in *. rewrite Hr, Ht. auto.
Qed.

(** ** Breadcrumbs *)

Lemma breadcrumb_at_item m rows h :
  rows <> [] -> source_item m rows = Some h ->
  breadcrumb_at m (mkIndex OfSource rows) = breadcrumb_of (handle_item h).
Proof.
  intros Hne Hsrc. unfold breadcrumb_at, breadcrumb_of, itemFromIndex. simpl.
  destruct rows as [|r up]; [congruence|]. rewrite Hsrc. simpl.
  destruct (item_entity (handle_item h)); reflexivity.
Qed.

Lemma source_item_above m row up h :
  source_item m (row :: up) = Some h ->
  exists above, source_item m up = Some above /\ item_child above row = Some h.
Proof.
  simpl. destruct (source_item m up) as [above|]; [|discriminate]. eauto.
Qed.

Lemma walk_up_path m : forall rows breadcrumbs h,
  source_item m rows = Some h ->
  walk_up m OfSource rows breadcrumbs
  = (breadcrumbs ++ rev (map breadcrumb_of (path_items m rows)))%list.
Proof.
  induction rows as [|row up IH]; intros breadcrumbs h Hsrc.
  - simpl. rewrite app_nil_r. reflexivity.
  - destruct (source_item_above _ _ _ _ Hsrc) as (above & Habove & _).
    cbn [walk_up path_items]. rewrite Hsrc.
    rewrite (IH _ above Habove).
    rewrite (breadcrumb_at_item m (row :: up) h) by (congruence || exact Hsrc).
    rewrite map_app, rev_app_distr. simpl. rewrite <- app_assoc. reflexivity.
Qed.

Lemma path_items_length m : forall rows h,
  source_item m rows = Some h -> length (path_items m rows) = length rows.
Proof.
  induction rows as [|row up IH]; intros h H; [reflexivity|].
  destruct (source_item_above _ _ _ _ H) as (above & Habove & _).
  cbn [path_items]. rewrite H, length_app, (IH above Habove). simpl. lia.
Qed.

(** What the index of a selected item maps to. *)
Lemma item_from_index_source st idx h :
  _item_from_index st idx = Some h ->
  idx_model idx = OfFilter /\ isValid idx = true
  /\ filter_item (_filter_model st) (idx_rows idx) = Some h
  /\ mapToSource (_filter_model st) idx = index_of h
  /\ handle_rows h <> []
  /\ source_item (src_model st) (handle_rows h) = Some h.
Proof.
  intros Hitem.
  destruct (idx_model idx) eqn:Htag.
  { rewrite item_from_index_of_source in Hitem by exact Htag. discriminate. }
  destruct (isValid idx) eqn:Hv.
  2:{ rewrite item_from_index_invalid in Hitem by exact Hv. discriminate. }
  pose proof Hitem as Hf.
  rewrite item_from_index_filter_item in Hf by assumption.
  destruct (filter_item_in_source _ _ _ Hf) as [Hsrc _].
  unfold _item_from_index, mapToSource in *. rewrite Htag in *.
  unfold isValid in Hv. destruct (idx_rows idx) as [|r up] eqn:Hrows;
    [discriminate|].
  rewrite Hf in *. repeat split; auto.
  intros Hnil. unfold itemFromIndex, index_of in Hitem. simpl in Hitem.
  rewrite Hnil in Hitem. discriminate.
Qed.

Lemma breadcrumb_trail_of_selected st selected h :
  selectedIndexes st = [selected] ->
  _item_from_index st selected = Some h ->
  _build_breadcrumb_trail st
  = TrailList (map breadcrumb_of (path_items (src_model st) (handle_rows h))).
Proof.
  intros Hsel Hitem.
  destruct (item_from_index_source _ _ _ Hitem)
    as (_ & _ & _ & Hmap & _ & Hsrc).
  unfold _build_breadcrumb_trail. rewrite Hsel, Hmap. simpl.
  rewrite (walk_up_path _ _ _ h Hsrc). simpl. rewrite rev_involutive.
  reflexivity.
Qed.

(** C4, as the code has it: the trail of the selected node has one
    breadcrumb for every node on the way from the top-level row down to the
    selected node, in that order; a node with an entity gives an entity
    breadcrumb, a node without gives a breadcrumb with the label of the
    node.  No two nodes share a breadcrumb. *)
Theorem breadcrumb_trail_follows_path st selected h :
  selectedIndexes st = [selected] ->
  _item_from_index st selected = Some h ->
  _build_breadcrumb_trail st
  = TrailList (map breadcrumb_of (path_items (src_model st) (handle_rows h)))
  /\ length (path_items (src_model st) (handle_rows h))
     = length (handle_rows h)
  /\ last (path_items (src_model st) (handle_rows h)) = Some (handle_item h).
Proof.
  intros Hsel Hitem.
  destruct (item_from_index_source _ _ _ Hitem)
    as (_ & _ & _ & Hmap & Hne & Hsrc).
  split; [|split].
  - apply (breadcrumb_trail_of_selected st selected h Hsel Hitem).
  - apply (path_items_length _ _ h Hsrc).
  - destruct (handle_rows h) as [|row up] eqn:Hrows; [congruence|].
    cbn [path_items]. rewrite Hsrc. apply last_snoc.
Qed.

(** ** Navigation *)

Lemma item_child_lookup above row h :
  item_child above row = Some h ->
  exists c, item_rows (handle_item above) !! row = Some c
            /\ h = mkHandle (row :: handle_rows above) c.
Proof.
  unfold item_child. destruct (_ !! row) as [c|]; [|discriminate].
  intros [= <-]. eauto.
Qed.

Lemma lookup_before {A} (l : list A) j row c :
  l !! row = Some c -> j < row -> exists c', l !! j = Some c'.
Proof.
  intros Hrow Hlt. apply lookup_lt_Some in Hrow.
  destruct (l !! j) as [c'|] eqn:Hj; [eauto|].
  apply lookup_ge_None in Hj. lia.
Qed.

Lemma identity_eqb e' e :
  entity_identity e' <> entity_identity e ->
  String.eqb (sg_type e') (sg_type e) && Z.eqb (sg_id e') (sg_id e) = false.
Proof.
  unfold entity_identity. intros Hne.
  destruct (String.eqb_spec (sg_type e') (sg_type e)) as [Ht|]; [|reflexivity].
  destruct (Z.eqb_spec (sg_id e') (sg_id e)) as [Hi|]; [|reflexivity].
  congruence.
Qed.

Lemma find_entity_child_first above e row c :
  item_rows (handle_item above) !! row = Some c ->
  item_entity c = Some e ->
  (forall j c', j < row -> item_rows (handle_item above) !! j = Some c' ->
     exists e', item_entity c' = Some e'
                /\ entity_identity e' <> entity_identity e) ->
  forall n k, k <= row < k + n ->
    find_entity_child above e (seq k n)
    = Ok (Some (mkHandle (row :: handle_rows above) c)).
Proof.
  intros Hrow He Hbefore. induction n as [|n IH]; intros k Hk; [lia|].
  simpl. unfold item_child.
  destruct (decide (k = row)) as [->|Hne].
  - rewrite Hrow. simpl. rewrite He.
    rewrite String.eqb_refl, Z.eqb_refl. reflexivity.
  - assert (Hlt : k < row) by lia.
    destruct (lookup_before _ _ _ _ Hrow Hlt) as [c' Hc'].
    rewrite Hc'. simpl.
    destruct (Hbefore _ _ Hlt Hc') as (e' & -> & Hid).
    rewrite (identity_eqb _ _ Hid). apply IH. lia.
Qed.

Lemma find_label_child_first above row c :
  item_rows (handle_item above) !! row = Some c ->
  (forall j c', j < row -> item_rows (handle_item above) !! j = Some c' ->
     item_text c' <> item_text c) ->
  forall n k, k <= row < k + n ->
    find_label_child above (item_text c) (seq k n)
    = Some (mkHandle (row :: handle_rows above) c).
Proof.
  intros Hrow Hbefore. induction n as [|n IH]; intros k Hk; [lia|].
  simpl. unfold item_child.
  destruct (decide (k = row)) as [->|Hne].
  - rewrite Hrow. simpl. rewrite String.eqb_refl. reflexivity.
  - assert (Hlt : k < row) by lia.
    destruct (lookup_before _ _ _ _ Hrow Hlt) as [c' Hc'].
    rewrite Hc'. simpl.
    destruct (String.eqb_spec (item_text c') (item_text c)) as [Heq|_].
    + destruct (Hbefore _ _ Hlt Hc' Heq).
    + apply IH. lia.
Qed.

(** Along a shown path on which every node is the first match of its
    breadcrumb, the loop of [navigate_to] walks down to the end of the
    path. *)
Lemma navigate_loop_follows fm : forall rows h p,
  source_item (sourceModel fm) rows = Some h ->
  filter_position fm rows = Some p ->
  first_match (sourceModel fm) rows ->
  forall rest,
    navigate_loop fm (invisibleRootItem (sourceModel fm))
      (map breadcrumb_of (path_items (sourceModel fm) rows) ++ rest)%list
    = navigate_loop fm h rest.
Proof.
  induction rows as [|row up IH]; intros h p Hsrc Hpos Hfirst rest.
  - simpl in *. injection Hsrc as <-. reflexivity.
  - destruct (source_item_above _ _ _ _ Hsrc) as (above & Habove & Hchild).
    destruct (item_child_lookup _ _ _ Hchild) as (c & Hc & Hh).
    pose proof (source_item_rows _ _ _ Habove) as Hrows.
    assert (Hup : exists pup, filter_position fm up = Some pup).
    { simpl in Hpos. destruct (filter_position fm up); [eauto|discriminate]. }
    destruct Hup as [pup Hpup].
    destruct Hfirst as [Hfirst_up Hfirst_here].
    rewrite Habove, Hsrc in Hfirst_here.
    cbn [path_items]. rewrite Hsrc, map_app, <- app_assoc.
    rewrite (IH above pup Habove Hpup Hfirst_up). simpl.
    assert (Hrange : 0 <= row < 0 + item_rowCount above).
    { unfold item_rowCount. apply lookup_lt_Some in Hc. lia. }
    assert (Hshown : isValid (mapFromSource fm (index_of h)) = true).
    { unfold mapFromSource, index_of. rewrite Hh.
      cbn [handle_rows idx_model idx_rows]. rewrite Hrows, Hpos.
      cbn [filter_position] in Hpos. rewrite Hpup, Habove, Hchild in Hpos.
      destruct (accepts fm _); [|discriminate]. injection Hpos as <-.
      reflexivity. }
    assert (Hfound :
      match breadcrumb_of (handle_item h) with
      | _EntityBreadcrumb _ entity =>
          find_entity_child above entity (seq 0 (item_rowCount above))
      | Breadcrumb label =>
          Ok (find_label_child above label (seq 0 (item_rowCount above)))
      end = Ok (Some h)).
    { unfold breadcrumb_of. rewrite Hh in *. simpl in *.
      destruct (item_entity c) as [e|] eqn:He.
      - apply find_entity_child_first; auto.
      - f_equal. apply find_label_child_first; auto. }
    rewrite Hfound. simpl. rewrite Hshown. reflexivity.
Qed.

Lemma change_selection_selected st new :
  selectedIndexes (change_selection st new) = new.
Proof.
  unfold change_selection.
  destruct (List.filter _ new);
    [destruct (List.filter _ (selectedIndexes st))|];
    try reflexivity;
    match goal with
    | |- context [_on_selection_changed ?s ?a ?b] =>
        destruct (on_selection_changed_fields s a b) as (_ & _ & -> & _)
    end; reflexivity.
Qed.

Lemma find_entity_child_found cur entity : forall rows found,
  find_entity_child cur entity rows = Ok (Some found) ->
  exists row, item_child cur row = Some found.
Proof.
  induction rows as [|row rest IH]; intros found; simpl; [discriminate|].
  destruct (get_entity (item_child cur row)); [|discriminate].
  destruct (_ && _); [|apply IH].
  intros [= H]. eauto.
Qed.

Lemma find_label_child_found cur label : forall rows found,
  find_label_child cur label rows = Some found ->
  exists row, item_child cur row = Some found.
Proof.
  induction rows as [|row rest IH]; intros found; simpl; [discriminate|].
  destruct (String.eqb _ label); [eauto|apply IH].
Qed.

Lemma source_item_child m cur row found :
  source_item m (handle_rows cur) = Some cur ->
  item_child cur row = Some found ->
  source_item m (handle_rows found) = Some found.
Proof.
  intros Hcur Hchild.
  destruct (item_child_lookup _ _ _ Hchild) as (c & Hc & ->).
  simpl. rewrite Hcur. exact Hchild.
Qed.

(** The loop of [navigate_to] ends at the root or at an item of the source
    model that the proxy shows. *)
Lemma navigate_loop_ends_shown fm : forall trail cur h,
  source_item (sourceModel fm) (handle_rows cur) = Some cur ->
  handle_rows cur = []
  \/ isValid (mapFromSource fm (index_of cur)) = true ->
  navigate_loop fm cur trail = Ok h ->
  source_item (sourceModel fm) (handle_rows h) = Some h
  /\ (handle_rows h = []
      \/ isValid (mapFromSource fm (index_of h)) = true).
Proof.
  induction trail as [|crumb rest IH]; intros cur h Hcur Hshown; simpl.
  - intros [= <-]. auto.
  - assert (Hstep : forall found,
              (exists row, item_child cur row = Some found) ->
              match Some found with
              | Some found_item =>
                  if negb (isValid (mapFromSource fm (index_of found_item)))
                  then Ok cur
                  else navigate_loop fm found_item rest
              | None => Ok cur
              end = Ok h ->
              source_item (sourceModel fm) (handle_rows h) = Some h
              /\ (handle_rows h = []
                  \/ isValid (mapFromSource fm (index_of h)) = true)).
    { intros found [row Hrow].
      destruct (isValid (mapFromSource fm (index_of found))) eqn:Hv; simpl.
      - apply IH; [eapply source_item_child; eauto|auto].
      - intros [= <-]. auto. }
    destruct crumb as [label|label entity].
    + simpl. destruct (find_label_child cur label _) as [found|] eqn:Hfind.
      * apply Hstep. eapply find_label_child_found; eauto.
      * intros [= <-]. auto.
    + destruct (find_entity_child cur entity _) as [[found|]|e] eqn:Hfind;
        simpl.
      * apply Hstep. eapply find_entity_child_found; eauto.
      * intros [= <-]. auto.
      * discriminate.
Qed.

(** The code's searches among the children and the first matching child
    of the spec. *)
Lemma first_among_found p : forall cs row r c,
  first_among p row cs = Some (r, c) ->
  exists i, r = row + i /\ cs !! i = Some c /\ p c = true
            /\ forall j c', j < i -> cs !! j = Some c' -> p c' = false.
Proof.
  induction cs as [|a cs IH]; intros row r c; cbn [first_among];
    [discriminate|].
  destruct (p a) eqn:Hp.
  - intros [= <- <-]. exists 0. repeat split; [lia|assumption|].
    intros j c' Hj. lia.
  - intros H. destruct (IH _ _ _ H) as (i & -> & Hi & Hc & Hbefore).
    exists (S i). repeat split; [lia|exact Hi|exact Hc|].
    intros [|j] c' Hj Hc'; [simpl in Hc'; congruence|].
    apply (Hbefore j c'); [lia|exact Hc'].
Qed.

Lemma find_entity_child_walk cur label entity : forall n k r,
  k + n = item_rowCount cur ->
  find_entity_child cur entity (seq k n) = Ok r ->
  r = match first_among (crumb_matches (_EntityBreadcrumb label entity)) k
              (drop k (item_rows (handle_item cur))) with
      | Some (row, c) => Some (mkHandle (row :: handle_rows cur) c)
      | None => None
      end.
Proof.
  unfold item_rowCount.
  induction n as [|n IH]; intros k r Hlen; cbn [seq find_entity_child].
  - intros [= <-]. rewrite drop_ge by lia. reflexivity.
  - destruct (item_rows (handle_item cur) !! k) as [c|] eqn:Hc.
    2:{ apply lookup_ge_None in Hc. lia. }
    unfold item_child. rewrite Hc. rewrite (drop_S _ _ _ Hc).
    cbn [get_entity handle_item first_among crumb_matches].
    destruct (item_entity c) as [e|]; [|discriminate].
    destruct (String.eqb (sg_type e) (sg_type entity)
              && Z.eqb (sg_id e) (sg_id entity)).
    + intros [= <-]. reflexivity.
    + apply IH. lia.
Qed.

Lemma find_label_child_walk cur label : forall n k,
  k + n = item_rowCount cur ->
  find_label_child cur label (seq k n)
  = match first_among (crumb_matches (Breadcrumb label)) k
            (drop k (item_rows (handle_item cur))) with
    | Some (row, c) => Some (mkHandle (row :: handle_rows cur) c)
    | None => None
    end.
Proof.
  unfold item_rowCount.
  induction n as [|n IH]; intros k Hlen; cbn [seq find_label_child].
  - rewrite drop_ge by lia. reflexivity.
  - destruct (item_rows (handle_item cur) !! k) as [c|] eqn:Hc.
    2:{ apply lookup_ge_None in Hc. lia. }
    unfold item_child. rewrite Hc. rewrite (drop_S _ _ _ Hc).
    cbn [get_model_str handle_item first_among crumb_matches].
    destruct (String.eqb (item_text c) label); [reflexivity|].
    apply IH. lia.
Qed.

(** The loop of [navigate_to] ends, when it does, with the deepest item
    that the walk of the spec reaches. *)
Lemma navigate_loop_walk fm : forall trail cur h,
  navigate_loop fm cur trail = Ok h ->
  h = deepest_reached fm cur trail.
Proof.
  induction trail as [|crumb rest IH]; intros cur h;
    cbn [navigate_loop deepest_reached].
  - intros [= <-]. reflexivity.
  - unfold first_matching_child. destruct crumb as [label|label entity].
    + rewrite (find_label_child_walk cur label (item_rowCount cur) 0 eq_refl).
      rewrite drop_0. cbn [mbind Result_bind].
      destruct (first_among _ 0 _) as [[row c]|]; [|intros [= <-]; reflexivity].
      destruct (isValid _); cbn [negb]; [apply IH|intros [= <-]; reflexivity].
    + destruct (find_entity_child cur entity _) as [r|e] eqn:Hfind;
        cbn [mbind Result_bind]; [|discriminate].
      rewrite (find_entity_child_walk cur label entity _ 0 r eq_refl Hfind).
      rewrite drop_0.
      destruct (first_among _ 0 _) as [[row c]|]; [|intros [= <-]; reflexivity].
      destruct (isValid _); cbn [negb]; [apply IH|intros [= <-]; reflexivity].
Qed.

(** The search for an entity can only raise [TypeError]. *)
Lemma find_entity_child_raises cur entity : forall rows e,
  find_entity_child cur entity rows = Raise e -> e = TypeError.
Proof.
  induction rows as [|row rest IH]; intros e; cbn [find_entity_child];
    [discriminate|].
  destruct (get_entity (item_child cur row)); [|intros [= <-]; reflexivity].
  destruct (_ && _); [discriminate|apply IH].
Qed.

Lemma navigate_loop_raises fm : forall trail cur e,
  navigate_loop fm cur trail = Raise e -> e = TypeError.
Proof.
  induction trail as [|crumb rest IH]; intros cur e; cbn [navigate_loop];
    [discriminate|].
  destruct crumb as [label|label entity]; cbn [mbind Result_bind].
  - destruct (find_label_child cur label _); [|discriminate].
    destruct (negb _); [discriminate|apply IH].
  - destruct (find_entity_child cur entity _) as [[found|]|e'] eqn:Hfind;
      cbn [mbind Result_bind].
    + destruct (negb _); [discriminate|apply IH].
    + discriminate.
    + intros [= <-]. eapply find_entity_child_raises, Hfind.
Qed.

Lemma entities_below_children it :
  entities_below it
  = forallb (fun c => match item_entity c with Some _ => true | None => false end
                      && entities_below c) (item_rows it).
Proof.
  destruct it as [r t e cs]. cbn [entities_below item_rows].
  induction cs as [|c cs IH]; [reflexivity|].
  cbn [forallb]. rewrite <- IH. reflexivity.
Qed.

Lemma entities_below_child cur row found :
  entities_below (handle_item cur) = true ->
  item_child cur row = Some found ->
  is_Some (item_entity (handle_item found))
  /\ entities_below (handle_item found) = true.
Proof.
  intros Hall Hchild. rewrite entities_below_children in Hall.
  destruct (item_child_lookup _ _ _ Hchild) as (c & Hc & ->).
  cbn [handle_item].
  assert (Hin : In c (item_rows (handle_item cur))).
  { apply list_elem_of_In. eapply list_elem_of_lookup_2, Hc. }
  pose proof (proj1 (forallb_forall _ _) Hall c Hin) as H.
  apply andb_true_iff in H as [He Hb].
  split; [|exact Hb]. destruct (item_entity c); [eauto|discriminate].
Qed.

Lemma find_entity_child_returns cur entity :
  entities_below (handle_item cur) = true ->
  forall n k, k + n <= item_rowCount cur ->
    exists r, find_entity_child cur entity (seq k n) = Ok r.
Proof.
  intros Hall. unfold item_rowCount.
  induction n as [|n IH]; intros k Hlen; cbn [seq find_entity_child];
    [eauto|].
  destruct (item_child cur k) as [found|] eqn:Hchild.
  2:{ unfold item_child in Hchild.
      destruct (item_rows (handle_item cur) !! k) eqn:Hc; [discriminate|].
      apply lookup_ge_None in Hc. lia. }
  destruct (entities_below_child cur k found Hall Hchild) as [[e He] _].
  cbn [get_entity]. rewrite He.
  destruct (_ && _); [eauto|]. apply IH. lia.
Qed.

(** The loop returns in a model in which every item has an entity. *)
Lemma navigate_loop_returns fm : forall trail cur,
  entities_below (handle_item cur) = true ->
  exists h, navigate_loop fm cur trail = Ok h.
Proof.
  induction trail as [|crumb rest IH]; intros cur Hall; cbn [navigate_loop];
    [eauto|].
  destruct crumb as [label|label entity]; cbn [mbind Result_bind].
  - destruct (find_label_child cur label _) as [found|] eqn:Hfind; [|eauto].
    destruct (negb _); [eauto|].
    destruct (find_label_child_found _ _ _ _ Hfind) as [row Hrow].
    apply IH. eapply entities_below_child; eauto.
  - destruct (find_entity_child_returns cur entity Hall (item_rowCount cur) 0)
      as [r Hr]; [lia|].
    rewrite Hr. cbn [mbind Result_bind].
    destruct r as [found|]; [|eauto].
    destruct (negb _); [eauto|].
    destruct (find_entity_child_found _ _ _ _ Hr) as [row Hrow].
    apply IH. eapply entities_below_child; eauto.
Qed.

(** The round trip of a trail. *)
Lemma navigate_to_round_trip st selected h trail st_later :
  selectedIndexes st = [selected] ->
  _item_from_index st selected = Some h ->
  _build_breadcrumb_trail st = TrailList trail ->
  first_match (src_model st) (handle_rows h) ->
  _filter_model st_later = _filter_model st ->
  exists st', navigate_to st_later trail = Returns st'
              /\ selectedIndexes st' = [selected]
              /\ _get_selected_item st' = Some h.
Proof.
  intros Hsel Hitem Htrail Hfirst Hlater.
  pose proof (breadcrumb_trail_of_selected st selected h Hsel Hitem) as Hpath.
  rewrite Hpath in Htrail. injection Htrail as <-.
  destruct (item_from_index_source _ _ _ Hitem)
    as (Htag & Hv & Hf & _ & Hne & Hsrc).
  destruct (filter_item_in_source _ _ _ Hf) as [_ Hpos].
  pose proof (navigate_loop_follows (_filter_model st) _ h _ Hsrc Hpos Hfirst [])
    as Hnav.
  rewrite app_nil_r in Hnav. simpl in Hnav.
  unfold navigate_to, src_model. rewrite Hlater. unfold src_model in Hnav.
  rewrite Hnav.
  assert (Hidx : mapFromSource (_filter_model st) (index_of h) = selected).
  { unfold mapFromSource, index_of. simpl.
    destruct (handle_rows h) as [|s up] eqn:Hrows; [congruence|].
    rewrite Hpos. destruct selected as [tag rows]. simpl in *. congruence. }
  rewrite Hidx. eexists. split; [reflexivity|].
  unfold setCurrentIndex. rewrite Hv.
  split; [apply change_selection_selected|].
  unfold _get_selected_item. rewrite change_selection_selected.
  rewrite <- Hitem. apply item_from_index_same.
  etrans; [|exact Hlater].
  unfold change_selection.
  destruct (List.filter _ [selected]);
    [destruct (List.filter _ (selectedIndexes st_later))|];
    try reflexivity;
    match goal with
    | |- context [_on_selection_changed ?s ?a ?b] =>
        destruct (on_selection_changed_fields s a b) as (_ & _ & _ & He)
    end; apply (expansion_part_filter_model _ _ He).
Qed.

(** What a call of [navigate_to] that ends with [cur] selects. *)
Lemma setCurrentIndex_of_item st cur :
  source_item (src_model st) (handle_rows cur) = Some cur ->
  handle_rows cur = []
  \/ isValid (mapFromSource (_filter_model st) (index_of cur)) = true ->
  let idx := mapFromSource (_filter_model st) (index_of cur) in
  let st' := setCurrentIndex st idx in
  match handle_rows cur with
  | [] => selectedIndexes st' = []
  | _ :: _ =>
      isValid idx = true
      /\ selectedIndexes st' = [idx]
      /\ _get_selected_item st' = Some cur
  end.
Proof.
  intros Hsrc Hshown. cbv zeta.
  pose proof (expansion_part_filter_model _ _
                (setCurrentIndex_expansion_part st
                   (mapFromSource (_filter_model st) (index_of cur)))) as Hfm.
  unfold setCurrentIndex in *.
  destruct (handle_rows cur) as [|r up] eqn:Hrows.
  - assert (Hv : isValid (mapFromSource (_filter_model st) (index_of cur))
                 = false).
    { unfold mapFromSource, index_of. rewrite Hrows. reflexivity. }
    rewrite Hv. apply change_selection_selected.
  - destruct Hshown as [Hroot|Hv]; [discriminate|].
    rewrite <- Hrows in Hsrc.
    rewrite Hv in *. split; [reflexivity|].
    split; [apply change_selection_selected|].
    unfold _get_selected_item. rewrite change_selection_selected.
    destruct (item_from_index_mapFromSource st cur Hsrc Hv) as [_ Hitem].
    rewrite <- Hitem. apply item_from_index_same. exact Hfm.
Qed.


(** ** Expansion *)

Lemma grows_refl st : grows st st.
Proof. unfold grows. set_solver. Qed.

Lemma grows_trans st1 st2 st3 : grows st1 st2 -> grows st2 st3 -> grows st1 st3.
Proof.
  unfold grows. intros (F1 & E1 & T1 & A1) (F2 & E2 & T2 & A2).
  repeat split; [congruence|set_solver..].
Qed.

Lemma expand_grows st idx :
  grows st (expand st idx)
  /\ forall h, _item_from_index st idx = Some h ->
       weakref h ∈ tree_expanded (expand st idx).
Proof.
  unfold expand. destruct (_item_from_index st idx) as [h|] eqn:Hitem.
  - case_bool_decide as Hin.
    + split; [apply grows_refl|]. intros h' [= <-]. exact Hin.
    + unfold _on_item_expanded.
      rewrite (item_from_index_same st) by reflexivity. rewrite Hitem.
      split.
      * unfold grows. simpl. repeat split; set_solver.
      * intros h' [= <-]. simpl. set_solver.
  - split; [apply grows_refl|]. discriminate.
Qed.

Lemma fix_item_state_grows st idx :
  grows st (fix_item_state st idx)
  /\ forall h, _item_from_index st idx = Some h ->
       weakref h ∈ _expanded_items st ->
       weakref h ∈ tree_expanded (fix_item_state st idx).
Proof.
  unfold fix_item_state. destruct (_item_from_index st idx) as [h|] eqn:Hitem.
  2:{ split; [apply grows_refl|]. discriminate. }
  set (st1 := if negb (isValid (parent idx)) then _ else st).
  assert (H1 : grows st st1 /\ _item_from_index st1 idx = Some h).
  { subst st1. destruct (negb (isValid (parent idx))).
    - case_bool_decide; simpl.
      + split; [apply grows_refl|exact Hitem].
      + split; [unfold grows; simpl; repeat split; set_solver|exact Hitem].
    - split; [apply grows_refl|exact Hitem]. }
  destruct H1 as [Hg1 Hitem1].
  destruct (expand_grows st1 idx) as [Hg2 Hin2].
  case_bool_decide as Hin.
  - split; [eapply grows_trans; eauto|].
    intros h' [= <-] _. apply Hin2. exact Hitem1.
  - split; [exact Hg1|]. intros h' [= <-] Hexp.
    destruct Hg1 as (_ & He & _). exfalso. apply Hin. set_solver.
Qed.

Lemma fix_parent_state_grows st parent_idx :
  grows st (fix_parent_state st parent_idx).
Proof.
  unfold fix_parent_state. destruct (isValid parent_idx); [|apply grows_refl].
  destruct (_item_from_index st parent_idx); [|apply grows_refl].
  case_bool_decide; [apply expand_grows|apply grows_refl].
Qed.

Lemma height_child it i c :
  item_rows it !! i = Some c -> height c < height it.
Proof.
  destruct it as [r t e cs]. simpl. revert i.
  induction cs as [|c0 rest IH]; intros i Hc; [destruct i; discriminate|].
  destruct i as [|i]; simpl in Hc.
  - injection Hc as ->. lia.
  - specialize (IH i Hc). lia.
Qed.

Lemma source_item_height m : forall rows h,
  source_item m rows = Some h ->
  height (handle_item h) + length rows <= model_depth m.
Proof.
  induction rows as [|row up IH]; intros h Hsrc.
  - simpl in Hsrc. injection Hsrc as <-. unfold model_depth. simpl. lia.
  - destruct (source_item_above _ _ _ _ Hsrc) as (above & Habove & Hchild).
    destruct (item_child_lookup _ _ _ Hchild) as (c & Hc & ->).
    specialize (IH above Habove). apply height_child in Hc. simpl. lia.
Qed.

Lemma filter_item_below fm : forall below rows d,
  filter_item fm (below ++ rows) = Some d ->
  exists h, filter_item fm rows = Some h.
Proof.
  induction below as [|r below IH]; intros rows d H; [eauto|].
  simpl in H. destruct (filter_item fm (below ++ rows)) as [x|] eqn:Hx;
    [|discriminate].
  eapply IH. exact Hx.
Qed.

Lemma filter_item_child fm row rows hc :
  filter_item fm (row :: rows) = Some hc ->
  exists h, filter_item fm rows = Some h
            /\ row < length (shown_rows fm h)
            /\ height (handle_item hc) < height (handle_item h).
Proof.
  simpl. destruct (filter_item fm rows) as [h|]; [|discriminate].
  destruct (shown_rows fm h !! row) as [[s c]|] eqn:Hr; [|discriminate].
  intros [= <-]. exists h. split; [reflexivity|]. split.
  - apply lookup_lt_Some in Hr. exact Hr.
  - apply shown_from_to_source in Hr as (s0 & _ & Hc & _).
    simpl. eapply height_child. exact Hc.
Qed.

Lemma rowCount_filter_item fm idx h :
  idx_model idx = OfFilter \/ isValid idx = false ->
  filter_item fm (idx_rows idx) = Some h ->
  rowCount fm idx = length (shown_rows fm h).
Proof.
  unfold rowCount, isValid. intros Htag Hf. rewrite Hf.
  destruct (idx_model idx), (idx_rows idx); try reflexivity.
  destruct Htag; discriminate.
Qed.

Lemma rowCount_positive fm idx :
  0 < rowCount fm idx ->
  (idx_model idx = OfFilter \/ isValid idx = false)
  /\ exists h, filter_item fm (idx_rows idx) = Some h.
Proof.
  unfold rowCount, isValid.
  destruct (idx_model idx), (idx_rows idx) as [|r up] eqn:Hrows;
    try (intros H; lia);
    (destruct (filter_item fm _) as [h|] eqn:Hf; [|intros H; lia]);
    intros _; eauto.
Qed.

(** A loop over rows in which every step returns and covers its row. *)
Lemma fold_rows_covers (st : EntityTreeForm)
  (f : EntityTreeForm -> nat -> Outcome)
  (covered : nat -> EntityTreeForm -> Prop) (l : list nat) :
  (forall r s s', grows s s' -> covered r s -> covered r s') ->
  (forall s r, r ∈ l -> grows st s ->
     exists s', f s r = Returns s' /\ grows s s' /\ covered r s') ->
  forall s, grows st s ->
    exists s',
      foldl (fun o row => and_then o (fun s => f s row)) (Returns s) l
      = Returns s'
      /\ grows s s' /\ forall r, r ∈ l -> covered r s'.
Proof.
  intros Hmono. induction l as [|r rest IH]; intros Hf s Hs.
  - exists s. split; [reflexivity|]. split; [apply grows_refl|].
    intros r Hr. inversion Hr.
  - destruct (Hf s r) as (s1 & Hret & Hg1 & Hc1); [left|exact Hs|].
    simpl. rewrite Hret.
    destruct (IH (fun s0 r0 Hin => Hf s0 r0 (list_elem_of_further _ _ _ Hin)) s1)
      as (s2 & Hfold & Hg2 & Hc2).
    { eapply grows_trans; eauto. }
    exists s2. split; [exact Hfold|]. split; [eapply grows_trans; eauto|].
    intros r0 Hr0. apply elem_of_cons in Hr0 as [->|Hr0].
    + eapply Hmono; eauto.
    + apply Hc2. exact Hr0.
Qed.

Lemma child_of_shown_row fm idx row h :
  idx_model idx = OfFilter -> isValid idx = true ->
  filter_item fm (idx_rows idx) = Some h ->
  row < length (shown_rows fm h) ->
  child fm idx row = mkIndex OfFilter (row :: idx_rows idx).
Proof.
  intros Htag Hv Hf Hrow. unfold child, index, isValid in *.
  rewrite Htag. destruct (idx_rows idx) as [|r up] eqn:Hrows; [discriminate|].
  rewrite <- Hrows, (rowCount_filter_item fm idx h); auto;
    [|rewrite Hrows; exact Hf].
  apply Nat.ltb_lt in Hrow. rewrite Hrow. reflexivity.
Qed.

(** With enough room on the stack, [_fix_expanded_state_r] returns, and it
    has then expanded every shown item at or below [idx] that was in
    [_expanded_items]. *)
Lemma fix_expanded_state_covers : forall depth st idx h,
  idx_model idx = OfFilter -> isValid idx = true ->
  filter_item (_filter_model st) (idx_rows idx) = Some h ->
  height (handle_item h) <= depth ->
  exists st',
    _fix_expanded_state_r depth st idx = Returns st'
    /\ grows st st'
    /\ forall below d,
         filter_item (_filter_model st) (below ++ idx_rows idx) = Some d ->
         weakref d ∈ _expanded_items st ->
         weakref d ∈ tree_expanded st'.
Proof.
  induction depth as [|depth IH]; intros st idx h Htag Hv Hf Hheight.
  { destruct (handle_item h). simpl in Hheight. lia. }
  cbn [_fix_expanded_state_r].
  destruct (fix_item_state_grows st idx) as [Hg1 Hself].
  set (st1 := fix_item_state st idx) in *.
  pose proof Hg1 as (Hfm1 & He1 & Ht1 & _).
  unfold fix_children_state.
  rewrite (rowCount_filter_item _ idx h) by (auto; rewrite Hfm1; exact Hf).
  rewrite Hfm1.
  destruct (fold_rows_covers st
              (fun s row =>
                 _fix_expanded_state_r depth s (child (_filter_model s) idx row))
              (fun row s =>
                 forall below d,
                   filter_item (_filter_model st)
                     (below ++ row :: idx_rows idx) = Some d ->
                   weakref d ∈ _expanded_items st ->
                   weakref d ∈ tree_expanded s)
              (seq 0 (length (shown_rows (_filter_model st) h))))
    with (s := st1) as (st2 & Hfold & Hg2 & Hcov).
  - intros r s s' (_ & _ & Ht & _) Hc below d Hd Hin.
    specialize (Hc below d Hd Hin). set_solver.
  - intros s r Hr (Hfm & He & _).
    apply elem_of_seq in Hr as [_ Hr]. simpl in Hr.
    rewrite Hfm, (child_of_shown_row _ idx r h Htag Hv Hf Hr).
    destruct (shown_rows (_filter_model st) h !! r) as [[sr c]|] eqn:Hrow.
    2:{ apply lookup_ge_None in Hrow. lia. }
    assert (Hfc : filter_item (_filter_model s) (r :: idx_rows idx)
                  = Some (mkHandle (sr :: handle_rows h) c)).
    { rewrite Hfm. simpl. rewrite Hf, Hrow. reflexivity. }
    destruct (filter_item_child (_filter_model s) r (idx_rows idx) _ Hfc)
      as (h' & Hh' & _ & Hlt).
    rewrite Hfm, Hf in Hh'. injection Hh' as <-.
    destruct (IH s (mkIndex OfFilter (r :: idx_rows idx))
                (mkHandle (sr :: handle_rows h) c))
      as (s' & Hret & Hg & Hc); auto; [lia|].
    exists s'. split; [exact Hret|]. split; [exact Hg|].
    intros below d Hd Hin. apply (Hc below d).
    + simpl. rewrite Hfm. exact Hd.
    + set_solver.
  - exact Hg1.
  - exists st2. split; [exact Hfold|]. split; [eapply grows_trans; eauto|].
    intros below d Hd Hin.
    destruct below as [|b below'] using rev_ind.
    + simpl in Hd. rewrite Hf in Hd. injection Hd as <-.
      destruct Hg2 as (_ & _ & Ht2 & _).
      assert (weakref h ∈ tree_expanded st1); [|set_solver].
      apply Hself; [|exact Hin].
      rewrite item_from_index_filter_item; auto.
    + clear IHbelow'. rewrite <- app_assoc in Hd. simpl in Hd.
      refine (Hcov b _ below' d Hd Hin).
      destruct (filter_item_below _ _ _ _ Hd) as [x Hx].
      destruct (filter_item_child _ _ _ _ Hx) as (h' & Hh' & Hb & _).
      rewrite Hf in Hh'. injection Hh' as <-.
      apply elem_of_seq. simpl. lia.
Qed.

(** C8: the set of expanded items is kept by the two slots of the view,
    [_on_item_expanded] adds the reference of the item and
    [_on_item_collapsed] removes it; and when the proxy reports new rows,
    [_on_filter_model_rows_inserted] returns (given room on the stack for
    the depth of the model) and every shown item at or below one of the new
    rows whose reference is in the set is expanded in the view
    afterwards. *)
Theorem expanded_items_kept_and_reapplied st :
  (forall idx item, _item_from_index st idx = Some item ->
     _expanded_items (_on_item_expanded st idx)
     = {[weakref item]} ∪ _expanded_items st)
  /\ (forall idx item, _item_from_index st idx = Some item ->
        _expanded_items (_on_item_collapsed st idx)
        = _expanded_items st ∖ {[weakref item]})
  /\ (forall depth parent_idx first last,
        last < rowCount (_filter_model st) parent_idx ->
        model_depth (src_model st) <= depth ->
        exists st',
          _on_filter_model_rows_inserted depth st parent_idx first last
          = Returns st'
          /\ forall row below d,
               first <= row <= last ->
               filter_item (_filter_model st)
                 (below ++ row :: idx_rows parent_idx) = Some d ->
               weakref d ∈ _expanded_items st ->
               weakref d ∈ tree_expanded st').
Proof.
  split; [|split].
  - intros idx item Hitem. unfold _on_item_expanded. rewrite Hitem. reflexivity.
  - intros idx item Hitem. unfold _on_item_collapsed. rewrite Hitem. reflexivity.
  - intros depth parent_idx first last Hlast Hdepth.
    destruct (rowCount_positive (_filter_model st) parent_idx) as (Htag & hp & Hp);
      [lia|].
    rewrite (rowCount_filter_item _ _ hp Htag Hp) in Hlast.
    unfold _on_filter_model_rows_inserted.
    set (st0 := setUpdatesEnabled st false).
    assert (Hg1 : grows st (fix_parent_state st0 parent_idx)).
    { apply (grows_trans _ st0); [|apply fix_parent_state_grows].
      unfold grows. simpl. set_solver. }
    set (st1 := fix_parent_state st0 parent_idx) in *.
    destruct (fold_rows_covers st
                (fun s row =>
                   _fix_expanded_state_r depth s
                     (index (_filter_model s) row parent_idx))
                (fun row s =>
                   forall below d,
                     filter_item (_filter_model st)
                       (below ++ row :: idx_rows parent_idx) = Some d ->
                     weakref d ∈ _expanded_items st ->
                     weakref d ∈ tree_expanded s)
                (seq first (S last - first)))
      with (s := st1) as (st2 & Hfold & Hg2 & Hcov).
    + intros r s s' (_ & _ & Ht & _) Hc below d Hd Hin.
      specialize (Hc below d Hd Hin). clear - Ht Hc. set_solver.
    + intros s r Hr (Hfm & He & _).
      apply elem_of_seq in Hr as [Hr0 Hr].
      assert (Hrow : r < length (shown_rows (_filter_model st) hp)) by lia.
      assert (Hidx : index (_filter_model s) r parent_idx
                     = mkIndex OfFilter (r :: idx_rows parent_idx)).
      { unfold index. rewrite Hfm.
        rewrite (rowCount_filter_item _ _ hp Htag Hp).
        apply Nat.ltb_lt in Hrow. rewrite Hrow. reflexivity. }
      rewrite Hidx.
      destruct (shown_rows (_filter_model st) hp !! r) as [[sr c]|] eqn:Hsr.
      2:{ apply lookup_ge_None in Hsr. lia. }
      assert (Hfc : filter_item (_filter_model st) (r :: idx_rows parent_idx)
                    = Some (mkHandle (sr :: handle_rows hp) c)).
      { simpl. rewrite Hp, Hsr. reflexivity. }
      destruct (filter_item_in_source _ _ _ Hfc) as [Hsrc _].
      apply source_item_height in Hsrc.
      cbn [handle_item handle_rows length] in Hsrc.
      destruct (fix_expanded_state_covers depth s
                  (mkIndex OfFilter (r :: idx_rows parent_idx))
                  (mkHandle (sr :: handle_rows hp) c))
        as (s' & Hret & Hg & Hc); auto.
      { rewrite Hfm. exact Hfc. }
      { cbn [handle_item]. unfold src_model in Hdepth. lia. }
      exists s'. split; [exact Hret|]. split; [exact Hg|].
      intros below d Hd Hin. apply (Hc below d).
      * simpl. rewrite Hfm. exact Hd.
      * simpl in He. clear - He Hin. set_solver.
    + exact Hg1.
    + rewrite Hfold. simpl. eexists. split; [reflexivity|].
      intros row below d Hrow Hd Hin. simpl.
      refine (Hcov row _ below d Hd Hin).
      apply elem_of_seq. lia.
Qed.

Lemma expand_adds st idx :
  _auto_expanded_root_items (expand st idx) = _auto_expanded_root_items st
  /\ match _item_from_index st idx with
     | Some h =>
         tree_expanded (expand st idx) ⊆ {[weakref h]} ∪ tree_expanded st
         /\ _expanded_items (expand st idx) ⊆ {[weakref h]} ∪ _expanded_items st
     | None => expand st idx = st
     end.
Proof.
  unfold expand. destruct (_item_from_index st idx) as [h|] eqn:Hitem; [|auto].
  case_bool_decide.
  - split; [reflexivity|]. split; set_solver.
  - unfold _on_item_expanded.
    rewrite (item_from_index_same st) by reflexivity. rewrite Hitem. simpl.
    split; [reflexivity|]. split; set_solver.
Qed.

Lemma expand_keeps r st idx :
  (forall h, _item_from_index st idx = Some h -> weakref h <> r) ->
  expanded_once_and_collapsed r st ->
  expanded_once_and_collapsed r (expand st idx).
Proof.
  intros Hother (Ha & He & Ht).
  destruct (expand_adds st idx) as [Hauto Hsets].
  destruct (_item_from_index st idx) as [h|]; [|rewrite Hsets; repeat split; auto].
  specialize (Hother h eq_refl). destruct Hsets as [Ht' He'].
  unfold expanded_once_and_collapsed. rewrite Hauto.
  clear - Hother Ha He Ht Ht' He'.
  repeat split; [exact Ha| |]; set_solver.
Qed.

Lemma fix_item_state_keeps r st idx :
  expanded_once_and_collapsed r st ->
  expanded_once_and_collapsed r (fix_item_state st idx).
Proof.
  intros Hr. unfold fix_item_state.
  destruct (_item_from_index st idx) as [h|] eqn:Hitem; [|exact Hr].
  destruct (decide (weakref h = r)) as [Heq|Hne].
  - destruct Hr as (Ha & He & Ht).
    assert (Hsame : (if negb (isValid (parent idx)) then
                       if negb (bool_decide
                                  (weakref h ∈ _auto_expanded_root_items st))
                       then set_expanded_items
                              (set_auto_expanded_root_items st
                                 ({[weakref h]} ∪ _auto_expanded_root_items st))
                              ({[weakref h]} ∪
                                 _expanded_items
                                   (set_auto_expanded_root_items st
                                      ({[weakref h]} ∪ _auto_expanded_root_items st)))
                       else st
                     else st) = st).
    { destruct (negb (isValid (parent idx))); [|reflexivity].
      rewrite Heq. rewrite bool_decide_eq_true_2 by exact Ha. reflexivity. }
    cbv zeta. rewrite Hsame. rewrite Heq.
    rewrite bool_decide_eq_false_2 by exact He. repeat split; assumption.
  - cbv zeta.
    match goal with
    | |- context [bool_decide (_ ∈ _expanded_items ?s)] => set (st1 := s)
    end.
    assert (H1 : expanded_once_and_collapsed r st1
                 /\ _item_from_index st1 idx = Some h).
    { subst st1. destruct (negb (isValid (parent idx))); [|auto].
      case_bool_decide; simpl; [auto|]. split; [|exact Hitem].
      destruct Hr as (Ha & He & Ht). unfold expanded_once_and_collapsed. simpl.
      clear - Ha He Ht Hne. repeat split; set_solver. }
    destruct H1 as [Hr1 Hitem1].
    case_bool_decide; [|exact Hr1].
    apply expand_keeps; [|exact Hr1].
    intros h' Hh'. rewrite Hitem1 in Hh'. injection Hh' as <-. exact Hne.
Qed.

Lemma fold_outcome_keeps (P : EntityTreeForm -> Prop)
  (f : EntityTreeForm -> nat -> Outcome) rows :
  (forall st r, P st -> P (state_after (f st r))) ->
  forall o, P (state_after o) ->
    P (state_after (foldl (fun o row => and_then o (fun st => f st row)) o rows)).
Proof.
  intros Hf. induction rows as [|r rest IH]; intros o Ho; simpl; [exact Ho|].
  apply IH. destruct o as [s|e s]; simpl in *; [apply Hf|]; exact Ho.
Qed.

Lemma fix_expanded_state_keeps r depth : forall st idx,
  expanded_once_and_collapsed r st ->
  expanded_once_and_collapsed r (state_after (_fix_expanded_state_r depth st idx)).
Proof.
  induction depth as [|depth IH]; intros st idx Hr; simpl; [exact Hr|].
  unfold fix_children_state.
  apply (fold_outcome_keeps (expanded_once_and_collapsed r)
           (fun st0 row =>
              _fix_expanded_state_r depth st0
                (child (_filter_model st0) idx row))).
  - intros st0 row H0. apply IH. exact H0.
  - simpl. apply fix_item_state_keeps. exact Hr.
Qed.

Lemma expand_root_row_keeps r st row :
  r ∈ _auto_expanded_root_items st /\ r ∉ tree_expanded st ->
  r ∈ _auto_expanded_root_items (expand_root_row st row)
  /\ r ∉ tree_expanded (expand_root_row st row).
Proof.
  intros [Ha Ht]. unfold expand_root_row.
  set (idx := index (_filter_model st) row invalid_index).
  destruct (expand_adds st idx) as [Hauto Hsets].
  destruct (_item_from_index st idx) as [h|]; [|auto].
  case_bool_decide as Hin; [auto|].
  destruct Hsets as [Ht' _].
  assert (Hne : weakref h <> r).
  { intros Heq. apply Hin. rewrite Heq. exact Ha. }
  cbn [_auto_expanded_root_items tree_expanded set_auto_expanded_root_items].
  rewrite Hauto. clear - Ha Ht Ht' Hne. split; set_solver.
Qed.

Lemma expansion_part_auto st st' :
  expansion_part st' = expansion_part st ->
  _auto_expanded_root_items st' = _auto_expanded_root_items st.
Proof. unfold expansion_part. congruence. Qed.

Lemma expand_up_auto tag rows : forall st,
  _auto_expanded_root_items (expand_up st tag rows)
  = _auto_expanded_root_items st.
Proof.
  induction rows as [|r up IH]; intros st; simpl; [reflexivity|].
  rewrite IH. apply expand_adds.
Qed.

Lemma change_selection_expansion_part st new :
  expansion_part (change_selection st new) = expansion_part st.
Proof.
  unfold change_selection.
  destruct (List.filter _ new);
    [destruct (List.filter _ (selectedIndexes st))|];
    try reflexivity;
    match goal with
    | |- context [_on_selection_changed ?s ?a ?b] =>
        destruct (on_selection_changed_fields s a b) as (_ & _ & _ & ->)
    end; reflexivity.
Qed.

Lemma update_selection_auto st prev :
  _auto_expanded_root_items (_update_selection st prev)
  = _auto_expanded_root_items st.
Proof.
  unfold _update_selection.
  match goal with
  | |- context [blockSignals ?s (signalsBlocked st)] =>
      assert (Hmid : _auto_expanded_root_items s = _auto_expanded_root_items st)
  end.
  { destruct (item_to_select _) as [h|]; [|reflexivity].
    destruct (isValid _); [|reflexivity].
    rewrite (expansion_part_auto _ _ (setCurrentIndex_expansion_part _ _)).
    unfold scrollTo. rewrite expand_up_auto. reflexivity. }
  match goal with
  | |- context [blockSignals ?s (signalsBlocked st)] =>
      set (st4 := blockSignals s (signalsBlocked st)) in *;
      destruct (update_selection_tail st4 prev) as (He & _)
  end.
  cbv zeta in He. rewrite (expansion_part_auto _ _ He). exact Hmid.
Qed.

Lemma fix_expanded_state_auto r depth : forall st idx,
  r ∈ _auto_expanded_root_items st ->
  r ∈ _auto_expanded_root_items
        (state_after (_fix_expanded_state_r depth st idx)).
Proof.
  induction depth as [|depth IH]; intros st idx Hr; simpl; [exact Hr|].
  unfold fix_children_state.
  apply (fold_outcome_keeps (fun s => r ∈ _auto_expanded_root_items s)
           (fun st0 row =>
              _fix_expanded_state_r depth st0
                (child (_filter_model st0) idx row))).
  - intros st0 row H0. apply IH. exact H0.
  - simpl. destruct (fix_item_state_grows st idx) as [(_ & _ & _ & Ha) _].
    clear - Ha Hr. set_solver.
Qed.

Lemma rows_inserted_auto r depth st parent_idx first last :
  r ∈ _auto_expanded_root_items st ->
  r ∈ _auto_expanded_root_items
        (state_after
           (_on_filter_model_rows_inserted depth st parent_idx first last)).
Proof.
  intros Hr. unfold _on_filter_model_rows_inserted.
  rewrite state_after_finally.
  cbn [_auto_expanded_root_items setUpdatesEnabled].
  apply (fold_outcome_keeps (fun s => r ∈ _auto_expanded_root_items s)
           (fun st0 row =>
              _fix_expanded_state_r depth st0
                (index (_filter_model st0) row parent_idx))).
  - intros st0 row H0. apply fix_expanded_state_auto. exact H0.
  - simpl.
    destruct (fix_parent_state_grows (setUpdatesEnabled st false) parent_idx)
      as (_ & _ & _ & Ha).
    simpl in Ha. clear - Ha Hr. set_solver.
Qed.

(** No event takes a reference out of [_auto_expanded_root_items]. *)
Lemma handle_keeps_auto_expanded_root_items st ev r :
  r ∈ _auto_expanded_root_items st ->
  r ∈ _auto_expanded_root_items (handle st ev).
Proof.
  intros Hr. destruct ev; simpl.
  - rewrite select_entity_unfold, update_selection_auto. exact Hr.
  - unfold navigate_to. destruct (navigate_loop _ _ _); simpl; [|exact Hr].
    rewrite (expansion_part_auto _ _ (setCurrentIndex_expansion_part _ _)).
    exact Hr.
  - change (_on_search_changed st search_text)
      with (on_filter_change st (SearchText search_text)).
    rewrite on_filter_change_unfold, update_selection_auto. exact Hr.
  - change (_on_my_tasks_only_toggled st checked)
      with (on_filter_change st (MyTasksOnly checked)).
    rewrite on_filter_change_unfold, update_selection_auto. exact Hr.
  - rewrite (expansion_part_auto _ _ (change_selection_expansion_part _ _)).
    exact Hr.
  - apply rows_inserted_auto. exact Hr.
  - destruct (expand_adds st idx) as [-> _]. exact Hr.
  - unfold collapse, _on_item_collapsed.
    destruct (_item_from_index st idx) as [h|] eqn:Hitem; [|exact Hr].
    case_bool_decide; [|exact Hr].
    rewrite (item_from_index_same st) by reflexivity. rewrite Hitem. exact Hr.
  - destruct (on_new_task_fields st) as (_ & _ & _ & He). cbv zeta in He.
    rewrite (expansion_part_auto _ _ He). exact Hr.
  - exact Hr.
Qed.

(** C9: a root item whose reference is in [_auto_expanded_root_items] is
    not expanded on its own account again.  [_expand_root_rows] leaves it
    as it is in the view; and when the user has collapsed it, so that it is
    in neither the view's expanded rows nor [_expanded_items], the slot for
    inserted rows leaves it collapsed as well, however it ends.  The
    reference stays in the set, through these two and through every other
    event in the life of the widget. *)
Theorem root_item_auto_expanded_only_once st r :
  r ∈ _auto_expanded_root_items st ->
  r ∉ tree_expanded st ->
  (r ∈ _auto_expanded_root_items (_expand_root_rows st)
   /\ r ∉ tree_expanded (_expand_root_rows st))
  /\ (r ∉ _expanded_items st ->
      forall depth parent_idx first last,
        expanded_once_and_collapsed r
          (state_after
             (_on_filter_model_rows_inserted depth st parent_idx first last)))
  /\ (forall ev, r ∈ _auto_expanded_root_items (handle st ev)).
Proof.
  intros Ha Ht. split; [|split].
  - unfold _expand_root_rows. simpl.
    generalize (seq 0 (rowCount (_filter_model st) invalid_index)).
    assert (H0 : r ∈ _auto_expanded_root_items (setUpdatesEnabled st false)
                 /\ r ∉ tree_expanded (setUpdatesEnabled st false)) by auto.
    revert H0. generalize (setUpdatesEnabled st false).
    intros s Hs l. revert s Hs.
    induction l as [|row rest IH]; intros s Hs; simpl; [exact Hs|].
    apply IH. apply expand_root_row_keeps. exact Hs.
  - intros He depth parent_idx first last.
    unfold _on_filter_model_rows_inserted. rewrite state_after_finally.
    assert (Hkeep : forall s, expanded_once_and_collapsed r s ->
                      expanded_once_and_collapsed r (setUpdatesEnabled s true)).
    { intros s Hs. exact Hs. }
    apply Hkeep.
    apply (fold_outcome_keeps (expanded_once_and_collapsed r)
             (fun st0 row =>
                _fix_expanded_state_r depth st0
                  (index (_filter_model st0) row parent_idx))).
    + intros st0 row H0. apply fix_expanded_state_keeps. exact H0.
    + simpl. unfold fix_parent_state.
      assert (H0 : expanded_once_and_collapsed r (setUpdatesEnabled st false)).
      { repeat split; assumption. }
      destruct (isValid parent_idx); [|exact H0].
      destruct (_item_from_index _ parent_idx) as [h|] eqn:Hitem; [|exact H0].
      case_bool_decide as Hin; [|exact H0].
      apply expand_keeps; [|exact H0].
      intros h' Hh'. rewrite Hitem in Hh'. injection Hh' as <-.
      intros Heq. apply He. rewrite <- Heq. exact Hin.
  - intros ev. apply handle_keeps_auto_expanded_root_items. exact Ha.
Qed.

(** ** The search filter *)

Lemma starts_with_spec p : forall s,
  starts_with p s = true <-> exists after, s = p ++ after.
Proof.
  induction p as [|a p IH]; intros s; simpl.
  - split; [eauto|reflexivity].
  - destruct s as [|b s].
    + split; [discriminate|]. intros [after H]. discriminate.
    + rewrite andb_true_iff, IH. split.
      * intros [Hab [after ->]]. apply Ascii.eqb_eq in Hab as ->. eauto.
      * intros [after [= -> ->]]. split; [apply Ascii.eqb_refl|eauto].
Qed.

Lemma occurs_in_spec p : forall s,
  occurs_in p s = true <-> exists before after, s = before ++ p ++ after.
Proof.
  induction s as [|c s IH]; simpl; rewrite orb_true_iff, starts_with_spec.
  - split.
    + intros [[after H]|H]; [|discriminate]. exists "", after. exact H.
    + intros (before & after & H). left.
      destruct before; [|discriminate]. eauto.
  - rewrite IH. split.
    + intros [[after H]|(before & after & ->)].
      * exists "", after. exact H.
      * exists (String c before), after. reflexivity.
    + intros (before & after & H). destruct before as [|b before].
      * left. eauto.
      * right. simpl in H. injection H as -> ->. eauto.
Qed.

(** C7, as the code has it: [_update_filter] gives the proxy a [QRegExp]
    built from the search text that folds case and has the fixed-string
    syntax, and changes nothing else.  Such an expression matches a label
    exactly when the search text occurs in the label, letter case aside,
    whatever case folding Qt applies to the two; no character of the search
    text is special. *)
Theorem search_filter_is_fixed_string st search_text :
  let st' := _update_filter st search_text in
  filterRegExp (_filter_model st')
  = mkRegExp search_text CaseInsensitive FixedString
  /\ st' = set_filter_model st
            (mkProxy (sourceModel (_filter_model st))
               (mkRegExp search_text CaseInsensitive FixedString)
               (only_show_my_tasks (_filter_model st))
               (filterAcceptsRow (_filter_model st)))
  /\ forall (toCaseFolded : CaseFolding) label,
       regexp_matches toCaseFolded (filterRegExp (_filter_model st')) label
       = true
       <-> exists before after,
             toCaseFolded label = before ++ toCaseFolded search_text ++ after.
Proof.
  cbv zeta. split; [reflexivity|]. split; [reflexivity|].
  intros toCaseFolded label. unfold _update_filter, regexp_matches. simpl.
  apply occurs_in_spec.
Qed.

(** ** New tasks *)

Lemma app_singleton_inv {A} (l : list A) (x y : A) :
  (l ++ [x])%list = (l ++ [y])%list -> x = y.
Proof. intros H. apply app_inv_head in H. congruence. Qed.

Lemma app_singleton_neq {A} (l : list A) (x : A) : l <> (l ++ [x])%list.
Proof.
  intros H. apply (f_equal length) in H. rewrite length_app in H. simpl in H. lia.
Qed.

(** C10: a click on the new task button sends [create_new_task] at most
    once, and only when exactly one index is selected, its item has an
    entity and the entity is not a Step.  For a Task the signal carries the
    entity that the Task is linked to and the step of the Task, and nothing
    is sent for a Task without linked entity; for any other entity it
    carries the entity itself and no step.  Conversely the signal is sent
    in these cases, unless the widget blocks its signals. *)
Theorem create_new_task_only_for_selected_entity st :
  let st' := state_after (_on_new_task st) in
  (emitted st' = emitted st
   \/ exists entity step,
        emitted st' = (emitted st ++ [create_new_task entity step])%list)
  /\ (forall entity step,
        emitted st' = (emitted st ++ [create_new_task entity step])%list ->
        exists selected item selected_entity,
          selectedIndexes st = [selected]
          /\ _item_from_index st selected = Some item
          /\ item_entity (handle_item item) = Some selected_entity
          /\ sg_type selected_entity <> "Step"
          /\ if String.eqb (sg_type selected_entity) "Task"
             then sg_entity selected_entity = Some entity
                  /\ step = sg_step selected_entity
             else entity = selected_entity /\ step = None)
  /\ (forall selected item selected_entity,
        signalsBlocked st = false ->
        selectedIndexes st = [selected] ->
        _item_from_index st selected = Some item ->
        item_entity (handle_item item) = Some selected_entity ->
        sg_type selected_entity <> "Step" ->
        emitted st'
        = (emitted st ++
           if String.eqb (sg_type selected_entity) "Task"
           then match sg_entity selected_entity with
                | Some entity =>
                    [create_new_task entity (sg_step selected_entity)]
                | None => []
                end
           else [create_new_task selected_entity None])%list).
Proof.
  cbv zeta. unfold _on_new_task.
  destruct (selectedIndexes st) as [|selected [|]] eqn:Hsel;
    try (simpl; split; [auto|split];
         [intros ? ? H; destruct (app_singleton_neq _ _ H)|discriminate]).
  fold (_item_from_index st selected).
  destruct (_item_from_index st selected) as [item|] eqn:Hitem.
  2:{ destruct (negb (isValid _)); simpl;
        (split; [auto|split];
         [intros ? ? H; destruct (app_singleton_neq _ _ H)
         |intros ? ? ? _ [= <-] Hx; congruence]). }
  destruct (item_from_index_source _ _ _ Hitem) as (_ & _ & _ & Hmap & Hne & _).
  assert (Hvalid : isValid (mapToSource (_filter_model st) selected) = true).
  { rewrite Hmap. unfold isValid, index_of. simpl.
    destruct (handle_rows item); congruence. }
  rewrite Hvalid. simpl.
  destruct (item_entity (handle_item item)) as [e|] eqn:He.
  2:{ simpl. split; [auto|split];
        [intros ? ? H; destruct (app_singleton_neq _ _ H)
        |intros ? ? ? _ [= <-] Hx Hy; congruence]. }
  assert (Hthird : forall (P : Entity -> Prop),
            (signalsBlocked st = false -> sg_type e <> "Step" -> P e) ->
            forall selected0 item0 selected_entity,
              signalsBlocked st = false ->
              [selected] = [selected0] ->
              _item_from_index st selected0 = Some item0 ->
              item_entity (handle_item item0) = Some selected_entity ->
              sg_type selected_entity <> "Step" -> P selected_entity).
  { intros P HP ? ? ? Hb [= <-] Hx Hy Hz.
    assert (item0 = item) by congruence. subst item0.
    assert (selected_entity = e) by congruence. subst selected_entity.
    apply HP; assumption. }
  destruct (String.eqb_spec (sg_type e) "Step") as [Hstep|Hstep].
  { simpl. split; [auto|split];
      [intros ? ? H; destruct (app_singleton_neq _ _ H)|].
    apply Hthird. intros _ Hno. destruct (Hno Hstep). }
  assert (Hemit : forall sig,
    (signalsBlocked st = true /\ emitted (emit st sig) = emitted st)
    \/ (signalsBlocked st = false
        /\ emitted (emit st sig) = (emitted st ++ [sig])%list)).
  { intros sig. unfold emit. destruct (signalsBlocked st); simpl; auto. }
  destruct (String.eqb (sg_type e) "Task") eqn:Htask.
  - destruct (sg_entity e) as [linked|] eqn:Hlinked; simpl.
    + destruct (Hemit (create_new_task linked (sg_step e)))
        as [[Hb Hsame]|[Hb Hsent]].
      * rewrite Hsame. split; [auto|split].
        -- intros ? ? H; destruct (app_singleton_neq _ _ H).
        -- apply Hthird. intros Hb'. congruence.
      * rewrite Hsent. split; [eauto|split].
        -- intros entity step H. apply app_singleton_inv in H.
           injection H as <- <-.
           exists selected, item, e. rewrite Htask. repeat split; auto.
        -- apply Hthird. intros _ _. rewrite Htask, Hlinked. reflexivity.
    + split; [auto|split].
      * intros ? ? H; destruct (app_singleton_neq _ _ H).
      * apply Hthird. intros _ _. rewrite Htask, Hlinked.
        rewrite app_nil_r. reflexivity.
  - simpl. destruct (Hemit (create_new_task e None))
      as [[Hb Hsame]|[Hb Hsent]].
    + rewrite Hsame. split; [auto|split].
      * intros ? ? H; destruct (app_singleton_neq _ _ H).
      * apply Hthird. intros Hb'. congruence.
    + rewrite Hsent. split; [eauto|split].
      * intros entity step H. apply app_singleton_inv in H.
        injection H as <- <-.
        exists selected, item, e. rewrite Htask. repeat split; auto.
      * apply Hthird. intros _ _. rewrite Htask. reflexivity.
Qed.

(** * The properties on the small production *)

Lemma in_by_evaluation (r : nat) (X : gset nat) :
  bool_decide (r ∈ X) = true -> r ∈ X.
Proof. apply bool_decide_eq_true_1. Qed.

Lemma not_in_by_evaluation (r : nat) (X : gset nat) :
  bool_decide (r ∈ X) = false -> r ∉ X.
Proof. apply bool_decide_eq_false_1. Qed.

(** C1, as the spec has it, fails on the example.  The user has selected
    the animation step of the first shot, whose entity is the Step with id
    5; my-tasks-only then hides the first shot.  The proxy still shows a
    node with that entity, the animation step of the second shot, but the
    widget looks for the node it knew and selects nothing. *)
Lemma C1_counterexample :
  let st := step_a_selected in
  let st' := on_filter_change st (MyTasksOnly true) in
  let other := mkHandle [0; 1] step_b_item in
  reachable st
  /\ option_map entity_identity (get_entity (_get_selected_item st))
     = Some ("Step", 5%Z)
  /\ source_item (src_model st') (handle_rows other) = Some other
  /\ option_map entity_identity (get_entity (Some other)) = Some ("Step", 5%Z)
  /\ isValid (mapFromSource (_filter_model st') (index_of other)) = true
  /\ _get_selected_item st' = None
  /\ selectedIndexes st' = [].
Proof.
  cbv zeta. split.
  - apply reachable_handle, reachable_init.
  - repeat split; vm_compute; reflexivity.
Qed.

Lemma filter_change_restores_current_node_witness :
  let st := step_a_selected in
  _entity_to_select st = None
  /\ _current_item_ref st = Some 2
  /\ (let st' := on_filter_change st (MyTasksOnly false) in
      _current_item_ref st' = Some 2
      /\ _entity_to_select st' = None
      /\ match deref (src_model st) 2 with
         | Some h =>
             if isValid (mapFromSource (filter_after st (MyTasksOnly false))
                           (index_of h))
             then weakref h = 2
                  /\ _get_selected_item st' = Some h
                  /\ selectedIndexes st'
                     = [mapFromSource (filter_after st (MyTasksOnly false))
                          (index_of h)]
             else selectedIndexes st' = []
         | None => selectedIndexes st' = []
         end).
Proof.
  cbv zeta. split; [vm_compute; reflexivity|].
  split; [vm_compute; reflexivity|].
  apply (filter_change_restores_current_node step_a_selected
           (MyTasksOnly false) 2); vm_compute; reflexivity.
Defined.

Lemma selection_target_and_current_item_exclusive_witness :
  (let st := task_a_pending in
   let shot_b_idx := mkIndex OfFilter [0] in
   reachable st
   /\ _entity_to_select st = Some ("Task", 10%Z)
   /\ _current_item_ref st = None
   /\ List.filter (fun i => negb (index_in i (selectedIndexes st)))
        [shot_b_idx] = [shot_b_idx]
   /\ _item_from_index st shot_b_idx = Some (mkHandle [1] shot_b_item)
   /\ ~ (is_Some (_entity_to_select st) /\ is_Some (_current_item_ref st))
   /\ (let st' := change_selection st [shot_b_idx] in
       _current_item_ref st' = Some 4 /\ _entity_to_select st' = None))
  /\ (let st := step_a_selected in
      reachable st
      /\ _entity_to_select st = None
      /\ _current_item_ref st = Some 2
      /\ item_from_entity (src_model st) "Task" 99 = None
      /\ (let st' := select_entity st "Task" 99 in
          _entity_to_select st' = Some ("Task", 99%Z)
          /\ _current_item_ref st' = None)).
Proof.
  cbv zeta. split.
  - assert (H : reachable task_a_pending).
    { apply reachable_handle, reachable_handle, reachable_init. }
    assert (Ht : _entity_to_select task_a_pending = Some ("Task", 10%Z))
      by (vm_compute; reflexivity).
    assert (Hr : _current_item_ref task_a_pending = None)
      by (vm_compute; reflexivity).
    assert (Hnew : List.filter
                     (fun i => negb (index_in i (selectedIndexes task_a_pending)))
                     [mkIndex OfFilter [0]] = [mkIndex OfFilter [0]])
      by (vm_compute; reflexivity).
    assert (Hitem : _item_from_index task_a_pending (mkIndex OfFilter [0])
                    = Some (mkHandle [1] shot_b_item))
      by (vm_compute; reflexivity).
    repeat (split; [assumption|]).
    destruct (selection_target_and_current_item_exclusive task_a_pending H)
      as (Hex & _ & Huser).
    split; [exact Hex|].
    exact (Huser [mkIndex OfFilter [0]] _ _ Hnew Hitem).
  - assert (H : reachable step_a_selected).
    { apply reachable_handle, reachable_init. }
    assert (Ht : _entity_to_select step_a_selected = None)
      by (vm_compute; reflexivity).
    assert (Hr : _current_item_ref step_a_selected = Some 2)
      by (vm_compute; reflexivity).
    assert (Hitem : item_from_entity (src_model step_a_selected) "Task" 99
                    = None)
      by (vm_compute; reflexivity).
    repeat (split; [assumption|]).
    destruct (selection_target_and_current_item_exclusive step_a_selected H)
      as (_ & Hcall & _).
    specialize (Hcall "Task" 99%Z). cbv zeta in Hcall.
    rewrite Hitem in Hcall. exact Hcall.
Defined.

Lemma pending_target_consumed_when_selected_witness :
  (let st := example_form in
   let h := mkHandle [0; 0; 1] task_b_item in
   item_from_entity (src_model st) "Task" 11 = Some h
   /\ isValid (mapFromSource (_filter_model st) (index_of h)) = true
   /\ _get_selected_item (select_entity st "Task" 11) = Some h
   /\ _entity_to_select (select_entity st "Task" 11) = None)
  /\ (let st := task_a_pending in
      let h := mkHandle [0; 0; 0] task_a_item in
      let c := MyTasksOnly false in
      item_from_entity (src_model st) "Task" 10 = Some h
      /\ _entity_to_select st = Some ("Task", 10%Z)
      /\ isValid (mapFromSource (filter_after st c) (index_of h)) = true
      /\ _get_selected_item (on_filter_change st c) = Some h
      /\ _entity_to_select (on_filter_change st c) = None).
Proof.
  cbv zeta. split.
  - assert (Hitem : item_from_entity (src_model example_form) "Task" 11
                    = Some (mkHandle [0; 0; 1] task_b_item))
      by (vm_compute; reflexivity).
    assert (Hshown : isValid (mapFromSource (_filter_model example_form)
                                (index_of (mkHandle [0; 0; 1] task_b_item)))
                     = true) by (vm_compute; reflexivity).
    destruct (pending_target_consumed_when_selected example_form "Task" 11
                (mkHandle [0; 0; 1] task_b_item) Hitem) as [Hnow _].
    destruct (Hnow Hshown) as (_ & Hsel & Htarget & _).
    repeat split; assumption.
  - assert (Hitem : item_from_entity (src_model task_a_pending) "Task" 10
                    = Some (mkHandle [0; 0; 0] task_a_item))
      by (vm_compute; reflexivity).
    assert (Hpending : _entity_to_select task_a_pending = Some ("Task", 10%Z))
      by (vm_compute; reflexivity).
    assert (Hshown : isValid (mapFromSource
                                (filter_after task_a_pending (MyTasksOnly false))
                                (index_of (mkHandle [0; 0; 0] task_a_item)))
                     = true) by (vm_compute; reflexivity).
    destruct (pending_target_consumed_when_selected task_a_pending "Task" 10
                (mkHandle [0; 0; 0] task_a_item) Hitem) as [_ Hlater].
    destruct (Hlater (MyTasksOnly false) Hpending Hshown)
      as (_ & Hsel & Htarget & _).
    repeat split; assumption.
Defined.

(** C4, as the spec has it, fails on the example: the selected task is the
    child of a step, and the trail has a breadcrumb for the step and one for
    the task, with labels of their own. *)
Lemma C4_counterexample :
  let st := task_a_selected in
  let trail :=
    [_EntityBreadcrumb "<b>Shot</b> A" shot_a;
     _EntityBreadcrumb "<b>Step</b> Anim" step_anim;
     _EntityBreadcrumb "<b>Task</b> animate" task_a] in
  reachable st
  /\ option_map handle_item (_get_selected_item st) = Some task_a_item
  /\ _build_breadcrumb_trail st = TrailList trail
  /\ step_task_collapsed trail = false.
Proof.
  cbv zeta. split.
  - apply reachable_handle, reachable_init.
  - repeat split; vm_compute; reflexivity.
Qed.

Lemma breadcrumb_trail_follows_path_witness :
  let st := task_a_selected in
  let selected := mkIndex OfFilter [0; 0; 0] in
  let h := mkHandle [0; 0; 0] task_a_item in
  selectedIndexes st = [selected]
  /\ _item_from_index st selected = Some h
  /\ _build_breadcrumb_trail st
     = TrailList (map breadcrumb_of (path_items (src_model st) (handle_rows h)))
  /\ length (path_items (src_model st) (handle_rows h)) = 3.
Proof.
  cbv zeta.
  assert (Hsel : selectedIndexes task_a_selected = [mkIndex OfFilter [0; 0; 0]])
    by (vm_compute; reflexivity).
  assert (Hitem : _item_from_index task_a_selected (mkIndex OfFilter [0; 0; 0])
                  = Some (mkHandle [0; 0; 0] task_a_item))
    by (vm_compute; reflexivity).
  destruct (breadcrumb_trail_follows_path task_a_selected _ _ Hsel Hitem)
    as (Htrail & Hlen & _).
  repeat split; assumption.
Defined.



(** ** Missing data *)

(** The operations that answer with empty results when there is nothing
    to work on: an invalid index, an index without item, no single
    selected index. *)
Lemma empty_results_on_missing_state st :
  (forall idx, isValid idx = false -> _get_entity_details st idx = EmptyDict)
  /\ (forall idx, _item_from_index st idx = None ->
        _get_entity_details st idx = EmptyDict)
  /\ (length (selectedIndexes st) <> 1 ->
      get_selection st = (EmptyDict, TrailList [])
      /\ _build_breadcrumb_trail st = TrailEmptyDict
      /\ _get_selected_item st = None).
Proof.
  split; [|split].
  - intros idx Hv. unfold _get_entity_details. rewrite Hv. reflexivity.
  - intros idx Hitem. unfold _get_entity_details. rewrite Hitem.
    destruct (negb (isValid idx)); reflexivity.
  - intros Hlen. unfold get_selection, _build_breadcrumb_trail, _get_selected_item.
    destruct (selectedIndexes st) as [|i [|]]; simpl in *; auto; lia.
Qed.

(** [navigate_to] subscripts the entity of every child that it looks at for
    an entity breadcrumb; a first child without entity makes it raise. *)
Lemma navigate_to_raises_below_row_without_entity st label entity rest c cs :
  model_rows (src_model st) = c :: cs ->
  item_entity c = None ->
  navigate_to st (_EntityBreadcrumb label entity :: rest) = Raises TypeError st.
Proof.
  intros Hrows Hnone. unfold navigate_to.
  assert (Hloop : navigate_loop (_filter_model st)
                    (invisibleRootItem (src_model st))
                    (_EntityBreadcrumb label entity :: rest) = Raise TypeError).
  { cbn [navigate_loop]. unfold item_rowCount, invisibleRootItem.
    cbn [handle_item item_rows]. rewrite Hrows.
    cbn [length seq find_entity_child]. unfold item_child.
    cbn [handle_item item_rows lookup list_lookup].
    cbn [get_entity handle_item]. rewrite Hnone. reflexivity. }
  rewrite Hloop. reflexivity.
Qed.

(** C6 fails in [navigate_to]: in a model whose first top-level row is a
    node without entity, the second row is selected and its trail is
    captured; [navigate_to] with that trail raises a TypeError, where the
    other operations of the widget skip a missing entity. *)
Theorem navigate_to_raises_on_missing_entity :
  let st := handle unlinked_form (SelectionMade [mkIndex OfFilter [1]]) in
  let trail := [_EntityBreadcrumb "<b>Shot</b> B" shot_b] in
  reachable st
  /\ get_entity (source_item (src_model st) [0]) = None
  /\ snd (get_selection st) = TrailList trail
  /\ navigate_to st trail = Raises TypeError st.
Proof.
  cbv zeta. split; [apply reachable_handle, reachable_init|].
  split; [vm_compute; reflexivity|]. split; [vm_compute; reflexivity|].
  eapply navigate_to_raises_below_row_without_entity;
    [vm_compute; reflexivity|reflexivity].
Qed.

(** C7, as the spec has it, fails on the example: with the search text
    "An.m" the filter expression of the proxy does not match the label
    "Anim", which the text read as a regular expression matches.  Both
    texts are ASCII. *)
Lemma C7_counterexample :
  let st := _update_filter example_form "An.m" in
  let re := filterRegExp (_filter_model st) in
  patternSyntax re <> RegExp
  /\ regexp_matches fold_ascii re "Anim" = false
  /\ regexp_matches fold_ascii (mkRegExp "An.m" CaseInsensitive RegExp) "Anim"
     = true.
Proof.
  cbv zeta. repeat split; [vm_compute; discriminate|vm_compute; reflexivity..].
Qed.

Lemma expanded_items_kept_and_reapplied_witness :
  let st := example_form_folded in
  let shot_b_handle := mkHandle [1] shot_b_item in
  1 < rowCount (_filter_model st) invalid_index
  /\ model_depth (src_model st) <= 4
  /\ filter_item (_filter_model st) [1] = Some shot_b_handle
  /\ (weakref shot_b_handle ∈ _expanded_items st)
  /\ (weakref shot_b_handle ∉ tree_expanded st)
  /\ exists st',
       _on_filter_model_rows_inserted 4 st invalid_index 0 1 = Returns st'
       /\ (weakref shot_b_handle ∈ tree_expanded st').
Proof.
  cbv zeta.
  assert (Hlast : 1 < rowCount (_filter_model example_form_folded) invalid_index)
    by (vm_compute; lia).
  assert (Hdepth : model_depth (src_model example_form_folded) <= 4)
    by (vm_compute; lia).
  assert (Hitem : filter_item (_filter_model example_form_folded) ([] ++ [1])
                  = Some (mkHandle [1] shot_b_item))
    by (vm_compute; reflexivity).
  assert (Hin : weakref (mkHandle [1] shot_b_item)
                ∈ _expanded_items example_form_folded)
    by (apply in_by_evaluation; vm_compute; reflexivity).
  assert (Hout : weakref (mkHandle [1] shot_b_item)
                 ∉ tree_expanded example_form_folded)
    by (apply not_in_by_evaluation; vm_compute; reflexivity).
  repeat (split; [assumption|]).
  destruct (expanded_items_kept_and_reapplied example_form_folded)
    as (_ & _ & Hinserted).
  destruct (Hinserted 4 invalid_index 0 1 Hlast Hdepth) as (st' & Hret & Hcov).
  exists st'. split; [exact Hret|].
  apply (Hcov 1 [] (mkHandle [1] shot_b_item)); [lia|exact Hitem|exact Hin].
Defined.

Lemma root_item_auto_expanded_only_once_witness :
  let st := shot_a_collapsed in
  (1 ∈ _auto_expanded_root_items st)
  /\ (1 ∉ tree_expanded st)
  /\ (1 ∉ _expanded_items st)
  /\ (1 ∉ tree_expanded (_expand_root_rows st))
  /\ (1 ∉ tree_expanded
         (state_after (_on_filter_model_rows_inserted 4 st invalid_index 0 1))).
Proof.
  cbv zeta.
  assert (Hauto : 1 ∈ _auto_expanded_root_items shot_a_collapsed)
    by (apply in_by_evaluation; vm_compute; reflexivity).
  assert (Hview : 1 ∉ tree_expanded shot_a_collapsed)
    by (apply not_in_by_evaluation; vm_compute; reflexivity).
  assert (Hset : 1 ∉ _expanded_items shot_a_collapsed)
    by (apply not_in_by_evaluation; vm_compute; reflexivity).
  destruct (root_item_auto_expanded_only_once shot_a_collapsed 1 Hauto Hview)
    as ([_ Hroot] & Hinserted & _).
  destruct (Hinserted Hset 4 invalid_index 0 1) as (_ & _ & Hafter).
  exact (conj Hauto (conj Hview (conj Hset (conj Hroot Hafter)))).
Defined.

Lemma create_new_task_only_for_selected_entity_witness :
  let st := task_a_selected in
  let selected := mkIndex OfFilter [0; 0; 0] in
  let item := mkHandle [0; 0; 0] task_a_item in
  signalsBlocked st = false
  /\ selectedIndexes st = [selected]
  /\ _item_from_index st selected = Some item
  /\ item_entity (handle_item item) = Some task_a
  /\ sg_type task_a <> "Step"
  /\ emitted (state_after (_on_new_task st))
     = (emitted st ++ [create_new_task shot_a (Some step_anim)])%list.
Proof.
  cbv zeta.
  assert (Hb : signalsBlocked task_a_selected = false)
    by (vm_compute; reflexivity).
  assert (Hsel : selectedIndexes task_a_selected = [mkIndex OfFilter [0; 0; 0]])
    by (vm_compute; reflexivity).
  assert (Hitem : _item_from_index task_a_selected (mkIndex OfFilter [0; 0; 0])
                  = Some (mkHandle [0; 0; 0] task_a_item))
    by (vm_compute; reflexivity).
  assert (He : item_entity (handle_item (mkHandle [0; 0; 0] task_a_item))
               = Some task_a) by reflexivity.
  assert (Hstep : sg_type task_a <> "Step") by discriminate.
  repeat (split; [assumption|]).
  destruct (create_new_task_only_for_selected_entity task_a_selected)
    as (_ & _ & Hsent).
  apply (Hsent _ _ _ Hb Hsel Hitem He Hstep).
Defined.

(** * More of the widget *)

(** ** What the selection tells the outside *)

Lemma get_entity_details_same st st' idx :
  _filter_model st' = _filter_model st ->
  _collapse_steps_with_tasks st' = _collapse_steps_with_tasks st ->
  _get_entity_details st' idx = _get_entity_details st idx.
Proof.
  unfold _get_entity_details, details_of_child, collapse_grandchild,
    _item_from_index, src_model.
  intros -> ->. reflexivity.
Qed.

Lemma build_breadcrumb_trail_same st st' :
  selectedIndexes st' = selectedIndexes st ->
  _filter_model st' = _filter_model st ->
  _build_breadcrumb_trail st' = _build_breadcrumb_trail st.
Proof.
  unfold _build_breadcrumb_trail, src_model. intros -> ->. reflexivity.
Qed.

Lemma expansion_part_fields st st' :
  expansion_part st' = expansion_part st ->
  _filter_model st' = _filter_model st
  /\ signalsBlocked st' = signalsBlocked st
  /\ _collapse_steps_with_tasks st' = _collapse_steps_with_tasks st.
Proof. unfold expansion_part. intros H. repeat split; congruence. Qed.

(** The details for an index of the source model are empty: the widget
    reads its indexes as indexes of the proxy. *)
Lemma get_entity_details_of_source_index st h :
  _get_entity_details st (index_of h) = EmptyDict.
Proof.
  unfold _get_entity_details.
  destruct (negb (isValid (index_of h))); [reflexivity|].
  rewrite item_from_index_of_source by reflexivity. reflexivity.
Qed.

Lemma emit_emitted st sig :
  emitted (emit st sig)
  = (emitted st ++ if signalsBlocked st then [] else [sig])%list.
Proof.
  unfold emit. destruct (signalsBlocked st); simpl;
    [rewrite app_nil_r|]; reflexivity.
Qed.

Lemma emit_same st sig :
  selectedIndexes (emit st sig) = selectedIndexes st
  /\ _filter_model (emit st sig) = _filter_model st
  /\ signalsBlocked (emit st sig) = signalsBlocked st
  /\ new_task_btn_enabled (emit st sig) = new_task_btn_enabled st.
Proof.
  unfold emit. destruct (signalsBlocked st) eqn:Hb; simpl; rewrite ?Hb;
    repeat split; reflexivity.
Qed.

(** What [_on_selection_changed] sends. *)
Lemma on_selection_changed_emitted st selected deselected :
  emitted (_on_selection_changed st selected deselected)
  = (emitted st ++
     if signalsBlocked st then []
     else [entity_selected
             (Some match selected with
                   | [idx] => _get_entity_details st idx
                   | _ => EmptyDict
                   end)
             (_build_breadcrumb_trail st)])%list.
Proof.
  unfold _on_selection_changed.
  set (item := match selected with [idx] => _item_from_index st idx | _ => None end).
  set (details := match selected with
                  | [idx] => _get_entity_details st idx
                  | _ => EmptyDict
                  end).
  assert (Hpair :
    match selected with
    | [idx] => (_get_entity_details st idx, _item_from_index st idx)
    | _ => (EmptyDict, None)
    end = (details, item)).
  { subst item details. destruct selected as [|idx [|]]; reflexivity. }
  rewrite Hpair. cbv zeta. unfold _emit_entity_selected.
  rewrite emit_emitted.
  destruct item; simpl; reflexivity.
Qed.

Lemma on_selection_changed_button st selected deselected :
  new_task_btn_enabled (_on_selection_changed st selected deselected)
  = new_task_btn_enabled (_update_ui st).
Proof.
  unfold _on_selection_changed.
  destruct (match selected with
            | [idx] => (_get_entity_details st idx, _item_from_index st idx)
            | _ => (EmptyDict, None)
            end) as [d item].
  unfold _emit_entity_selected.
  match goal with |- context [emit ?s ?x] =>
    destruct (emit_same s x) as (_ & _ & _ & ->) end.
  destruct item; reflexivity.
Qed.

Lemma change_selection_blocked st new :
  signalsBlocked st = true ->
  emitted (change_selection st new) = emitted st
  /\ _filter_model (change_selection st new) = _filter_model st.
Proof.
  intros Hb. split; [|apply expansion_part_fields,
                       change_selection_expansion_part].
  unfold change_selection.
  destruct (List.filter _ new);
    [destruct (List.filter _ (selectedIndexes st))|];
    try reflexivity;
    rewrite on_selection_changed_emitted;
    cbn [signalsBlocked set_selectedIndexes emitted];
    rewrite Hb, app_nil_r; reflexivity.
Qed.

(** What the reconciliation step sends: nothing while the widget blocks
    its signals or when the selected item is the one that was selected
    before, and one [entity_selected] otherwise, whose details are empty
    for a selected item. *)
Lemma update_selection_emitted st prev :
  let st' := _update_selection st prev in
  emitted st'
  = (emitted st ++
     if signalsBlocked st then []
     else if other_object (_get_selected_item st') prev
          then [entity_selected
                  (option_map (fun _ => EmptyDict) (_get_selected_item st'))
                  (_build_breadcrumb_trail st')]
          else [])%list
  /\ signalsBlocked st' = signalsBlocked st
  /\ _filter_model st' = _filter_model st.
Proof.
  cbv zeta. unfold _update_selection.
  match goal with
  | |- context [blockSignals ?s (signalsBlocked st)] =>
      assert (Hmid : emitted s = emitted st
                     /\ _filter_model s = _filter_model st)
  end.
  { destruct (item_to_select _) as [h|]; [|auto].
    destruct (isValid _) eqn:Hvalid; [|auto].
    set (s1 := scrollTo _ _).
    assert (H1 : selection_part s1 = selection_part (blockSignals st true))
      by apply scrollTo_selection_part.
    destruct (selection_part_fields _ _ H1) as (_ & _ & _ & Hfm & Hb & Hem).
    destruct (change_selection_blocked s1
                (if isValid (mapFromSource (_filter_model (blockSignals st true))
                               (index_of h))
                 then [mapFromSource (_filter_model (blockSignals st true))
                         (index_of h)]
                 else []))
      as [Hem' Hfm']; [rewrite Hb; reflexivity|].
    unfold setCurrentIndex. split; [rewrite Hem'; exact Hem|].
    rewrite Hfm'. exact Hfm. }
  destruct Hmid as [Hem Hfm].
  match goal with
  | |- context [blockSignals ?s (signalsBlocked st)] =>
      set (st4 := blockSignals s (signalsBlocked st)) in *
  end.
  assert (Hem4 : emitted st4 = emitted st) by exact Hem.
  assert (Hb4 : signalsBlocked st4 = signalsBlocked st) by reflexivity.
  assert (Hfm4 : _filter_model st4 = _filter_model st) by exact Hfm.
  destruct (other_object (_get_selected_item st4) prev) eqn:Hother.
  - unfold _emit_entity_selected.
    match goal with |- context [emit st4 ?x] =>
      destruct (emit_same st4 x) as (Hs & Hf & Hb & _);
      rewrite (emit_emitted st4 x); set (st5 := emit st4 x) in *
    end.
    rewrite (get_selected_item_same st4 st5 Hs Hf), Hother.
    rewrite (build_breadcrumb_trail_same st4 st5 Hs Hf).
    rewrite Hem4, Hb4, Hb, Hf. repeat split; [|assumption..].
    destruct (signalsBlocked st); [reflexivity|].
    destruct (_get_selected_item st4) as [h|]; simpl; [|reflexivity].
    rewrite get_entity_details_of_source_index. reflexivity.
  - rewrite Hother, Hem4. repeat split; [|assumption..].
    destruct (signalsBlocked st); rewrite app_nil_r; reflexivity.
Qed.

(** X1: [select_entity] sends [entity_selected] exactly when it ends with
    another item selected than before, or with none where there was one,
    and the widget does not block its signals; it sends nothing otherwise.
    The details that go out for a selected item are the empty dictionary,
    because the index handed to [_get_entity_details] is an index of the
    source model. *)
Theorem select_entity_sends_entity_selected st entity_type entity_id :
  let st' := select_entity st entity_type entity_id in
  emitted st'
  = (emitted st ++
     if signalsBlocked st then []
     else if other_object (_get_selected_item st') (_get_selected_item st)
          then [entity_selected
                  (option_map (fun _ => EmptyDict) (_get_selected_item st'))
                  (_build_breadcrumb_trail st')]
          else [])%list.
Proof.
  cbv zeta. rewrite select_entity_unfold.
  match goal with
  | |- context [_update_selection ?s ?p] =>
      destruct (update_selection_emitted s p) as (Hem & _ & _)
  end.
  cbv zeta in Hem. exact Hem.
Qed.

(** X2: a change of the filter that leaves the selected node shown is
    silent: the node is selected again and no signal goes out. *)
Theorem filter_change_keeping_node_is_silent st c h h' :
  _entity_to_select st = None ->
  _get_selected_item st = Some h ->
  _current_item_ref st = Some (weakref h) ->
  deref (src_model st) (weakref h) = Some h' ->
  isValid (mapFromSource (filter_after st c) (index_of h')) = true ->
  let st' := on_filter_change st c in
  emitted st' = emitted st
  /\ _get_selected_item st' = Some h'
  /\ weakref h' = weakref h.
Proof.
  intros Htarget Hsel Href Hderef Hshown. cbv zeta.
  rewrite on_filter_change_unfold.
  set (st1 := set_filter_model (_update_ui (set_selectedIndexes st []))
                (filter_after st c)).
  assert (Hm : src_model st1 = src_model st) by (destruct c; reflexivity).
  assert (Hlook : item_to_select st1 = Some h').
  { unfold item_to_select.
    cbn [st1 _entity_to_select _current_item_ref set_filter_model _update_ui
      new_task_btn_setEnabled set_selectedIndexes].
    rewrite Htarget, Href. fold st1. rewrite Hm. exact Hderef. }
  destruct (update_selection_selects st1 (_get_selected_item st) h')
    as (_ & Hg & _); auto.
  destruct (update_selection_emitted st1 (_get_selected_item st)) as (Hem & _).
  cbv zeta in Hem, Hg.
  assert (Hw : weakref h' = weakref h).
  { apply (find_among_found (src_model st)) in Hderef as [_ Hp].
    apply Nat.eqb_eq in Hp. exact Hp. }
  split; [|auto].
  rewrite Hem, Hg, Hsel. simpl. rewrite Hw, Nat.eqb_refl. simpl.
  destruct (signalsBlocked _); apply app_nil_r.
Qed.

(** X3: a change of the filter that hides the selected node, or finds it
    gone from the model, leaves nothing selected and sends one
    [entity_selected] without details, with the empty dictionary for the
    trail. *)
Theorem filter_change_hiding_node_sends_none st c h :
  _entity_to_select st = None ->
  _get_selected_item st = Some h ->
  _current_item_ref st = Some (weakref h) ->
  match deref (src_model st) (weakref h) with
  | Some h' => isValid (mapFromSource (filter_after st c) (index_of h')) = false
  | None => True
  end ->
  signalsBlocked st = false ->
  let st' := on_filter_change st c in
  selectedIndexes st' = []
  /\ emitted st' = (emitted st ++ [entity_selected None TrailEmptyDict])%list.
Proof.
  intros Htarget Hsel Href Hhidden Hb. cbv zeta.
  rewrite on_filter_change_unfold.
  set (st1 := set_filter_model (_update_ui (set_selectedIndexes st []))
                (filter_after st c)).
  assert (Hm : src_model st1 = src_model st) by (destruct c; reflexivity).
  assert (Hlook : item_to_select st1 = deref (src_model st) (weakref h)).
  { unfold item_to_select.
    cbn [st1 _entity_to_select _current_item_ref set_filter_model _update_ui
      new_task_btn_setEnabled set_selectedIndexes].
    rewrite Htarget, Href. fold st1. rewrite Hm. reflexivity. }
  destruct (update_selection_leaves st1 (_get_selected_item st))
    as (Hs & _); auto.
  { rewrite Hlook. exact Hhidden. }
  destruct (update_selection_emitted st1 (_get_selected_item st)) as (Hem & _).
  cbv zeta in Hem, Hs. split; [exact Hs|].
  set (st' := _update_selection st1 (_get_selected_item st)) in *.
  assert (Hg : _get_selected_item st' = None).
  { unfold _get_selected_item. rewrite Hs. reflexivity. }
  assert (Htrail : _build_breadcrumb_trail st' = TrailEmptyDict).
  { unfold _build_breadcrumb_trail. rewrite Hs. reflexivity. }
  rewrite Hem, Hg, Htrail, Hsel.
  change (signalsBlocked st1) with (signalsBlocked st). rewrite Hb.
  reflexivity.
Qed.

(** X4: a change of the filter changes the one setting of the proxy that
    it is about: the search keeps the my-tasks-only flag, the flag keeps the
    search, and the source model stays.  The widget blocks its signals
    afterwards exactly as it did before. *)
Theorem filter_change_changes_one_setting st c :
  let st' := on_filter_change st c in
  sourceModel (_filter_model st') = sourceModel (_filter_model st)
  /\ filterAcceptsRow (_filter_model st') = filterAcceptsRow (_filter_model st)
  /\ signalsBlocked st' = signalsBlocked st
  /\ match c with
     | SearchText search_text =>
         filterRegExp (_filter_model st')
         = mkRegExp search_text CaseInsensitive FixedString
         /\ only_show_my_tasks (_filter_model st')
            = only_show_my_tasks (_filter_model st)
     | MyTasksOnly checked =>
         only_show_my_tasks (_filter_model st') = checked
         /\ filterRegExp (_filter_model st') = filterRegExp (_filter_model st)
     end.
Proof.
  cbv zeta. rewrite on_filter_change_unfold.
  match goal with
  | |- context [_update_selection ?s ?p] =>
      destruct (update_selection_emitted s p) as (_ & Hb & Hfm)
  end.
  cbv zeta in Hb, Hfm. rewrite Hb, Hfm.
  destruct c; simpl; auto.
Qed.

(** X5: the slot for inserted rows is about the expanded rows alone.
    Whether it returns or raises, the selection, the pending target, the
    current node, the filter and the signals sent are as before, and the
    view takes paint updates again. *)
Theorem rows_inserted_touches_expansion_only depth st parent_idx first last :
  let st' :=
    state_after
      (_on_filter_model_rows_inserted depth st parent_idx first last) in
  selectedIndexes st' = selectedIndexes st
  /\ _entity_to_select st' = _entity_to_select st
  /\ _current_item_ref st' = _current_item_ref st
  /\ _filter_model st' = _filter_model st
  /\ emitted st' = emitted st
  /\ updatesEnabled st' = true.
Proof.
  cbv zeta.
  destruct (selection_part_fields _ _
              (rows_inserted_selection_part depth st parent_idx first last))
    as (Ht & Hr & Hs & Hfm & _ & Hem).
  repeat split; try assumption.
  unfold _on_filter_model_rows_inserted. rewrite state_after_finally.
  reflexivity.
Qed.

(** X6: [select_entity] for an entity that the model does not have, has
    for another entity type, or has in a row that the proxy hides, selects
    nothing and keeps the target pending. *)
Theorem select_entity_keeps_target_pending st entity_type entity_id :
  match item_from_entity (src_model st) entity_type entity_id with
  | Some h => isValid (mapFromSource (_filter_model st) (index_of h)) = false
  | None => True
  end ->
  let st' := select_entity st entity_type entity_id in
  _entity_to_select st' = Some (entity_type, entity_id)
  /\ _current_item_ref st' = None
  /\ selectedIndexes st' = [].
Proof.
  intros Hmissing. cbv zeta. rewrite select_entity_unfold.
  match goal with
  | |- context [_update_selection ?s ?p] =>
      destruct (update_selection_leaves s p) as (Hs & Hr & Ht & _)
  end; [reflexivity| |cbv zeta in *; rewrite Hs, Hr, Ht; auto].
  unfold item_to_select. cbn.
  destruct (String.eqb _ entity_type); [exact Hmissing|exact I].
Qed.

(** X7: the new task button and its slot agree.  [_update_ui] enables the
    button exactly for the selections for which a click sends
    [create_new_task]; with the button enabled the click returns. *)
Theorem new_task_button_matches_slot st :
  signalsBlocked st = false ->
  (new_task_btn_enabled (_update_ui st) = true
   <-> exists entity step,
         _on_new_task st = Returns (emit st (create_new_task entity step))
         /\ emitted (state_after (_on_new_task st))
            = (emitted st ++ [create_new_task entity step])%list).
Proof.
  intros Hb.
  assert (Hsent : forall sig,
            emitted (emit st sig) = (emitted st ++ [sig])%list).
  { intros sig. rewrite emit_emitted, Hb. reflexivity. }
  assert (Hquiet : forall entity step,
            emitted st <> (emitted st ++ [create_new_task entity step])%list).
  { intros entity step. apply app_singleton_neq. }
  unfold _update_ui, _on_new_task. simpl.
  destruct (selectedIndexes st) as [|selected [|]] eqn:Hsel; simpl;
    try (split; [discriminate|intros (? & ? & _ & H); destruct (Hquiet _ _ H)]).
  fold (_item_from_index st selected).
  destruct (_item_from_index st selected) as [item|] eqn:Hitem.
  2:{ simpl. split; [discriminate|]. intros (? & ? & _ & H).
      destruct (negb (isValid _)); simpl in H; destruct (Hquiet _ _ H). }
  destruct (item_from_index_source _ _ _ Hitem) as (_ & _ & _ & Hmap & Hne & _).
  assert (Hvalid : isValid (mapToSource (_filter_model st) selected) = true).
  { rewrite Hmap. unfold isValid, index_of. simpl.
    destruct (handle_rows item); congruence. }
  rewrite Hvalid. simpl.
  destruct (item_entity (handle_item item)) as [e|]; simpl.
  2:{ split; [discriminate|intros (? & ? & _ & H); destruct (Hquiet _ _ H)]. }
  destruct (String.eqb (sg_type e) "Step"); simpl.
  { split; [discriminate|intros (? & ? & _ & H); destruct (Hquiet _ _ H)]. }
  destruct (String.eqb (sg_type e) "Task"); simpl.
  - destruct (sg_entity e) as [linked|]; simpl.
    + split; [intros _|reflexivity].
      exists linked, (sg_step e). split; [reflexivity|apply Hsent].
    + split; [discriminate|intros (? & ? & _ & H); destruct (Hquiet _ _ H)].
  - split; [intros _|reflexivity].
    exists e, None. split; [reflexivity|apply Hsent].
Qed.

(** X8: when the user selects one row, the [entity_selected] that goes out
    carries what [get_selection] answers afterwards, the details of the row
    and its trail; the row's item becomes the current node and a pending
    target is dropped. *)
Theorem selection_made_sends_get_selection st idx item :
  signalsBlocked st = false ->
  index_in idx (selectedIndexes st) = false ->
  _item_from_index st idx = Some item ->
  let st' := change_selection st [idx] in
  emitted st'
  = (emitted st ++
     [entity_selected (Some (fst (get_selection st')))
        (snd (get_selection st'))])%list
  /\ _current_item_ref st' = Some (weakref item)
  /\ _entity_to_select st' = None
  /\ new_task_btn_enabled st' = new_task_btn_enabled (_update_ui st').
Proof.
  intros Hb Hnew Hitem. cbv zeta.
  assert (Hsel : selectedIndexes (change_selection st [idx]) = [idx])
    by apply change_selection_selected.
  pose proof (change_selection_expansion_part st [idx]) as He.
  apply expansion_part_fields in He as (Hfm & _ & Hflag).
  unfold get_selection. rewrite Hsel. cbn [fst snd].
  rewrite (get_entity_details_same st _ idx Hfm Hflag).
  assert (Htrail : _build_breadcrumb_trail (change_selection st [idx])
                   = _build_breadcrumb_trail (set_selectedIndexes st [idx])).
  { apply build_breadcrumb_trail_same; [exact Hsel|exact Hfm]. }
  rewrite Htrail.
  assert (Hui : new_task_btn_enabled (_update_ui (change_selection st [idx]))
                = new_task_btn_enabled (_update_ui (set_selectedIndexes st [idx]))).
  { unfold _update_ui. cbn [new_task_btn_enabled new_task_btn_setEnabled].
    rewrite Hsel. cbn [selectedIndexes set_selectedIndexes].
    rewrite (item_from_index_same _ _ idx Hfm).
    rewrite (item_from_index_same st (set_selectedIndexes st [idx]))
      by reflexivity.
    reflexivity. }
  rewrite Hui. clear Hsel Hfm Hflag Htrail Hui.
  unfold change_selection. simpl. rewrite Hnew. simpl.
  match goal with
  | |- context [_on_selection_changed ?s ?a ?b] =>
      rewrite (on_selection_changed_emitted s a b);
      rewrite (on_selection_changed_button s a b);
      destruct (on_selection_changed_fields s a b) as (Hr & Ht & _)
  end.
  cbn [signalsBlocked set_selectedIndexes emitted] in *.
  rewrite Hb.
  rewrite (item_from_index_same st) in Hr, Ht by reflexivity.
  rewrite Hitem in Hr, Ht. simpl in Hr, Ht.
  rewrite (get_entity_details_same st (set_selectedIndexes st [idx]))
    by reflexivity.
  repeat split; assumption.
Qed.

(** X9: when the user takes the selection away, the widget forgets the
    current node but keeps a pending target, disables the new task button,
    and sends [entity_selected] with empty details and with the empty
    dictionary where the trail would be. *)
Theorem selection_cleared_sends_empty_details st :
  signalsBlocked st = false ->
  selectedIndexes st <> [] ->
  let st' := change_selection st [] in
  selectedIndexes st' = []
  /\ _current_item_ref st' = None
  /\ _entity_to_select st' = _entity_to_select st
  /\ new_task_btn_enabled st' = false
  /\ emitted st'
     = (emitted st ++ [entity_selected (Some EmptyDict) TrailEmptyDict])%list.
Proof.
  intros Hb Hne. cbv zeta.
  split; [apply change_selection_selected|].
  unfold change_selection. cbn [List.filter].
  assert (Hall : List.filter (fun i => negb (index_in i [])) (selectedIndexes st)
                 = selectedIndexes st).
  { clear Hne. induction (selectedIndexes st) as [|i l IH]; [reflexivity|].
    cbn [List.filter]. change (negb (index_in i [])) with true.
    cbv iota. f_equal. exact IH. }
  rewrite Hall.
  destruct (selectedIndexes st) as [|i l] eqn:Hsel; [congruence|].
  match goal with
  | |- context [_on_selection_changed ?s ?a ?b] =>
      rewrite (on_selection_changed_emitted s a b);
      rewrite (on_selection_changed_button s a b);
      destruct (on_selection_changed_fields s a b) as (Hr & Ht & _)
  end.
  cbn [signalsBlocked set_selectedIndexes emitted] in *.
  rewrite Hb. simpl in Hr, Ht.
  repeat split; assumption.
Qed.

(** ** Where [navigate_to] ends *)

Lemma first_matching_child_found cur crumb found :
  first_matching_child cur crumb = Some found ->
  exists row,
    item_child cur row = Some found
    /\ handle_rows found = row :: handle_rows cur
    /\ crumb_matches crumb (handle_item found) = true.
Proof.
  unfold first_matching_child.
  destruct (first_among _ 0 _) as [[row c]|] eqn:Hfirst; [|discriminate].
  intros [= <-].
  destruct (first_among_found _ _ _ _ _ Hfirst) as (i & -> & Hi & Hc & _).
  exists i. cbn [handle_rows handle_item Nat.add]. repeat split; [|exact Hc].
  unfold item_child. rewrite Hi. reflexivity.
Qed.

(** The deepest item reached lies on the trail: level by level, the nodes
    on the way down to it match the breadcrumbs and are shown. *)
Lemma deepest_reached_on_trail fm : forall trail cur,
  source_item (sourceModel fm) (handle_rows cur) = Some cur ->
  let h := deepest_reached fm cur trail in
  exists below,
    handle_rows h = (below ++ handle_rows cur)%list
    /\ length below <= length trail
    /\ forall i crumb,
         i < length below -> trail !! i = Some crumb ->
         exists a,
           source_item (sourceModel fm)
             (drop (length below - S i) (handle_rows h)) = Some a
           /\ crumb_matches crumb (handle_item a) = true
           /\ isValid (mapFromSource fm (index_of a)) = true.
Proof.
  induction trail as [|crumb rest IH]; intros cur Hcur; cbv zeta;
    cbn [deepest_reached].
  - exists []. repeat split; [cbn; lia|]. intros i c Hi. cbn in Hi. lia.
  - assert (Hstop : exists below,
              handle_rows cur = (below ++ handle_rows cur)%list
              /\ length below <= length (crumb :: rest)
              /\ forall i c,
                   i < length below -> (crumb :: rest) !! i = Some c ->
                   exists a,
                     source_item (sourceModel fm)
                       (drop (length below - S i) (handle_rows cur)) = Some a
                     /\ crumb_matches c (handle_item a) = true
                     /\ isValid (mapFromSource fm (index_of a)) = true).
    { exists []. repeat split; [cbn; lia|]. intros i c Hi. cbn in Hi. lia. }
    destruct (first_matching_child cur crumb) as [found|] eqn:Hfound;
      [|exact Hstop].
    destruct (isValid (mapFromSource fm (index_of found))) eqn:Hv;
      [|exact Hstop].
    clear Hstop.
    destruct (first_matching_child_found _ _ _ Hfound)
      as (row & Hchild & Hrows & Hmatch).
    pose proof (source_item_child _ _ _ _ Hcur Hchild) as Hsrc.
    destruct (IH found Hsrc) as (below & Hbelow & Hlen & Hon).
    cbv zeta in Hbelow, Hon.
    set (h := deepest_reached fm found rest) in *.
    exists (below ++ [row])%list.
    assert (Hh : handle_rows h = ((below ++ [row]) ++ handle_rows cur)%list).
    { rewrite Hbelow, Hrows, <- app_assoc. reflexivity. }
    split; [exact Hh|].
    rewrite length_app. cbn [length]. split; [lia|].
    intros [|i] c Hi Hc.
    + cbn in Hc. injection Hc as <-. exists found.
      replace (length below + 1 - 1) with (length below) by lia.
      rewrite Hbelow, drop_app_length. auto.
    + cbn in Hc.
      replace (length below + 1 - S (S i)) with (length below - S i) by lia.
      apply (Hon i c); [lia|exact Hc].
Qed.


(** X11: [navigate_to] returns for every trail without entity
    breadcrumbs; only the search for an entity can raise. *)
Theorem navigate_to_returns_for_plain_trail st breadcrumb_trail :
  forallb is_plain breadcrumb_trail = true ->
  exists st', navigate_to st breadcrumb_trail = Returns st'.
Proof.
  intros Hplain. unfold navigate_to.
  assert (Hloop : forall cur, exists h,
            navigate_loop (_filter_model st) cur breadcrumb_trail = Ok h).
  { induction breadcrumb_trail as [|crumb rest IH]; intros cur; simpl;
      [eauto|].
    simpl in Hplain. apply andb_true_iff in Hplain as [Hcrumb Hrest].
    destruct crumb as [label|label entity]; [|discriminate]. simpl.
    destruct (find_label_child cur label _) as [found|]; [|eauto].
    destruct (negb _); [eauto|apply IH, Hrest]. }
  destruct (Hloop (invisibleRootItem (src_model st))) as [h ->]. eauto.
Qed.

(** ** The expanded rows, kept in step *)

Lemma view_tracked_expansion_part st st' :
  expansion_part st' = expansion_part st -> view_tracked st -> view_tracked st'.
Proof.
  unfold view_tracked, expansion_part. intros H Ht.
  assert (He : _expanded_items st' = _expanded_items st) by congruence.
  assert (Hv : tree_expanded st' = tree_expanded st) by congruence.
  rewrite He, Hv. exact Ht.
Qed.

Lemma expand_tracked st idx : view_tracked st -> view_tracked (expand st idx).
Proof.
  unfold view_tracked, expand. intros Ht.
  destruct (_item_from_index st idx) as [h|] eqn:Hitem; [|exact Ht].
  case_bool_decide; [exact Ht|].
  unfold _on_item_expanded.
  rewrite (item_from_index_same st) by reflexivity. rewrite Hitem. simpl.
  clear - Ht. set_solver.
Qed.

Lemma collapse_tracked st idx : view_tracked st -> view_tracked (collapse st idx).
Proof.
  unfold view_tracked, collapse. intros Ht.
  destruct (_item_from_index st idx) as [h|] eqn:Hitem; [|exact Ht].
  case_bool_decide; [|exact Ht].
  unfold _on_item_collapsed.
  rewrite (item_from_index_same st) by reflexivity. rewrite Hitem. simpl.
  clear - Ht. set_solver.
Qed.

Lemma expand_up_tracked tag rows : forall st,
  view_tracked st -> view_tracked (expand_up st tag rows).
Proof.
  induction rows as [|r up IH]; intros st Ht; simpl; [exact Ht|].
  apply IH, expand_tracked, Ht.
Qed.

Lemma fix_item_state_tracked st idx :
  view_tracked st -> view_tracked (fix_item_state st idx).
Proof.
  intros Ht. unfold fix_item_state.
  destruct (_item_from_index st idx) as [h|]; [|exact Ht].
  cbv zeta.
  match goal with
  | |- context [bool_decide (_ ∈ _expanded_items ?s)] => set (s1 := s)
  end.
  assert (H1 : view_tracked s1).
  { subst s1. destruct (negb (isValid (parent idx))); [|exact Ht].
    case_bool_decide; [exact Ht|].
    unfold view_tracked in *. simpl. clear - Ht. set_solver. }
  destruct (bool_decide (weakref h ∈ _expanded_items s1));
    [apply expand_tracked|]; exact H1.
Qed.

Lemma fix_expanded_state_tracked depth : forall st idx,
  view_tracked st ->
  view_tracked (state_after (_fix_expanded_state_r depth st idx)).
Proof.
  induction depth as [|depth IH]; intros st idx Ht; simpl; [exact Ht|].
  unfold fix_children_state.
  apply (fold_outcome_keeps view_tracked
           (fun st0 row =>
              _fix_expanded_state_r depth st0
                (child (_filter_model st0) idx row))).
  - intros st0 row H0. apply IH, H0.
  - simpl. apply fix_item_state_tracked, Ht.
Qed.

Lemma rows_inserted_tracked depth st parent_idx first last :
  view_tracked st ->
  view_tracked
    (state_after (_on_filter_model_rows_inserted depth st parent_idx first last)).
Proof.
  intros Ht. unfold _on_filter_model_rows_inserted.
  rewrite state_after_finally.
  assert (Hkeep : forall s, view_tracked s ->
                    view_tracked (setUpdatesEnabled s true))
    by (intros s Hs; exact Hs).
  apply Hkeep.
  apply (fold_outcome_keeps view_tracked
           (fun st0 row =>
              _fix_expanded_state_r depth st0
                (index (_filter_model st0) row parent_idx))).
  - intros st0 row H0. apply fix_expanded_state_tracked, H0.
  - simpl. unfold fix_parent_state.
    destruct (isValid parent_idx); [|exact Ht].
    destruct (_item_from_index _ parent_idx); [|exact Ht].
    case_bool_decide; [apply expand_tracked|]; exact Ht.
Qed.

Lemma expand_root_row_tracked st row :
  view_tracked st -> view_tracked (expand_root_row st row).
Proof.
  intros Ht. unfold expand_root_row.
  destruct (_item_from_index st _); [|exact Ht].
  case_bool_decide; [exact Ht|].
  apply (expand_tracked st). exact Ht.
Qed.

Lemma expand_root_rows_tracked st :
  view_tracked st -> view_tracked (_expand_root_rows st).
Proof.
  intros Ht. unfold _expand_root_rows.
  assert (Hfold : forall l s, view_tracked s ->
                    view_tracked (foldl expand_root_row s l)).
  { induction l as [|r rest IH]; intros s Hs; simpl; [exact Hs|].
    apply IH, expand_root_row_tracked, Hs. }
  apply (Hfold _ (setUpdatesEnabled st false)). exact Ht.
Qed.

Lemma update_selection_tracked st prev :
  view_tracked st -> view_tracked (_update_selection st prev).
Proof.
  intros Ht. unfold _update_selection.
  match goal with
  | |- context [blockSignals ?s (signalsBlocked st)] =>
      assert (Hmid : view_tracked s)
  end.
  { destruct (item_to_select _) as [h|]; [|exact Ht].
    destruct (isValid _); [|exact Ht].
    eapply view_tracked_expansion_part;
      [apply setCurrentIndex_expansion_part|].
    unfold scrollTo. apply expand_up_tracked. exact Ht. }
  match goal with
  | |- context [blockSignals ?s (signalsBlocked st)] =>
      set (st4 := blockSignals s (signalsBlocked st)) in *;
      destruct (update_selection_tail st4 prev) as (He & _)
  end.
  cbv zeta in He. eapply view_tracked_expansion_part; [exact He|exact Hmid].
Qed.

Lemma on_search_changed_unfold st search_text :
  _on_search_changed st search_text
  = _update_selection
      (set_filter_model (_update_ui (set_selectedIndexes st []))
         (filter_after st (SearchText search_text)))
      (_get_selected_item st).
Proof. reflexivity. Qed.

Lemma on_my_tasks_only_toggled_unfold st checked :
  _on_my_tasks_only_toggled st checked
  = _update_selection
      (set_filter_model (_update_ui (set_selectedIndexes st []))
         (filter_after st (MyTasksOnly checked)))
      (_get_selected_item st).
Proof. reflexivity. Qed.

(** X12: the set of expanded items covers the view.  A new widget has it
    so, and every call and slot keeps it so: whatever row is expanded in
    the view has its reference in [_expanded_items].  (A change of the
    model in the background keeps it as long as the view expands no row on
    its own.) *)
Theorem expanded_rows_are_tracked :
  (forall entity_model accepts_row,
     view_tracked (__init__ entity_model accepts_row))
  /\ (forall st ev,
        view_tracked st ->
        match ev with
        | ModelChanged _ _ expanded_rows => expanded_rows ⊆ tree_expanded st
        | _ => True
        end ->
        view_tracked (handle st ev)).
Proof.
  split.
  - intros m acc. apply expand_root_rows_tracked.
    unfold view_tracked. simpl. set_solver.
  - intros st ev Ht Hev. destruct ev; cbn [handle].
    + rewrite select_entity_unfold. apply update_selection_tracked. exact Ht.
    + unfold navigate_to. destruct (navigate_loop _ _ _); simpl; [|exact Ht].
      eapply view_tracked_expansion_part;
        [apply setCurrentIndex_expansion_part|exact Ht].
    + rewrite on_search_changed_unfold. apply update_selection_tracked, Ht.
    + rewrite on_my_tasks_only_toggled_unfold.
      apply update_selection_tracked, Ht.
    + eapply view_tracked_expansion_part;
        [apply change_selection_expansion_part|exact Ht].
    + apply rows_inserted_tracked, Ht.
    + apply expand_tracked, Ht.
    + apply collapse_tracked, Ht.
    + destruct (on_new_task_fields st) as (_ & _ & _ & He). cbv zeta in He.
      eapply view_tracked_expansion_part; [exact He|exact Ht].
    + unfold view_tracked in *. simpl. clear - Ht Hev. set_solver.
Qed.

(** ** The automatic expansion of root rows *)

Lemma new_roots_expanded_refl st : new_roots_expanded st st.
Proof. intros x Hin Hout. destruct (Hout Hin). Qed.

Lemma new_roots_expanded_grows st0 s s' :
  grows s s' ->
  (forall x, x ∈ _auto_expanded_root_items s' ->
     x ∈ _auto_expanded_root_items s
     \/ (x ∈ tree_expanded s' /\ x ∈ _expanded_items s')) ->
  new_roots_expanded st0 s -> new_roots_expanded st0 s'.
Proof.
  intros (_ & He & Ht & _) Hnew Hs x Hin Hout.
  destruct (Hnew x Hin) as [Hold|Hfresh]; [|exact Hfresh].
  destruct (Hs x Hold Hout) as [H1 H2]. clear - He Ht H1 H2. set_solver.
Qed.

Lemma expand_new_roots st0 s idx :
  new_roots_expanded st0 s -> new_roots_expanded st0 (expand s idx).
Proof.
  apply new_roots_expanded_grows; [apply expand_grows|].
  intros x Hin. left. destruct (expand_adds s idx) as [Hauto _].
  rewrite <- Hauto. exact Hin.
Qed.

(** The item whose state [fix_item_state] fixes is the only one that can
    come into [_auto_expanded_root_items], and it comes expanded. *)
Lemma fix_item_state_auto st idx :
  (forall x, x ∈ _auto_expanded_root_items (fix_item_state st idx) ->
     x ∈ _auto_expanded_root_items st
     \/ (x ∈ tree_expanded (fix_item_state st idx)
         /\ x ∈ _expanded_items (fix_item_state st idx)))
  /\ (forall h, _item_from_index st idx = Some h ->
        isValid (parent idx) = false ->
        weakref h ∈ _auto_expanded_root_items (fix_item_state st idx)).
Proof.
  unfold fix_item_state.
  destruct (_item_from_index st idx) as [h|] eqn:Hitem.
  2:{ split; [auto|discriminate]. }
  destruct (isValid (parent idx)) eqn:Hroot; cbn [negb].
  { split; [|discriminate]. intros x Hin. left.
    case_bool_decide; [|exact Hin].
    destruct (expand_adds st idx) as [Hauto _]. rewrite <- Hauto. exact Hin. }
  destruct (bool_decide (weakref h ∈ _auto_expanded_root_items st)) eqn:Hauto;
    cbn [negb].
  - apply bool_decide_eq_true_1 in Hauto. split.
    + intros x Hin. left. case_bool_decide; [|exact Hin].
      destruct (expand_adds st idx) as [Ha _]. rewrite <- Ha. exact Hin.
    + intros h' [= <-] _. case_bool_decide; [|exact Hauto].
      destruct (expand_adds st idx) as [Ha _]. rewrite Ha. exact Hauto.
  - cbv zeta.
    set (s1 := set_expanded_items _ _).
    assert (Hin1 : weakref h ∈ _expanded_items s1)
      by (subst s1; simpl; set_solver).
    rewrite (bool_decide_eq_true_2 _ Hin1).
    assert (Hitem1 : _item_from_index s1 idx = Some h) by exact Hitem.
    destruct (expand_grows s1 idx) as [(_ & He & _ & _) Htree].
    destruct (expand_adds s1 idx) as [Ha _].
    specialize (Htree h Hitem1). split.
    + intros x Hin. rewrite Ha in Hin. subst s1. simpl in Hin.
      apply elem_of_union in Hin as [Hx|Hx]; [|left; exact Hx].
      apply elem_of_singleton in Hx as ->. right. split; [exact Htree|].
      clear - He Hin1. set_solver.
    + intros h' [= <-] _. rewrite Ha. subst s1. simpl. set_solver.
Qed.

Lemma fix_expanded_state_new_roots st0 depth : forall st idx,
  new_roots_expanded st0 st ->
  new_roots_expanded st0 (state_after (_fix_expanded_state_r depth st idx)).
Proof.
  induction depth as [|depth IH]; intros st idx Hs; simpl; [exact Hs|].
  unfold fix_children_state.
  apply (fold_outcome_keeps (new_roots_expanded st0)
           (fun s row =>
              _fix_expanded_state_r depth s (child (_filter_model s) idx row))).
  - intros s row H0. apply IH, H0.
  - simpl. eapply new_roots_expanded_grows; [| |exact Hs].
    + apply fix_item_state_grows.
    + apply fix_item_state_auto.
Qed.

(** X13: a root row that the proxy reports for the first time is expanded
    on its own account.  For a notification about top-level rows that
    exist, with room on the stack for the depth of the model, the slot
    returns, and every new top-level row whose reference was not yet in
    [_auto_expanded_root_items] is in that set afterwards, is expanded in
    the view and is in [_expanded_items]. *)
Theorem new_root_rows_are_expanded depth st parent_idx first last row d :
  isValid parent_idx = false ->
  last < rowCount (_filter_model st) parent_idx ->
  model_depth (src_model st) <= depth ->
  first <= row <= last ->
  filter_item (_filter_model st) [row] = Some d ->
  weakref d ∉ _auto_expanded_root_items st ->
  exists st',
    _on_filter_model_rows_inserted depth st parent_idx first last = Returns st'
    /\ weakref d ∈ _auto_expanded_root_items st'
    /\ weakref d ∈ tree_expanded st'
    /\ weakref d ∈ _expanded_items st'.
Proof.
  intros Hroot Hlast Hdepth Hrow Hd Hnew.
  assert (Hrows : idx_rows parent_idx = []).
  { unfold isValid in Hroot. destruct (idx_rows parent_idx); congruence. }
  destruct (rowCount_positive (_filter_model st) parent_idx)
    as (Htag & hp & Hp); [lia|].
  rewrite (rowCount_filter_item _ _ hp Htag Hp) in Hlast.
  assert (Hnews : new_roots_expanded st
            (state_after
               (_on_filter_model_rows_inserted depth st parent_idx first last))).
  { unfold _on_filter_model_rows_inserted. rewrite state_after_finally.
    assert (Hkeep : forall s, new_roots_expanded st s ->
                      new_roots_expanded st (setUpdatesEnabled s true))
      by (intros s Hs; exact Hs).
    apply Hkeep.
    apply (fold_outcome_keeps (new_roots_expanded st)
             (fun s r =>
                _fix_expanded_state_r depth s
                  (index (_filter_model s) r parent_idx))).
    - intros s r H0. apply fix_expanded_state_new_roots, H0.
    - simpl. unfold fix_parent_state. rewrite Hroot.
      intros x Hin Hout. destruct (Hout Hin). }
  unfold _on_filter_model_rows_inserted in *.
  set (st0 := setUpdatesEnabled st false) in *.
  assert (Hg1 : grows st (fix_parent_state st0 parent_idx)).
  { apply (grows_trans _ st0); [|apply fix_parent_state_grows].
    unfold grows. simpl. set_solver. }
  set (st1 := fix_parent_state st0 parent_idx) in *.
  destruct (fold_rows_covers st
              (fun s r =>
                 _fix_expanded_state_r depth s
                   (index (_filter_model s) r parent_idx))
              (fun r s =>
                 forall d0, filter_item (_filter_model st) [r] = Some d0 ->
                            weakref d0 ∈ _auto_expanded_root_items s)
              (seq first (S last - first)))
    with (s := st1) as (st2 & Hfold & Hg2 & Hcov).
  - intros r s s' (_ & _ & _ & Ha) Hc d0 Hd0.
    specialize (Hc d0 Hd0). clear - Ha Hc. set_solver.
  - intros s r Hr (Hfm & _).
    apply elem_of_seq in Hr as [Hr0 Hr].
    assert (Hin : r < length (shown_rows (_filter_model st) hp)) by lia.
    assert (Hidx : index (_filter_model s) r parent_idx = mkIndex OfFilter [r]).
    { unfold index. rewrite Hfm, Hrows.
      rewrite (rowCount_filter_item _ _ hp Htag Hp).
      apply Nat.ltb_lt in Hin. rewrite Hin. reflexivity. }
    rewrite Hidx.
    destruct (shown_rows (_filter_model st) hp !! r) as [[sr c]|] eqn:Hsr.
    2:{ apply lookup_ge_None in Hsr. lia. }
    assert (Hfc : filter_item (_filter_model st) [r]
                  = Some (mkHandle (sr :: handle_rows hp) c)).
    { rewrite <- Hrows. simpl. rewrite Hp, Hsr. reflexivity. }
    destruct (filter_item_in_source _ _ _ Hfc) as [Hsrc _].
    apply source_item_height in Hsrc.
    cbn [handle_item handle_rows length] in Hsrc.
    destruct (fix_expanded_state_covers depth s (mkIndex OfFilter [r])
                (mkHandle (sr :: handle_rows hp) c))
      as (s' & Hret & Hg & _); auto.
    { rewrite Hfm. exact Hfc. }
    { cbn [handle_item]. unfold src_model in Hdepth. lia. }
    exists s'. split; [exact Hret|]. split; [exact Hg|].
    intros d0 Hd0. rewrite Hfc in Hd0. injection Hd0 as <-.
    assert (Hs' : s' = state_after
                         (_fix_expanded_state_r depth s (mkIndex OfFilter [r])))
      by (rewrite Hret; reflexivity).
    rewrite Hs'. destruct depth as [|depth'].
    { unfold src_model in Hdepth. lia. }
    cbn [_fix_expanded_state_r]. unfold fix_children_state.
    apply (fold_outcome_keeps
             (fun s0 => weakref (mkHandle (sr :: handle_rows hp) c)
                        ∈ _auto_expanded_root_items s0)
             (fun s0 row0 =>
                _fix_expanded_state_r depth' s0
                  (child (_filter_model s0) (mkIndex OfFilter [r]) row0))).
    + intros s0 row0 H0. apply fix_expanded_state_auto, H0.
    + simpl. apply (proj2 (fix_item_state_auto s (mkIndex OfFilter [r])));
        [|reflexivity].
      rewrite item_from_index_filter_item by reflexivity.
      simpl. rewrite Hfm. exact Hfc.
  - exact Hg1.
  - rewrite Hfold in *. simpl in Hnews |- *.
    eexists. split; [reflexivity|].
    assert (Hauto : weakref d ∈ _auto_expanded_root_items st2).
    { refine (Hcov row _ d Hd). apply elem_of_seq. lia. }
    split; [exact Hauto|]. apply (Hnews (weakref d)); assumption.
Qed.

Lemma expand_root_row_grows st row :
  grows st (expand_root_row st row).
Proof.
  unfold expand_root_row. destruct (_item_from_index st _); [|apply grows_refl].
  case_bool_decide; [apply grows_refl|].
  match goal with |- context [expand st ?i] =>
    destruct (expand_grows st i) as [(Hfm & He & Ht & Ha) _] end.
  unfold grows. simpl. repeat split; [exact Hfm|exact He|exact Ht|].
  clear - Ha. set_solver.
Qed.

Lemma expand_root_row_new_roots st0 st row :
  view_tracked st -> new_roots_expanded st0 st ->
  new_roots_expanded st0 (expand_root_row st row).
Proof.
  intros Htracked. apply new_roots_expanded_grows;
    [apply expand_root_row_grows|].
  intros x Hin. unfold expand_root_row in *.
  set (idx := index (_filter_model st) row invalid_index) in *.
  destruct (_item_from_index st idx) as [h|] eqn:Hitem; [|auto].
  case_bool_decide; [auto|].
  simpl in Hin. apply elem_of_union in Hin as [Hx|Hx].
  - apply elem_of_singleton in Hx as ->. right.
    destruct (expand_grows st idx) as [_ Htree].
    specialize (Htree h Hitem).
    pose proof (expand_tracked st idx Htracked) as Ht.
    simpl. split; [exact Htree|]. unfold view_tracked in Ht.
    clear - Ht Htree. set_solver.
  - left. destruct (expand_adds st idx) as [Ha _]. rewrite <- Ha. exact Hx.
Qed.

Lemma expand_root_row_auto st row h :
  _item_from_index st (index (_filter_model st) row invalid_index) = Some h ->
  weakref h ∈ _auto_expanded_root_items (expand_root_row st row).
Proof.
  intros Hitem. unfold expand_root_row. rewrite Hitem.
  case_bool_decide; [assumption|]. simpl. set_solver.
Qed.

(** The loop of [_expand_root_rows] over shown rows. *)
Lemma expand_root_rows_loop st0 fm : forall l st,
  _filter_model st = fm ->
  (forall r, r ∈ l -> r < rowCount fm invalid_index) ->
  view_tracked st -> new_roots_expanded st0 st ->
  let st' := foldl expand_root_row st l in
  grows st st' /\ view_tracked st' /\ new_roots_expanded st0 st'
  /\ forall r d, r ∈ l -> filter_item fm [r] = Some d ->
       weakref d ∈ _auto_expanded_root_items st'.
Proof.
  induction l as [|r rest IH]; intros st Hfm Hrange Ht Hnew; cbv zeta; simpl.
  - split; [apply grows_refl|]. split; [exact Ht|]. split; [exact Hnew|].
    intros r d Hr. inversion Hr.
  - pose proof (expand_root_row_grows st r) as Hg.
    destruct (IH (expand_root_row st r)) as (Hg' & Ht' & Hnew' & Hcov).
    { destruct Hg as [-> _]. exact Hfm. }
    { intros r0 Hr0. apply Hrange. right. exact Hr0. }
    { apply expand_root_row_tracked, Ht. }
    { apply expand_root_row_new_roots; assumption. }
    cbv zeta in *.
    split; [eapply grows_trans; eauto|]. split; [exact Ht'|].
    split; [exact Hnew'|].
    intros r0 d Hr0 Hd. apply elem_of_cons in Hr0 as [->|Hr0];
      [|apply (Hcov r0 d Hr0 Hd)].
    assert (Hin : weakref d ∈ _auto_expanded_root_items (expand_root_row st r)).
    { apply expand_root_row_auto.
      assert (Hidx : index (_filter_model st) r invalid_index
                     = mkIndex OfFilter [r]).
      { unfold index. rewrite Hfm.
        assert (Hlt : r < rowCount fm invalid_index) by (apply Hrange; left).
        apply Nat.ltb_lt in Hlt. rewrite Hlt. reflexivity. }
      rewrite Hidx, item_from_index_filter_item by reflexivity.
      simpl. rewrite Hfm. exact Hd. }
    destruct Hg' as (_ & _ & _ & Ha). clear - Ha Hin. set_solver.
Qed.

(** X14: a new widget shows every top-level row expanded.  After the
    construction each top-level row of the proxy is expanded in the view
    and has its reference in [_expanded_items] and in
    [_auto_expanded_root_items]; nothing is selected, no target is pending
    and no signal has gone out. *)
Theorem new_widget_has_root_rows_expanded entity_model accepts_row row d :
  let st := __init__ entity_model accepts_row in
  filter_item (_filter_model st) [row] = Some d ->
  (weakref d ∈ tree_expanded st
   /\ weakref d ∈ _expanded_items st
   /\ weakref d ∈ _auto_expanded_root_items st)
  /\ selectedIndexes st = []
  /\ _entity_to_select st = None
  /\ _current_item_ref st = None
  /\ emitted st = [].
Proof.
  cbv zeta. unfold __init__.
  set (fm := mkProxy entity_model (mkRegExp "" CaseSensitive RegExp) false
               accepts_row).
  set (st0 := mkForm true None None ∅ ∅ fm [] ∅ true false false []).
  pose proof (expand_root_rows_selection_part st0) as Hsel.
  destruct (selection_part_fields _ _ Hsel) as (Ht & Hr & Hs & Hfm & _ & Hem).
  rewrite Ht, Hr, Hs, Hfm, Hem. intros Hd.
  split; [|repeat split].
  unfold _expand_root_rows.
  destruct (expand_root_rows_loop st0 fm
              (seq 0 (rowCount (_filter_model st0) invalid_index))
              (setUpdatesEnabled st0 false))
    as (_ & Htracked & Hnew & Hcov).
  - reflexivity.
  - intros r Hr'. apply elem_of_seq in Hr' as [_ Hr']. exact Hr'.
  - unfold view_tracked. simpl. set_solver.
  - intros x Hin. simpl in Hin. set_solver.
  - cbv zeta in *.
    assert (Hrow : row ∈ seq 0 (rowCount (_filter_model st0) invalid_index)).
    { destruct (filter_item_child _ _ _ _ Hd) as (h0 & Hh0 & Hlt & _).
      apply elem_of_seq.
      change (_filter_model st0) with fm in Hlt |- *.
      rewrite (rowCount_filter_item fm invalid_index h0
                 (or_intror eq_refl) Hh0).
      lia. }
    pose proof (Hcov row d Hrow Hd) as Hauto.
    destruct (Hnew (weakref d) Hauto) as [Htree Hexp];
      [simpl; set_solver|].
    exact (conj Htree (conj Hexp Hauto)).
Qed.

(** ** The details of an item *)

Lemma foldl_seq_lookup {A B : Type} (f : A -> B -> A) (g : A -> nat -> A)
  (l : list B) :
  (forall a row b, l !! row = Some b -> g a row = f a b) ->
  forall a, foldl g a (seq 0 (length l)) = foldl f a l.
Proof.
  induction l as [|b l IH] using rev_ind; intros Hg a; [reflexivity|].
  rewrite length_app, seq_app, !foldl_app. simpl.
  rewrite IH.
  - apply Hg. rewrite lookup_app_r by lia.
    replace (length l - length l) with 0 by lia. reflexivity.
  - intros a' row b' Hrow. apply Hg.
    apply lookup_app_l_Some. exact Hrow.
Qed.

Lemma foldl_append_flat_map {A B : Type} (f : B -> list A) (l : list B) :
  forall acc, foldl (fun acc b => (acc ++ f b)%list) acc l
              = (acc ++ flat_map f l)%list.
Proof.
  induction l as [|b l IH]; intros acc; simpl.
  - rewrite app_nil_r. reflexivity.
  - rewrite IH, app_assoc. reflexivity.
Qed.

(** The item that the widget finds at a row below a shown index. *)
Lemma item_from_index_shown_child st idx h row c :
  idx_model idx = OfFilter -> isValid idx = true ->
  filter_item (_filter_model st) (idx_rows idx) = Some h ->
  shown_children (_filter_model st) h !! row = Some c ->
  index (_filter_model st) row idx = mkIndex OfFilter (row :: idx_rows idx)
  /\ _item_from_index st (index (_filter_model st) row idx) = Some c
  /\ filter_item (_filter_model st) (row :: idx_rows idx) = Some c.
Proof.
  intros Hm Hv Hh Hc.
  unfold shown_children in Hc. rewrite list_lookup_fmap in Hc.
  destruct (shown_rows (_filter_model st) h !! row) as [[s i]|] eqn:Hrow;
    [|discriminate].
  simpl in Hc. injection Hc as <-.
  assert (Hlt : row < rowCount (_filter_model st) idx).
  { rewrite (rowCount_filter_item _ idx h (or_introl Hm) Hh).
    apply lookup_lt_Some in Hrow. exact Hrow. }
  assert (Hidx : index (_filter_model st) row idx
                 = mkIndex OfFilter (row :: idx_rows idx)).
  { unfold index. apply Nat.ltb_lt in Hlt. rewrite Hlt. reflexivity. }
  assert (Hf : filter_item (_filter_model st) (row :: idx_rows idx)
               = Some (mkHandle (s :: handle_rows h) i)).
  { cbn [filter_item]. rewrite Hh, Hrow. reflexivity. }
  split; [exact Hidx|]. split; [|exact Hf].
  rewrite Hidx, item_from_index_filter_item by reflexivity. exact Hf.
Qed.

(** The loop over the grandchildren collects the Tasks shown below the
    child. *)
Lemma collapse_grandchildren_loop st child_idx c acc :
  idx_model child_idx = OfFilter -> isValid child_idx = true ->
  filter_item (_filter_model st) (idx_rows child_idx) = Some c ->
  foldl (collapse_grandchild st (item_text (handle_item c)) child_idx) acc
    (seq 0 (rowCount (_filter_model st) child_idx))
  = (acc ++ tasks_below (_filter_model st) c)%list.
Proof.
  intros Hm Hv Hc.
  rewrite (rowCount_filter_item _ child_idx c (or_introl Hm) Hc).
  replace (length (shown_rows (_filter_model st) c))
    with (length (shown_children (_filter_model st) c))
    by (unfold shown_children; apply length_map).
  rewrite (foldl_seq_lookup
             (fun acc g => (acc ++ task_entry (item_text (handle_item c))
                                     (plain_child g))%list)).
  - rewrite foldl_append_flat_map. unfold tasks_below. f_equal.
    induction (shown_children (_filter_model st) c) as [|g l IH];
      [reflexivity|].
    simpl. rewrite IH. reflexivity.
  - intros a row g Hg.
    destruct (item_from_index_shown_child st child_idx c row g Hm Hv Hc Hg)
      as (_ & Hitem & _).
    unfold collapse_grandchild. rewrite Hitem.
    unfold task_entry, plain_child. cbn [child_entity child_label].
    destruct (get_entity (Some g)) as [e|]; [|rewrite app_nil_r; reflexivity].
    destruct (String.eqb (sg_type e) "Task");
      [reflexivity|rewrite app_nil_r; reflexivity].
Qed.

(** The loop over the children lists every shown child and collects the
    Tasks shown below the Steps among them. *)
Lemma details_of_children_loop st idx item :
  idx_model idx = OfFilter -> isValid idx = true ->
  filter_item (_filter_model st) (idx_rows idx) = Some item ->
  foldl (details_of_child st idx) ([], [])
    (seq 0 (rowCount (_filter_model st) idx))
  = (map plain_child (shown_children (_filter_model st) item),
     if _collapse_steps_with_tasks st
     then tasks_below_steps (_filter_model st)
            (shown_children (_filter_model st) item)
     else []).
Proof.
  intros Hm Hv Hh.
  rewrite (rowCount_filter_item _ idx item (or_introl Hm) Hh).
  replace (length (shown_rows (_filter_model st) item))
    with (length (shown_children (_filter_model st) item))
    by (unfold shown_children; apply length_map).
  set (step := fun (acc : list ChildDetails * list ChildDetails)
                   (c : QStandardItem) =>
         ((acc.1 ++ [plain_child c])%list,
          (acc.2 ++ (if _collapse_steps_with_tasks st
                     then (if entity_is "Step" (get_entity (Some c))
                           then tasks_below (_filter_model st) c else [])
                     else []))%list)).
  rewrite (foldl_seq_lookup step).
  - assert (Hfold : forall l acc, foldl step acc l
              = ((acc.1 ++ map plain_child l)%list,
                 (acc.2 ++ (if _collapse_steps_with_tasks st
                            then tasks_below_steps (_filter_model st) l
                            else []))%list)).
    { induction l as [|c l IH]; intros [a b]; simpl.
      - destruct (_collapse_steps_with_tasks st); rewrite !app_nil_r;
          reflexivity.
      - rewrite IH. unfold step. simpl.
        destruct (_collapse_steps_with_tasks st); simpl;
          rewrite <- !app_assoc; reflexivity. }
    rewrite Hfold. reflexivity.
  - intros [a b] row c Hc.
    destruct (item_from_index_shown_child st idx item row c Hm Hv Hh Hc)
      as (Hidx & Hitem & Hf).
    unfold details_of_child. rewrite Hitem.
    unfold step, entity_is, plain_child, get_entity. cbn [fst snd].
    destruct (_collapse_steps_with_tasks st); cbn [andb];
      [|rewrite app_nil_r; reflexivity].
    destruct (item_entity (handle_item c)) as [e|] eqn:He;
      [|rewrite app_nil_r; reflexivity].
    destruct (String.eqb (sg_type e) "Step");
      [|rewrite app_nil_r; reflexivity].
    rewrite Hidx.
    rewrite (collapse_grandchildren_loop st
               (mkIndex OfFilter (row :: idx_rows idx)) c b
               eq_refl eq_refl Hf).
    reflexivity.
Qed.

(** The loop over the children of a Step collects the Tasks among them. *)
Lemma collapse_children_loop label children :
  foldl (collapse_child label) [] children = flat_map (task_entry label) children.
Proof.
  transitivity (foldl (fun acc c => (acc ++ task_entry label c)%list) []
                 children).
  - assert (Hsame : forall l acc,
              foldl (collapse_child label) acc l
              = foldl (fun acc c => (acc ++ task_entry label c)%list) acc l).
    { induction l as [|c l IH]; intros acc; [reflexivity|]. simpl.
      rewrite IH. f_equal. unfold collapse_child, task_entry.
      destruct (child_entity c) as [e|]; [|rewrite app_nil_r; reflexivity].
      destruct (String.eqb (sg_type e) "Task");
        [reflexivity|rewrite app_nil_r; reflexivity]. }
    apply Hsame.
  - rewrite foldl_append_flat_map. reflexivity.
Qed.

(** The details of a shown item, without the loops. *)
Lemma get_entity_details_shape st idx item :
  idx_model idx = OfFilter -> isValid idx = true ->
  filter_item (_filter_model st) (idx_rows idx) = Some item ->
  let fm := _filter_model st in
  let label := item_text (handle_item item) in
  let entity := get_entity (Some item) in
  let kids := shown_children fm item in
  let via_steps :=
    if _collapse_steps_with_tasks st then tasks_below_steps fm kids else [] in
  _get_entity_details st idx =
    if nonempty via_steps then DetailsDict label entity via_steps
    else if _collapse_steps_with_tasks st && entity_is "Step" entity then
      if nonempty (tasks_below fm item)
      then DetailsDict label None (tasks_below fm item)
      else DetailsDict label entity (map plain_child kids)
    else DetailsDict label entity (map plain_child kids).
Proof.
  intros Hm Hv Hh. cbv zeta. unfold _get_entity_details.
  rewrite Hv. cbn [negb].
  rewrite item_from_index_filter_item, Hh by assumption.
  rewrite (details_of_children_loop st idx item Hm Hv Hh).
  destruct (nonempty _) eqn:Hne; [reflexivity|].
  assert (Hempty : (if _collapse_steps_with_tasks st
                    then tasks_below_steps (_filter_model st)
                           (shown_children (_filter_model st) item)
                    else []) = []).
  { destruct (if _collapse_steps_with_tasks st then _ else _);
      [reflexivity|discriminate]. }
  rewrite Hempty. unfold entity_is.
  destruct (_collapse_steps_with_tasks st && _); [|reflexivity].
  rewrite collapse_children_loop. reflexivity.
Qed.

(** An item found at an index is the item that the proxy shows there. *)
Lemma item_from_index_shown st idx item :
  _item_from_index st idx = Some item ->
  idx_model idx = OfFilter /\ isValid idx = true
  /\ filter_item (_filter_model st) (idx_rows idx) = Some item.
Proof.
  intros Hitem.
  destruct (idx_model idx) eqn:Hm;
    [rewrite item_from_index_of_source in Hitem by exact Hm; discriminate|].
  destruct (isValid idx) eqn:Hv;
    [|rewrite item_from_index_invalid in Hitem by exact Hv; discriminate].
  rewrite item_from_index_filter_item in Hitem by assumption.
  auto.
Qed.

Lemma nonempty_false {A : Type} (l : list A) : nonempty l = false -> l = [].
Proof. destruct l; [reflexivity|discriminate]. Qed.

Lemma nonempty_true {A : Type} (l : list A) : nonempty l = true -> l <> [].
Proof. destruct l; [discriminate|]. intros _ H. discriminate. Qed.

Lemma task_entry_tasks label c :
  List.Forall (fun t => entity_is "Task" (child_entity t) = true)
    (task_entry label c).
Proof.
  unfold task_entry. destruct (child_entity c) as [e|]; [|constructor].
  destruct (String.eqb (sg_type e) "Task") eqn:He; constructor;
    [exact He|constructor].
Qed.

Lemma tasks_below_tasks fm h :
  List.Forall (fun t => entity_is "Task" (child_entity t) = true)
    (tasks_below fm h).
Proof.
  unfold tasks_below.
  induction (map plain_child (shown_children fm h)) as [|c l IH];
    [constructor|].
  simpl. apply Forall_app. split; [apply task_entry_tasks|exact IH].
Qed.

Lemma tasks_below_steps_tasks fm kids :
  List.Forall (fun t => entity_is "Task" (child_entity t) = true)
    (tasks_below_steps fm kids).
Proof.
  unfold tasks_below_steps. induction kids as [|c l IH]; [constructor|].
  cbn [flat_map]. apply Forall_app. split; [|exact IH].
  destruct (entity_is "Step" (get_entity (Some c)));
    [apply tasks_below_tasks|constructor].
Qed.

Lemma tasks_below_steps_none fm kids :
  forallb (fun c => negb (entity_is "Step" (get_entity (Some c)))) kids = true ->
  tasks_below_steps fm kids = [].
Proof.
  unfold tasks_below_steps. induction kids as [|c l IH]; [reflexivity|].
  cbn [flat_map forallb]. intros H. apply andb_true_iff in H as [Hc Hl].
  destruct (entity_is "Step" (get_entity (Some c))); [discriminate|].
  cbn [app]. apply IH, Hl.
Qed.

Lemma tasks_below_member fm h g e :
  g ∈ shown_children fm h ->
  get_entity (Some g) = Some e -> sg_type e = "Task" ->
  mkChild (item_text (handle_item h) ++ " - " ++ item_text (handle_item g))
    (Some e) ∈ tasks_below fm h.
Proof.
  intros Hg He Hty. unfold tasks_below.
  apply list_elem_of_In, in_flat_map. exists (plain_child g). split.
  - apply in_map, list_elem_of_In, Hg.
  - unfold task_entry, plain_child. cbn [child_entity child_label].
    rewrite He, Hty. left. reflexivity.
Qed.

(** X15: the details of an item that is no Step and shows no Step below it
    picture the tree one to one: the label and the entity of the item and
    one entry, label and entity, for every child that the proxy shows, in
    the shown order. *)
Theorem details_picture_shown_children st idx item :
  _item_from_index st idx = Some item ->
  entity_is "Step" (get_entity (Some item)) = false ->
  forallb (fun c => negb (entity_is "Step" (get_entity (Some c))))
    (shown_children (_filter_model st) item) = true ->
  _get_entity_details st idx
  = DetailsDict (item_text (handle_item item)) (get_entity (Some item))
      (map plain_child (shown_children (_filter_model st) item)).
Proof.
  intros Hitem Hstep Hkids.
  destruct (item_from_index_shown st idx item Hitem) as (Hm & Hv & Hh).
  rewrite (get_entity_details_shape st idx item Hm Hv Hh). cbv zeta.
  rewrite (tasks_below_steps_none _ _ Hkids), Hstep, andb_false_r.
  destruct (_collapse_steps_with_tasks st); reflexivity.
Qed.

(** X16: whatever the details of an index are, they are empty or carry
    the label of the item at the index; their children are either the one
    to one picture of the shown children, below the entity of the item, or
    a list, not empty, of Task entries only; the entity of the item is
    dropped only for a Step item. *)
Theorem details_are_picture_or_tasks st idx label entity children :
  _get_entity_details st idx = DetailsDict label entity children ->
  exists item,
    _item_from_index st idx = Some item
    /\ label = item_text (handle_item item)
    /\ ((entity = get_entity (Some item)
         /\ children
            = map plain_child (shown_children (_filter_model st) item))
        \/ (children <> []
            /\ List.Forall
                 (fun t => entity_is "Task" (child_entity t) = true) children
            /\ (entity = get_entity (Some item)
                \/ (entity = None
                    /\ entity_is "Step" (get_entity (Some item)) = true)))).
Proof.
  intros Hdetails.
  destruct (_item_from_index st idx) as [item|] eqn:Hitem.
  2: { unfold _get_entity_details in Hdetails. rewrite Hitem in Hdetails.
       destruct (negb (isValid idx)); discriminate. }
  exists item. split; [reflexivity|].
  destruct (item_from_index_shown st idx item Hitem) as (Hm & Hv & Hh).
  rewrite (get_entity_details_shape st idx item Hm Hv Hh) in Hdetails.
  cbv zeta in Hdetails.
  destruct (nonempty (if _collapse_steps_with_tasks st then _ else _))
    eqn:Hvia.
  - injection Hdetails as <- <- <-. split; [reflexivity|]. right.
    split; [apply nonempty_true, Hvia|]. split; [|left; reflexivity].
    destruct (_collapse_steps_with_tasks st);
      [apply tasks_below_steps_tasks|constructor].
  - destruct (_collapse_steps_with_tasks st
              && entity_is "Step" (get_entity (Some item))) eqn:Hstep.
    + destruct (nonempty (tasks_below (_filter_model st) item)) eqn:Hown.
      * injection Hdetails as <- <- <-. split; [reflexivity|]. right.
        split; [apply nonempty_true, Hown|].
        split; [apply tasks_below_tasks|]. right.
        apply andb_true_iff in Hstep as [_ Hstep]. auto.
      * injection Hdetails as <- <- <-. split; [reflexivity|]. left. auto.
    + injection Hdetails as <- <- <-. split; [reflexivity|]. left. auto.
Qed.

(** X17: the details of a Step item that shows a Task, and no Step, below
    it drop the entity of the Step and list the Tasks shown below it, each
    labelled with the label of the Step, a dash and the label of the
    Task. *)
Theorem step_details_list_its_tasks st idx item g e :
  _collapse_steps_with_tasks st = true ->
  _item_from_index st idx = Some item ->
  entity_is "Step" (get_entity (Some item)) = true ->
  forallb (fun c => negb (entity_is "Step" (get_entity (Some c))))
    (shown_children (_filter_model st) item) = true ->
  g ∈ shown_children (_filter_model st) item ->
  get_entity (Some g) = Some e -> sg_type e = "Task" ->
  _get_entity_details st idx
  = DetailsDict (item_text (handle_item item)) None
      (tasks_below (_filter_model st) item)
  /\ mkChild (item_text (handle_item item) ++ " - "
              ++ item_text (handle_item g)) (Some e)
     ∈ tasks_below (_filter_model st) item.
Proof.
  intros Hcollapse Hitem Hstep Hkids Hg He Hty.
  pose proof (tasks_below_member _ _ _ _ Hg He Hty) as Hin.
  split; [|exact Hin].
  destruct (item_from_index_shown st idx item Hitem) as (Hm & Hv & Hh).
  rewrite (get_entity_details_shape st idx item Hm Hv Hh). cbv zeta.
  rewrite (tasks_below_steps_none _ _ Hkids), Hstep, Hcollapse.
  cbn [nonempty andb].
  destruct (tasks_below (_filter_model st) item) as [|t ts];
    [inversion Hin|reflexivity].
Qed.

(** X18: the details of an item that shows a Step with a Task below it
    keep the entity of the item and list, instead of its children, the
    Tasks shown below its Steps, each labelled with the label of its Step,
    a dash and the label of the Task; the children that are no Step, and
    the Steps without a Task, are not listed. *)
Theorem details_collapse_steps_of_children st idx item c g e :
  _collapse_steps_with_tasks st = true ->
  _item_from_index st idx = Some item ->
  c ∈ shown_children (_filter_model st) item ->
  entity_is "Step" (get_entity (Some c)) = true ->
  g ∈ shown_children (_filter_model st) c ->
  get_entity (Some g) = Some e -> sg_type e = "Task" ->
  let children :=
    tasks_below_steps (_filter_model st)
      (shown_children (_filter_model st) item) in
  _get_entity_details st idx
  = DetailsDict (item_text (handle_item item)) (get_entity (Some item))
      children
  /\ mkChild (item_text (handle_item c) ++ " - "
              ++ item_text (handle_item g)) (Some e) ∈ children.
Proof.
  intros Hcollapse Hitem Hc Hstep Hg He Hty. cbv zeta.
  assert (Hin : mkChild (item_text (handle_item c) ++ " - "
                         ++ item_text (handle_item g)) (Some e)
                ∈ tasks_below_steps (_filter_model st)
                    (shown_children (_filter_model st) item)).
  { unfold tasks_below_steps. apply list_elem_of_In, in_flat_map.
    exists c. split; [apply list_elem_of_In, Hc|].
    rewrite Hstep. apply list_elem_of_In.
    apply (tasks_below_member _ _ _ _ Hg He Hty). }
  split; [|exact Hin].
  destruct (item_from_index_shown st idx item Hitem) as (Hm & Hv & Hh).
  rewrite (get_entity_details_shape st idx item Hm Hv Hh). cbv zeta.
  rewrite Hcollapse.
  destruct (tasks_below_steps (_filter_model st)
              (shown_children (_filter_model st) item)) as [|t ts];
    [inversion Hin|reflexivity].
Qed.

(** ** The further properties on the small production *)

Lemma filter_change_keeping_node_is_silent_witness :
  let st := step_a_selected in
  let h := mkHandle [0; 0] step_a_item in
  let c := SearchText "anim" in
  _entity_to_select st = None
  /\ _get_selected_item st = Some h
  /\ _current_item_ref st = Some (weakref h)
  /\ deref (src_model st) (weakref h) = Some h
  /\ isValid (mapFromSource (filter_after st c) (index_of h)) = true
  /\ (let st' := on_filter_change st c in
      emitted st' = emitted st
      /\ _get_selected_item st' = Some h
      /\ weakref h = weakref h).
Proof.
  cbv zeta.
  assert (Ht : _entity_to_select step_a_selected = None)
    by (vm_compute; reflexivity).
  assert (Hsel : _get_selected_item step_a_selected
                 = Some (mkHandle [0; 0] step_a_item))
    by (vm_compute; reflexivity).
  assert (Href : _current_item_ref step_a_selected
                 = Some (weakref (mkHandle [0; 0] step_a_item)))
    by (vm_compute; reflexivity).
  assert (Hderef : deref (src_model step_a_selected)
                     (weakref (mkHandle [0; 0] step_a_item))
                   = Some (mkHandle [0; 0] step_a_item))
    by (vm_compute; reflexivity).
  assert (Hshown : isValid (mapFromSource
                              (filter_after step_a_selected (SearchText "anim"))
                              (index_of (mkHandle [0; 0] step_a_item))) = true)
    by (vm_compute; reflexivity).
  repeat (split; [assumption|]).
  exact (filter_change_keeping_node_is_silent step_a_selected
           (SearchText "anim") _ _ Ht Hsel Href Hderef Hshown).
Defined.

Lemma filter_change_hiding_node_sends_none_witness :
  let st := step_a_selected in
  let h := mkHandle [0; 0] step_a_item in
  let c := MyTasksOnly true in
  _entity_to_select st = None
  /\ _get_selected_item st = Some h
  /\ _current_item_ref st = Some (weakref h)
  /\ deref (src_model st) (weakref h) = Some h
  /\ isValid (mapFromSource (filter_after st c) (index_of h)) = false
  /\ signalsBlocked st = false
  /\ (let st' := on_filter_change st c in
      selectedIndexes st' = []
      /\ emitted st'
         = (emitted st ++ [entity_selected None TrailEmptyDict])%list).
Proof.
  cbv zeta.
  assert (Ht : _entity_to_select step_a_selected = None)
    by (vm_compute; reflexivity).
  assert (Hsel : _get_selected_item step_a_selected
                 = Some (mkHandle [0; 0] step_a_item))
    by (vm_compute; reflexivity).
  assert (Href : _current_item_ref step_a_selected
                 = Some (weakref (mkHandle [0; 0] step_a_item)))
    by (vm_compute; reflexivity).
  assert (Hderef : deref (src_model step_a_selected)
                     (weakref (mkHandle [0; 0] step_a_item))
                   = Some (mkHandle [0; 0] step_a_item))
    by (vm_compute; reflexivity).
  assert (Hhidden : isValid (mapFromSource
                               (filter_after step_a_selected (MyTasksOnly true))
                               (index_of (mkHandle [0; 0] step_a_item)))
                    = false)
    by (vm_compute; reflexivity).
  assert (Hb : signalsBlocked step_a_selected = false)
    by (vm_compute; reflexivity).
  repeat (split; [assumption|]).
  apply (filter_change_hiding_node_sends_none step_a_selected
           (MyTasksOnly true) _ Ht Hsel Href); [|exact Hb].
  rewrite Hderef. exact Hhidden.
Defined.

Lemma select_entity_keeps_target_pending_witness :
  let st := handle example_form (MyTasksOnlyToggled true) in
  let h := mkHandle [0; 0; 0] task_a_item in
  item_from_entity (src_model st) "Task" 10 = Some h
  /\ isValid (mapFromSource (_filter_model st) (index_of h)) = false
  /\ (let st' := select_entity st "Task" 10 in
      _entity_to_select st' = Some ("Task", 10%Z)
      /\ _current_item_ref st' = None
      /\ selectedIndexes st' = []).
Proof.
  cbv zeta.
  assert (Hfound : item_from_entity
                     (src_model (handle example_form (MyTasksOnlyToggled true)))
                     "Task" 10
                   = Some (mkHandle [0; 0; 0] task_a_item))
    by (vm_compute; reflexivity).
  assert (Hhidden : isValid (mapFromSource
                      (_filter_model
                         (handle example_form (MyTasksOnlyToggled true)))
                      (index_of (mkHandle [0; 0; 0] task_a_item))) = false)
    by (vm_compute; reflexivity).
  repeat (split; [assumption|]).
  apply (select_entity_keeps_target_pending
           (handle example_form (MyTasksOnlyToggled true)) "Task" 10).
  rewrite Hfound. exact Hhidden.
Defined.

Lemma new_task_button_matches_slot_witness :
  let st := task_a_selected in
  signalsBlocked st = false
  /\ new_task_btn_enabled (_update_ui st) = true
  /\ exists entity step,
       _on_new_task st = Returns (emit st (create_new_task entity step))
       /\ emitted (state_after (_on_new_task st))
          = (emitted st ++ [create_new_task entity step])%list.
Proof.
  cbv zeta.
  assert (Hb : signalsBlocked task_a_selected = false)
    by (vm_compute; reflexivity).
  assert (Hbtn : new_task_btn_enabled (_update_ui task_a_selected) = true)
    by (vm_compute; reflexivity).
  repeat (split; [assumption|]).
  exact (proj1 (new_task_button_matches_slot task_a_selected Hb) Hbtn).
Defined.

Lemma selection_made_sends_get_selection_witness :
  let st := example_form in
  let idx := mkIndex OfFilter [0; 0] in
  let item := mkHandle [0; 0] step_a_item in
  signalsBlocked st = false
  /\ index_in idx (selectedIndexes st) = false
  /\ _item_from_index st idx = Some item
  /\ (let st' := change_selection st [idx] in
      emitted st'
      = (emitted st ++
         [entity_selected (Some (fst (get_selection st')))
            (snd (get_selection st'))])%list
      /\ _current_item_ref st' = Some (weakref item)
      /\ _entity_to_select st' = None
      /\ new_task_btn_enabled st' = new_task_btn_enabled (_update_ui st')).
Proof.
  cbv zeta.
  assert (Hb : signalsBlocked example_form = false)
    by (vm_compute; reflexivity).
  assert (Hnew : index_in (mkIndex OfFilter [0; 0])
                   (selectedIndexes example_form) = false)
    by (vm_compute; reflexivity).
  assert (Hitem : _item_from_index example_form (mkIndex OfFilter [0; 0])
                  = Some (mkHandle [0; 0] step_a_item))
    by (vm_compute; reflexivity).
  repeat (split; [assumption|]).
  exact (selection_made_sends_get_selection example_form _ _ Hb Hnew Hitem).
Defined.

Lemma selection_cleared_sends_empty_details_witness :
  let st := step_a_selected in
  signalsBlocked st = false
  /\ selectedIndexes st = [mkIndex OfFilter [0; 0]]
  /\ (let st' := change_selection st [] in
      selectedIndexes st' = []
      /\ _current_item_ref st' = None
      /\ _entity_to_select st' = _entity_to_select st
      /\ new_task_btn_enabled st' = false
      /\ emitted st'
         = (emitted st
            ++ [entity_selected (Some EmptyDict) TrailEmptyDict])%list).
Proof.
  cbv zeta.
  assert (Hb : signalsBlocked step_a_selected = false)
    by (vm_compute; reflexivity).
  assert (Hsel : selectedIndexes step_a_selected = [mkIndex OfFilter [0; 0]])
    by (vm_compute; reflexivity).
  repeat (split; [assumption|]).
  apply (selection_cleared_sends_empty_details step_a_selected Hb).
  rewrite Hsel. discriminate.
Defined.


Lemma navigate_to_returns_for_plain_trail_witness :
  let trail := [Breadcrumb "Shot A"; Breadcrumb "Anim"] in
  forallb is_plain trail = true
  /\ exists st', navigate_to example_form trail = Returns st'.
Proof.
  cbv zeta. split; [reflexivity|].
  apply (navigate_to_returns_for_plain_trail example_form). reflexivity.
Defined.

Lemma expanded_rows_are_tracked_witness :
  let st := example_form in
  let ev := ModelChanged (model_rows example_model) [] ∅ in
  view_tracked st /\ view_tracked (handle st ev).
Proof.
  cbv zeta.
  pose proof (proj1 expanded_rows_are_tracked example_model example_accepts)
    as Hinit.
  split; [exact Hinit|].
  apply (proj2 expanded_rows_are_tracked example_form
           (ModelChanged (model_rows example_model) [] ∅) Hinit).
  apply empty_subseteq.
Defined.

Lemma new_root_rows_are_expanded_witness :
  let st := handle (__init__ (mkModel [] "Task") example_accepts)
              (ModelChanged [shot_a_item; shot_b_item] [] ∅) in
  let d := mkHandle [1] shot_b_item in
  isValid invalid_index = false
  /\ 1 < rowCount (_filter_model st) invalid_index
  /\ model_depth (src_model st) <= 4
  /\ filter_item (_filter_model st) [1] = Some d
  /\ (weakref d ∉ _auto_expanded_root_items st)
  /\ exists st',
       _on_filter_model_rows_inserted 4 st invalid_index 0 1 = Returns st'
       /\ (weakref d ∈ _auto_expanded_root_items st')
       /\ (weakref d ∈ tree_expanded st')
       /\ (weakref d ∈ _expanded_items st').
Proof.
  cbv zeta.
  set (st := handle (__init__ (mkModel [] "Task") example_accepts)
               (ModelChanged [shot_a_item; shot_b_item] [] ∅)).
  assert (Hroot : isValid invalid_index = false) by reflexivity.
  assert (Hlast : 1 < rowCount (_filter_model st) invalid_index)
    by (vm_compute; lia).
  assert (Hdepth : model_depth (src_model st) <= 4) by (vm_compute; lia).
  assert (Hd : filter_item (_filter_model st) [1]
               = Some (mkHandle [1] shot_b_item))
    by (vm_compute; reflexivity).
  assert (Hnew : weakref (mkHandle [1] shot_b_item)
                 ∉ _auto_expanded_root_items st)
    by (apply not_in_by_evaluation; vm_compute; reflexivity).
  repeat (split; [assumption|]).
  apply (new_root_rows_are_expanded 4 st invalid_index 0 1 1
           (mkHandle [1] shot_b_item) Hroot Hlast Hdepth); [lia|exact Hd|exact Hnew].
Defined.

Lemma new_widget_has_root_rows_expanded_witness :
  let st := example_form in
  let d := mkHandle [1] shot_b_item in
  filter_item (_filter_model st) [1] = Some d
  /\ ((weakref d ∈ tree_expanded st)
      /\ (weakref d ∈ _expanded_items st)
      /\ (weakref d ∈ _auto_expanded_root_items st))
  /\ selectedIndexes st = []
  /\ _entity_to_select st = None
  /\ _current_item_ref st = None
  /\ emitted st = [].
Proof.
  cbv zeta.
  assert (Hd : filter_item (_filter_model example_form) [1]
               = Some (mkHandle [1] shot_b_item))
    by (vm_compute; reflexivity).
  split; [exact Hd|].
  exact (new_widget_has_root_rows_expanded example_model example_accepts 1
           (mkHandle [1] shot_b_item) Hd).
Defined.

Lemma details_picture_shown_children_witness :
  let st := unlinked_form in
  let idx := mkIndex OfFilter [0] in
  let item :=
    mkHandle [0]
      (mkItem 1 "Unlinked" None
         [mkItem 2 "review"
            (Some (mkEntity "Task" 12 None (Some "review") None None)) []]) in
  _item_from_index st idx = Some item
  /\ entity_is "Step" (get_entity (Some item)) = false
  /\ forallb (fun c => negb (entity_is "Step" (get_entity (Some c))))
       (shown_children (_filter_model st) item) = true
  /\ _get_entity_details st idx
     = DetailsDict "Unlinked" None
         [mkChild "review"
            (Some (mkEntity "Task" 12 None (Some "review") None None))].
Proof.
  cbv zeta.
  set (item := mkHandle [0]
      (mkItem 1 "Unlinked" None
         [mkItem 2 "review"
            (Some (mkEntity "Task" 12 None (Some "review") None None)) []])).
  assert (Hitem : _item_from_index unlinked_form (mkIndex OfFilter [0])
                  = Some item) by (vm_compute; reflexivity).
  assert (Hstep : entity_is "Step" (get_entity (Some item)) = false)
    by reflexivity.
  assert (Hkids : forallb
                    (fun c => negb (entity_is "Step" (get_entity (Some c))))
                    (shown_children (_filter_model unlinked_form) item) = true)
    by (vm_compute; reflexivity).
  repeat (split; [assumption|]).
  rewrite (details_picture_shown_children unlinked_form _ item
             Hitem Hstep Hkids).
  vm_compute. reflexivity.
Defined.

Lemma details_are_picture_or_tasks_witness :
  let st := example_form in
  let idx := mkIndex OfFilter [0] in
  let children := [mkChild "Anim - animate" (Some task_a)] in
  _get_entity_details st idx = DetailsDict "Shot A" (Some shot_a) children
  /\ exists item,
       _item_from_index st idx = Some item
       /\ "Shot A" = item_text (handle_item item)
       /\ ((Some shot_a = get_entity (Some item)
            /\ children
               = map plain_child (shown_children (_filter_model st) item))
           \/ (children <> []
               /\ List.Forall
                    (fun t => entity_is "Task" (child_entity t) = true)
                    children
               /\ (Some shot_a = get_entity (Some item)
                   \/ (Some shot_a = None
                       /\ entity_is "Step" (get_entity (Some item))
                          = true)))).
Proof.
  cbv zeta.
  assert (Hdetails : _get_entity_details example_form (mkIndex OfFilter [0])
                     = DetailsDict "Shot A" (Some shot_a)
                         [mkChild "Anim - animate" (Some task_a)])
    by (vm_compute; reflexivity).
  split; [exact Hdetails|].
  exact (details_are_picture_or_tasks example_form _ _ _ _ Hdetails).
Defined.

Lemma step_details_list_its_tasks_witness :
  let st := example_form in
  let idx := mkIndex OfFilter [0; 0] in
  let item := mkHandle [0; 0] step_a_item in
  let g := mkHandle [0; 0; 0] task_a_item in
  _collapse_steps_with_tasks st = true
  /\ _item_from_index st idx = Some item
  /\ entity_is "Step" (get_entity (Some item)) = true
  /\ forallb (fun c => negb (entity_is "Step" (get_entity (Some c))))
       (shown_children (_filter_model st) item) = true
  /\ shown_children (_filter_model st) item = [g]
  /\ get_entity (Some g) = Some task_a
  /\ sg_type task_a = "Task"
  /\ _get_entity_details st idx
     = DetailsDict "Anim" None (tasks_below (_filter_model st) item)
  /\ (mkChild "Anim - animate" (Some task_a)
      ∈ tasks_below (_filter_model st) item).
Proof.
  cbv zeta.
  assert (Hc : _collapse_steps_with_tasks example_form = true)
    by (vm_compute; reflexivity).
  assert (Hitem : _item_from_index example_form (mkIndex OfFilter [0; 0])
                  = Some (mkHandle [0; 0] step_a_item))
    by (vm_compute; reflexivity).
  assert (Hstep : entity_is "Step" (get_entity
                    (Some (mkHandle [0; 0] step_a_item))) = true)
    by reflexivity.
  assert (Hkids : forallb
                    (fun c => negb (entity_is "Step" (get_entity (Some c))))
                    (shown_children (_filter_model example_form)
                       (mkHandle [0; 0] step_a_item)) = true)
    by (vm_compute; reflexivity).
  assert (Hshown : shown_children (_filter_model example_form)
                     (mkHandle [0; 0] step_a_item)
                   = [mkHandle [0; 0; 0] task_a_item])
    by (vm_compute; reflexivity).
  assert (He : get_entity (Some (mkHandle [0; 0; 0] task_a_item))
               = Some task_a) by reflexivity.
  assert (Hty : sg_type task_a = "Task") by reflexivity.
  repeat (split; [assumption|]).
  apply (step_details_list_its_tasks example_form _ _
           (mkHandle [0; 0; 0] task_a_item) task_a Hc Hitem Hstep Hkids);
    [|exact He|exact Hty].
  rewrite Hshown. constructor.
Defined.

Lemma details_collapse_steps_of_children_witness :
  let st := example_form in
  let idx := mkIndex OfFilter [0] in
  let item := mkHandle [0] shot_a_item in
  let c := mkHandle [0; 0] step_a_item in
  let g := mkHandle [0; 0; 0] task_a_item in
  _collapse_steps_with_tasks st = true
  /\ _item_from_index st idx = Some item
  /\ shown_children (_filter_model st) item = [c]
  /\ entity_is "Step" (get_entity (Some c)) = true
  /\ shown_children (_filter_model st) c = [g]
  /\ get_entity (Some g) = Some task_a
  /\ sg_type task_a = "Task"
  /\ (let children :=
        tasks_below_steps (_filter_model st)
          (shown_children (_filter_model st) item) in
      _get_entity_details st idx = DetailsDict "Shot A" (Some shot_a) children
      /\ (mkChild "Anim - animate" (Some task_a) ∈ children)).
Proof.
  cbv zeta.
  assert (Hc : _collapse_steps_with_tasks example_form = true)
    by (vm_compute; reflexivity).
  assert (Hitem : _item_from_index example_form (mkIndex OfFilter [0])
                  = Some (mkHandle [0] shot_a_item))
    by (vm_compute; reflexivity).
  assert (Hshown : shown_children (_filter_model example_form)
                     (mkHandle [0] shot_a_item)
                   = [mkHandle [0; 0] step_a_item])
    by (vm_compute; reflexivity).
  assert (Hstep : entity_is "Step" (get_entity
                    (Some (mkHandle [0; 0] step_a_item))) = true)
    by reflexivity.
  assert (Hbelow : shown_children (_filter_model example_form)
                     (mkHandle [0; 0] step_a_item)
                   = [mkHandle [0; 0; 0] task_a_item])
    by (vm_compute; reflexivity).
  assert (He : get_entity (Some (mkHandle [0; 0; 0] task_a_item))
               = Some task_a) by reflexivity.
  assert (Hty : sg_type task_a = "Task") by reflexivity.
  repeat (split; [assumption|]).
  apply (details_collapse_steps_of_children example_form _ _
           (mkHandle [0; 0] step_a_item) (mkHandle [0; 0; 0] task_a_item)
           task_a Hc Hitem); [|exact Hstep| |exact He|exact Hty].
  - rewrite Hshown. constructor.
  - rewrite Hbelow. constructor.
Defined.
